(** * Rate-limited, cached, retried HTTP client core of the match exporter

    Shallow embedding of
    - [RateLimiter] and [request_with_backoff] of [lol_match_exporter.py],
    - [LRUCache], [AdaptiveRateLimiter] and [EnhancedRiotAPI._make_request]
      of [riot_api_enhanced.py],
    - [ApiRequest.__lt__], [SeasonalSegmenter.segment_time_range] and
      [get_matches_by_season] of [riot_api_enhanced.py],
    - the routing tables and their lookups, [parse_riot_id],
      [get_puuid_from_riotid], [get_match_ids], [get_match],
      [get_timeline], [optional_summoner_profile], [load_queue_map],
      [join_items] and [derive_lane] of [lol_match_exporter.py],
    followed by the properties of the specification, proved or refuted on
    these definitions, and by further properties of the modelled code.

    Conventions.  Python floats (timestamps, waits, the backoff multiplier)
    are exact rationals [Q]; Python ints are [Z].  The wall clock is the
    simulated clock of the specification's scenarios: [time.time()] reads
    [now], [time.sleep d] advances it by [d].  A [while True] loop takes a
    fuel argument and returns [None] when the fuel runs out. *)

From Stdlib Require Import Ascii String DecimalString QArith Qminmax Qround Qpower ZArith List Sorted Lia Lqa Bool.
Import ListNotations.

Open Scope Q_scope.

(** ** Python primitives *)

(** [x < y] on floats. *)
Definition Qlt_bool (x y : Q) : bool := negb (Qle_bool y x).

(** [int(x)] on a float: truncation toward zero. *)
Definition py_int (x : Q) : Z := Z.quot (Qnum x) (Zpos (Qden x)).

(** [max(a, b, c)]. *)
Definition py_max3 (a b c : Q) : Q := Qmax (Qmax a b) c.

(** [x += 1] on an int. *)
Definition incr (x : Z) : Z := (x + 1)%Z.

Inductive Exn : Type :=
| KeyError
| ValueError
| JSONDecodeError
| TransportError
| RuntimeError.

Inductive Outcome (A : Type) : Type :=
| Returned (a : A)
| Raises (e : Exn).

Arguments Returned {A} a.
Arguments Raises {A} e.

(** Decoded JSON payloads; [JNull] is Python's [None]. *)
Inductive Json : Type :=
| JNull
| JBool (b : bool)
| JNum (n : Z)
| JStr (s : string)
| JArr (items : JsonItems)
| JObj (fields : JsonFields)
with JsonItems : Type :=
| JNil
| JCons (item : Json) (rest : JsonItems)
with JsonFields : Type :=
| JNoField
| JField (name : string) (value : Json) (rest : JsonFields).

Definition is_None (v : Json) : bool :=
  match v with
  | JNull => true
  | _ => false
  end.

(** What the clients print. *)
Inductive Msg : Type :=
| MsgRateLimitingWaiting (wait_time : Q)
| MsgRateLimited429 (retry_after : Q)
| MsgServerError (status : Z)
| MsgApiError (status : Z) (text : string)
| MsgRequestFailed (e : Exn).

(** ** The outside world: clock, sleeps, prints, HTTP calls issued *)

Record World : Type := mkWorld {
  now : Q;
  slept : list Q;
  printed : list Msg;
  http_calls : nat
}.

(** [time.sleep d] for a [d] known to be non-negative. *)
Definition advance (d : Q) (w : World) : World :=
  {| now := now w + d;
     slept := slept w ++ [d];
     printed := printed w;
     http_calls := http_calls w |}.

(** [time.sleep d]: [ValueError] on a negative length. *)
Definition time_sleep (d : Q) (w : World) : option World :=
  if Qlt_bool d 0 then None else Some (advance d w).

Definition print (m : Msg) (w : World) : World :=
  {| now := now w;
     slept := slept w;
     printed := printed w ++ [m];
     http_calls := http_calls w |}.

(** One call of [session.request]. *)
Definition issue_request (w : World) : World :=
  {| now := now w;
     slept := slept w;
     printed := printed w;
     http_calls := S (http_calls w) |}.

Record Response : Type := mkResponse {
  status_code : Z;
  (** [headers.get("Retry-After")] *)
  retry_after_header : option string;
  (** [json()]; [None] when the body does not decode *)
  json_body : option Json;
  text : string
}.

(** What [session.request] does: raise, or hand back a response. *)
Inductive HttpOutcome : Type :=
| HttpRaised
| Responded (r : Response).

(** Result of one locked check of a limiter. *)
Inductive Verdict : Type :=
| Granted
| Wait (wait_time : Q).

(** The two [while dq and now - dq[0] >= window: dq.popleft()] loops. *)
Fixpoint purge (t_now window : Q) (dq : list Q) : list Q :=
  match dq with
  | [] => []
  | t0 :: rest =>
      if Qle_bool window (t_now - t0) then purge t_now window rest else dq
  end.

(** [window - (now - dq[0])] when the window is full and not empty. *)
Definition window_wait (t_now window : Q) (can : bool) (dq : list Q) : Q :=
  match dq with
  | t0 :: _ => if negb can then window - (t_now - t0) else 0
  | [] => 0
  end.

(** Number of stamps of [grants] in the trailing interval [(T - window, T]]. *)
Definition count_window (T window : Q) (grants : list Q) : nat :=
  length (filter (fun g => Qlt_bool (T - window) g && Qle_bool g T) grants).

(** ** [RateLimiter] (lol_match_exporter.py) *)

Module RateLimiter.

Record t : Type := mk {
  short_max : Z;
  short_window : Q;
  long_max : Z;
  long_window : Q;
  _short : list Q;
  _long : list Q
}.

(** [RateLimiter()] *)
Definition init : t :=
  {| short_max := 20; short_window := 1;
     long_max := 100; long_window := 120;
     _short := []; _long := [] |}.

(** The body of [with self._lock:] in [acquire], read at clock [t_now]. *)
Definition attempt (t_now : Q) (s : t) : t * Verdict :=
  let sh := purge t_now (short_window s) (_short s) in
  let lg := purge t_now (long_window s) (_long s) in
  let can_short := (Z.of_nat (length sh) <? short_max s)%Z in
  let can_long := (Z.of_nat (length lg) <? long_max s)%Z in
  if can_short && can_long then
    ({| short_max := short_max s; short_window := short_window s;
        long_max := long_max s; long_window := long_window s;
        _short := sh ++ [t_now]; _long := lg ++ [t_now] |}, Granted)
  else
    let wait_short := window_wait t_now (short_window s) can_short sh in
    let wait_long := window_wait t_now (long_window s) can_long lg in
    ({| short_max := short_max s; short_window := short_window s;
        long_max := long_max s; long_window := long_window s;
        _short := sh; _long := lg |},
     Wait (py_max3 wait_short wait_long (1 # 1000))).

(** [acquire()]: check, sleep outside the lock, check again. *)
Fixpoint acquire (fuel : nat) (s : t) (w : World) : option (t * World) :=
  match fuel with
  | O => None
  | S fuel' =>
      match attempt (now w) s with
      | (s', Granted) => Some (s', w)
      | (s', Wait d) => acquire fuel' s' (advance d w)
      end
  end.

(** Any interleaving of locked checks, by any number of callers: the clock
    readings of the checks in order.  Returns the final state and the stamps
    of the checks that were granted. *)
Fixpoint run (ts : list Q) (s : t) : t * list Q :=
  match ts with
  | [] => (s, [])
  | t_now :: ts' =>
      match attempt t_now s with
      | (s', Granted) => let (s'', gs) := run ts' s' in (s'', t_now :: gs)
      | (s', Wait _) => run ts' s'
      end
  end.

End RateLimiter.

(** ** [Priority] and [AdaptiveRateLimiter] (riot_api_enhanced.py) *)

Inductive Priority : Type :=
| HIGH
| NORMAL
| LOW.

Definition Priority_value (p : Priority) : Z :=
  match p with
  | HIGH => 1
  | NORMAL => 2
  | LOW => 3
  end.

Definition is_HIGH (p : Priority) : bool :=
  match p with
  | HIGH => true
  | _ => false
  end.

Module AdaptiveRateLimiter.

Record t : Type := mk {
  short_limit : Z;
  short_window : Q;
  long_limit : Z;
  long_window : Q;
  burst_allowance : Q;
  short_requests : list Q;
  long_requests : list Q;
  consecutive_429s : Z;
  backoff_multiplier : Q;
  last_429_time : Q
}.

(** [AdaptiveRateLimiter()] *)
Definition init : t :=
  {| short_limit := 20; short_window := 1;
     long_limit := 100; long_window := 120;
     burst_allowance := 1 # 10;
     short_requests := []; long_requests := [];
     consecutive_429s := 0; backoff_multiplier := 1; last_429_time := 0 |}.

(** The recomputation of [backoff_multiplier] at the top of every check. *)
Definition adapt (c : Z) (m : Q) : Q :=
  if (0 <? c)%Z then Qmin 2 (1 + inject_Z c * (2 # 10))
  else Qmax 1 (m * (95 # 100)).

Definition effective_short (s : t) (m : Q) (priority : Priority) : Z :=
  let e := py_int (inject_Z (short_limit s) / m) in
  if is_HIGH priority then py_int (inject_Z e * (1 + burst_allowance s)) else e.

Definition effective_long (s : t) (m : Q) : Z :=
  py_int (inject_Z (long_limit s) / m).

(** [_calculate_wait_time] *)
Definition _calculate_wait_time (t_now : Q) (s : t) (sh lg : list Q)
    (can_short can_long : bool) : Q :=
  let wait_short := window_wait t_now (short_window s) can_short sh in
  let wait_long := window_wait t_now (long_window s) can_long lg in
  py_max3 wait_short wait_long (1 # 1000).

Definition with_windows (s : t) (m : Q) (sh lg : list Q) : t :=
  {| short_limit := short_limit s; short_window := short_window s;
     long_limit := long_limit s; long_window := long_window s;
     burst_allowance := burst_allowance s;
     short_requests := sh; long_requests := lg;
     consecutive_429s := consecutive_429s s;
     backoff_multiplier := m;
     last_429_time := last_429_time s |}.

(** The body of [with self.lock:] in [acquire], read at clock [t_now]. *)
Definition attempt (t_now : Q) (priority : Priority) (s : t) : t * Verdict :=
  (* _clean_old_requests *)
  let sh := purge t_now (short_window s) (short_requests s) in
  let lg := purge t_now (long_window s) (long_requests s) in
  let m := adapt (consecutive_429s s) (backoff_multiplier s) in
  let can_proceed_short := (Z.of_nat (length sh) <? effective_short s m priority)%Z in
  let can_proceed_long := (Z.of_nat (length lg) <? effective_long s m)%Z in
  if can_proceed_short && can_proceed_long then
    (with_windows s m (sh ++ [t_now]) (lg ++ [t_now]), Granted)
  else
    (with_windows s m sh lg,
     Wait (_calculate_wait_time t_now s sh lg can_proceed_short can_proceed_long)).

(** [acquire(priority)]; the returned float is the [return 0]. *)
Fixpoint acquire (fuel : nat) (priority : Priority) (s : t) (w : World)
  : option (Q * t * World) :=
  match fuel with
  | O => None
  | S fuel' =>
      match attempt (now w) priority s with
      | (s', Granted) => Some (0, s', w)
      | (s', Wait wait_time) =>
          acquire fuel' priority s'
            (if Qlt_bool 0 wait_time then advance wait_time w else w)
      end
  end.

Definition with_429s (s : t) (c : Z) (last : Q) : t :=
  {| short_limit := short_limit s; short_window := short_window s;
     long_limit := long_limit s; long_window := long_window s;
     burst_allowance := burst_allowance s;
     short_requests := short_requests s; long_requests := long_requests s;
     consecutive_429s := c;
     backoff_multiplier := backoff_multiplier s;
     last_429_time := last |}.

(** [report_429()] at clock [t_now]. *)
Definition report_429 (t_now : Q) (s : t) : t :=
  if Qlt_bool (t_now - last_429_time s) 60
  then with_429s s (consecutive_429s s + 1)%Z t_now
  else with_429s s 1%Z t_now.

(** [report_success()] at clock [t_now]. *)
Definition report_success (t_now : Q) (s : t) : t :=
  if Qlt_bool 60 (t_now - last_429_time s)
  then with_429s s (Z.max 0 (consecutive_429s s - 1)) (last_429_time s)
  else s.

(** What can happen to a limiter, each under its lock. *)
Inductive Event : Type :=
| Attempt (t_now : Q) (priority : Priority)
| Report429 (t_now : Q)
| ReportSuccess (t_now : Q).

Definition event_time (e : Event) : Q :=
  match e with
  | Attempt t_now _ => t_now
  | Report429 t_now => t_now
  | ReportSuccess t_now => t_now
  end.

Definition event_not_HIGH (e : Event) : bool :=
  match e with
  | Attempt _ p => negb (is_HIGH p)
  | _ => true
  end.

(** Any interleaving of events; returns the final state and the stamps of
    the granted checks. *)
Fixpoint run (es : list Event) (s : t) : t * list Q :=
  match es with
  | [] => (s, [])
  | Attempt t_now p :: es' =>
      match attempt t_now p s with
      | (s', Granted) => let (s'', gs) := run es' s' in (s'', t_now :: gs)
      | (s', Wait _) => run es' s'
      end
  | Report429 t_now :: es' => run es' (report_429 t_now s)
  | ReportSuccess t_now :: es' => run es' (report_success t_now s)
  end.

(** [report_429()] at each clock reading of [ts], in order; the states after
    each report. *)
Fixpoint report_429_seq (ts : list Q) (s : t) : list t :=
  match ts with
  | [] => []
  | t_now :: ts' => let s' := report_429 t_now s in s' :: report_429_seq ts' s'
  end.

(** The multiplier the next [acquire] computes. *)
Definition next_multiplier (s : t) : Q :=
  adapt (consecutive_429s s) (backoff_multiplier s).

End AdaptiveRateLimiter.

(** ** [CacheEntry] and [LRUCache] (riot_api_enhanced.py) *)

Module LRUCache.

Record CacheEntry : Type := mkEntry {
  data : Json;
  expires_at : Q
}.

(** [CacheEntry(data, ttl_seconds)] built at clock [t_now]. *)
Definition new_entry (t_now : Q) (value : Json) (ttl_seconds : Z) : CacheEntry :=
  {| data := value; expires_at := t_now + inject_Z ttl_seconds |}.

(** [is_expired()]: [time.time() > self.expires_at]. *)
Definition is_expired (t_now : Q) (e : CacheEntry) : bool :=
  Qlt_bool (expires_at e) t_now.

(** The [OrderedDict]: keys in recency order, oldest first, no key twice. *)
Definition OrderedDict : Type := list (string * CacheEntry).

Fixpoint od_get (key : string) (od : OrderedDict) : option CacheEntry :=
  match od with
  | [] => None
  | (k, e) :: rest => if String.eqb k key then Some e else od_get key rest
  end.

(** [key in od] *)
Definition od_mem (key : string) (od : OrderedDict) : bool :=
  match od_get key od with
  | Some _ => true
  | None => false
  end.

(** [del od[key]] *)
Fixpoint od_del (key : string) (od : OrderedDict) : OrderedDict :=
  match od with
  | [] => []
  | (k, e) :: rest => if String.eqb k key then rest else (k, e) :: od_del key rest
  end.

(** [od[key] = e]: in place when the key is there, at the end when not. *)
Fixpoint od_setitem (key : string) (e : CacheEntry) (od : OrderedDict) : OrderedDict :=
  match od with
  | [] => [(key, e)]
  | (k, e0) :: rest =>
      if String.eqb k key then (k, e) :: rest else (k, e0) :: od_setitem key e rest
  end.

(** [od.move_to_end(key)], called on present keys only. *)
Definition od_move_to_end (key : string) (od : OrderedDict) : OrderedDict :=
  match od_get key od with
  | Some e => od_del key od ++ [(key, e)]
  | None => od
  end.

(** [od.popitem(last=False)]: [KeyError] on an empty dict. *)
Definition od_popitem_first (od : OrderedDict) : option OrderedDict :=
  match od with
  | [] => None
  | _ :: rest => Some rest
  end.

Definition keys (od : OrderedDict) : list string := map fst od.

Record t : Type := mk {
  cache : OrderedDict;
  max_size : Z;
  hits : Z;
  misses : Z
}.

(** [LRUCache(max_size)] *)
Definition init (max_size : Z) : t :=
  {| cache := []; max_size := max_size; hits := 0; misses := 0 |}.

(** [len(self.cache)] *)
Definition size (c : t) : Z := Z.of_nat (length (cache c)).

(** [get(key)] at clock [t_now]; [JNull] is the returned [None]. *)
Definition get (t_now : Q) (key : string) (c : t) : Json * t :=
  match od_get key (cache c) with
  | None =>
      (JNull, {| cache := cache c; max_size := max_size c;
                 hits := hits c; misses := incr (misses c) |})
  | Some entry =>
      if is_expired t_now entry then
        (JNull, {| cache := od_del key (cache c); max_size := max_size c;
                   hits := hits c; misses := incr (misses c) |})
      else
        (data entry, {| cache := od_move_to_end key (cache c); max_size := max_size c;
                        hits := incr (hits c); misses := misses c |})
  end.

(** [set(key, value, ttl_seconds)] at clock [t_now]; [None] is the
    [KeyError] of [popitem] on an empty dict. *)
Definition set (t_now : Q) (key : string) (value : Json) (ttl_seconds : Z) (c : t)
  : option t :=
  let evicted :=
    if (max_size c <=? size c)%Z && negb (od_mem key (cache c))
    then od_popitem_first (cache c)
    else Some (cache c) in
  match evicted with
  | None => None
  | Some od =>
      Some {| cache := od_move_to_end key (od_setitem key (new_entry t_now value ttl_seconds) od);
              max_size := max_size c; hits := hits c; misses := misses c |}
  end.


(** [clear_expired()] at clock [t_now]: the expired keys are listed first,
    then deleted one by one. *)
Definition expired_keys (t_now : Q) (od : OrderedDict) : list string :=
  map fst (filter (fun kv => is_expired t_now (snd kv)) od).

Definition clear_expired (t_now : Q) (c : t) : t :=
  {| cache := fold_left (fun od key => od_del key od) (expired_keys t_now (cache c)) (cache c);
     max_size := max_size c; hits := hits c; misses := misses c |}.

(** The numbers of [get_stats()]; [hit_rate] is the percentage before it is
    formatted. *)
Record Stats : Type := mkStats {
  stats_size : Z;
  stats_max_size : Z;
  stats_hits : Z;
  stats_misses : Z;
  stats_hit_rate : Q
}.

Definition get_stats (c : t) : Stats :=
  let total_requests := (hits c + misses c)%Z in
  {| stats_size := size c;
     stats_max_size := max_size c;
     stats_hits := hits c;
     stats_misses := misses c;
     stats_hit_rate :=
       if (0 <? total_requests)%Z
       then inject_Z (hits c) / inject_Z total_requests * 100
       else 0 |}.

(** The public operations, for runs of a cache. *)
Inductive Op : Type :=
| OpGet (t_now : Q) (key : string)
| OpSet (t_now : Q) (key : string) (value : Json) (ttl_seconds : Z)
| OpClearExpired (t_now : Q).

(** One operation; [None] is the [KeyError] of [set]. *)
Definition step (op : Op) (c : t) : option t :=
  match op with
  | OpGet t_now key => Some (snd (get t_now key c))
  | OpSet t_now key value ttl_seconds => set t_now key value ttl_seconds c
  | OpClearExpired t_now => Some (clear_expired t_now c)
  end.

Fixpoint run (ops : list Op) (c : t) : option t :=
  match ops with
  | [] => Some c
  | op :: ops' =>
      match step op c with
      | None => None
      | Some c' => run ops' c'
      end
  end.

End LRUCache.

(** ** [request_with_backoff] (lol_match_exporter.py) *)

Module Exporter.

Section RequestWithBackoff.

(** [float(s)] on a header value; [None] is its [ValueError]. *)
Variable py_float : string -> option Q.

(** What [session.request] does on the [i]-th attempt of this call. *)
Variable server : nat -> HttpOutcome.

Definition max_attempts : nat := 6.

(** [float(retry_after) if retry_after else backoff] *)
Definition sleep_seconds (retry_after : option string) (backoff : Q) : option Q :=
  match retry_after with
  | None => Some backoff
  | Some EmptyString => Some backoff
  | Some h => py_float h
  end.

(** [min(backoff * 2, 16)] *)
Definition next_backoff (backoff : Q) : Q := Qmin (backoff * 2) 16.

(** The [for attempt in range(1, max_attempts + 1)] loop from attempt [i]
    on, with [remaining] attempts left, and the two lines after it. *)
Fixpoint attempts (fuel remaining i : nat) (backoff : Q) (resp : option Response)
    (rl : RateLimiter.t) (w : World)
  : option (Outcome Response * RateLimiter.t * World) :=
  match remaining with
  | O =>
      match resp with
      | None => Some (Raises RuntimeError, rl, w)
      | Some r => Some (Returned r, rl, w)
      end
  | S remaining' =>
      match RateLimiter.acquire fuel rl w with
      | None => None
      | Some (rl', w1) =>
          match server i with
          | HttpRaised => Some (Raises TransportError, rl', issue_request w1)
          | Responded r =>
              let w2 := issue_request w1 in
              if (status_code r =? 429)%Z then
                match sleep_seconds (retry_after_header r) backoff with
                | None => Some (Raises ValueError, rl', w2)
                | Some sleep_s =>
                    match time_sleep sleep_s w2 with
                    | None => Some (Raises ValueError, rl', w2)
                    | Some w3 =>
                        attempts fuel remaining' (S i) (next_backoff backoff) (Some r) rl' w3
                    end
                end
              else if (500 <=? status_code r)%Z then
                match time_sleep backoff w2 with
                | None => Some (Raises ValueError, rl', w2)
                | Some w3 =>
                    attempts fuel remaining' (S i) (next_backoff backoff) (Some r) rl' w3
                end
              else Some (Returned r, rl', w2)
          end
      end
  end.

(** [request_with_backoff(session, method, url)], with the module's
    [RATE_LIMITER] in state [rl]. *)
Definition request_with_backoff (fuel : nat) (rl : RateLimiter.t) (w : World)
  : option (Outcome Response * RateLimiter.t * World) :=
  attempts fuel max_attempts 0 1 None rl w.

End RequestWithBackoff.

End Exporter.

(** ** [ApiRequest] and [EnhancedRiotAPI] (riot_api_enhanced.py) *)

Module EnhancedRiotAPI.

Record ApiRequest : Type := mkRequest {
  url : string;
  method : string;
  priority : Priority;
  params : list (string * Json);
  headers : list (string * string);
  timestamp : Q;
  retry_count : Z
}.

(** [ApiRequest.__lt__] *)
Definition ApiRequest_lt (a b : ApiRequest) : bool :=
  if negb (Priority_value (priority a) =? Priority_value (priority b))%Z
  then (Priority_value (priority a) <? Priority_value (priority b))%Z
  else Qlt_bool (timestamp a) (timestamp b).

(** [request.retry_count += 1] *)
Definition bump_retry (r : ApiRequest) : ApiRequest :=
  {| url := url r; method := method r; priority := priority r;
     params := params r; headers := headers r; timestamp := timestamp r;
     retry_count := incr (retry_count r) |}.

(** [request.priority = p] *)
Definition with_priority (p : Priority) (r : ApiRequest) : ApiRequest :=
  {| url := url r; method := method r; priority := p;
     params := params r; headers := headers r; timestamp := timestamp r;
     retry_count := retry_count r |}.

(** The [queue.PriorityQueue]: the pending requests, in order of arrival;
    the worker takes the least one under [__lt__] and hands it to
    [_make_request]. *)
Definition PriorityQueue : Type := list ApiRequest.

(** [put(request)] *)
Definition pq_put (r : ApiRequest) (q : PriorityQueue) : PriorityQueue := q ++ [r].

Record t : Type := mk {
  rate_limiter : AdaptiveRateLimiter.t;
  cache : LRUCache.t;
  request_queue : PriorityQueue;
  total_requests : Z;
  failed_requests : Z
}.

Definition with_cache (c : LRUCache.t) (api : t) : t :=
  {| rate_limiter := rate_limiter api; cache := c;
     request_queue := request_queue api;
     total_requests := total_requests api; failed_requests := failed_requests api |}.

Definition with_rate_limiter (rl : AdaptiveRateLimiter.t) (api : t) : t :=
  {| rate_limiter := rl; cache := cache api;
     request_queue := request_queue api;
     total_requests := total_requests api; failed_requests := failed_requests api |}.

Definition with_queue (q : PriorityQueue) (api : t) : t :=
  {| rate_limiter := rate_limiter api; cache := cache api;
     request_queue := q;
     total_requests := total_requests api; failed_requests := failed_requests api |}.

(** [self.total_requests += 1] *)
Definition count_request (api : t) : t :=
  {| rate_limiter := rate_limiter api; cache := cache api;
     request_queue := request_queue api;
     total_requests := incr (total_requests api); failed_requests := failed_requests api |}.

(** [self.failed_requests += 1] *)
Definition count_failure (api : t) : t :=
  {| rate_limiter := rate_limiter api; cache := cache api;
     request_queue := request_queue api;
     total_requests := total_requests api; failed_requests := incr (failed_requests api) |}.

(** ["match" in url] *)
Definition mentions_match (u : string) : bool :=
  match index 0 "match" u with
  | Some _ => true
  | None => false
  end.



Section MakeRequest.

(** [float(s)] on a header value; [None] is its [ValueError]. *)
Variable py_float : string -> option Q.

(** [_get_cache_key]: the MD5 digest of the URL and the sorted parameters. *)
Variable _get_cache_key : string -> list (string * Json) -> string.

(** The [except Exception] handler. *)
Definition on_exception (e : Exn) (api : t) (w : World) : Json * t * World :=
  (JNull, count_failure api, print (MsgRequestFailed e) w).

(** [float(response.headers.get("Retry-After", 10))] *)
Definition retry_after_seconds (r : Response) : option Q :=
  match retry_after_header r with
  | None => Some 10
  | Some h => py_float h
  end.

(** The [if request.retry_count < 3] of the 429 branch. *)
Definition requeue_high (request : ApiRequest) (api : t) : t :=
  if (retry_count request <? 3)%Z
  then with_queue (pq_put (with_priority HIGH (bump_retry request)) (request_queue api)) api
  else api.

(** The [if request.retry_count < 3] of the 5xx branch. *)
Definition requeue_same (request : ApiRequest) (api : t) : t :=
  if (retry_count request <? 3)%Z
  then with_queue (pq_put (bump_retry request) (request_queue api)) api
  else api.

(** The [try] block from [self.total_requests += 1] on, for a response. *)
Definition on_response (r : Response) (request : ApiRequest) (cache_key : string)
    (api : t) (w : World) : Json * t * World :=
  let api := count_request api in
  if (status_code r =? 200)%Z then
    let api := with_rate_limiter
                 (AdaptiveRateLimiter.report_success (now w) (rate_limiter api)) api in
    match json_body r with
    | None => on_exception JSONDecodeError api w
    | Some payload =>
        let ttl := if mentions_match (url request) then 300%Z else 600%Z in
        match LRUCache.set (now w) cache_key payload ttl (cache api) with
        | None => on_exception KeyError api w
        | Some c => (payload, with_cache c api, w)
        end
    end
  else if (status_code r =? 429)%Z then
    let api := with_rate_limiter
                 (AdaptiveRateLimiter.report_429 (now w) (rate_limiter api)) api in
    match retry_after_seconds r with
    | None => on_exception ValueError api w
    | Some retry_after =>
        let w := print (MsgRateLimited429 retry_after) w in
        match time_sleep retry_after w with
        | None => on_exception ValueError api w
        | Some w => (JNull, requeue_high request api, w)
        end
    end
  else if (500 <=? status_code r)%Z then
    let api := count_failure api in
    let w := print (MsgServerError (status_code r)) w in
    match time_sleep (Qpower 2 (retry_count request)) w with
    | None => on_exception ValueError api w
    | Some w => (JNull, requeue_same request api, w)
    end
  else
    (JNull, count_failure api, print (MsgApiError (status_code r) (text r)) w).

(** [_make_request(request)], [http] being what [session.request] does if
    it is called; the worker [_process_queue] calls it on each request it
    takes off the queue. *)
Definition _make_request (fuel : nat) (http : HttpOutcome) (request : ApiRequest)
    (api : t) (w : World) : option (Json * t * World) :=
  let cache_key := _get_cache_key (url request) (params request) in
  let (cached, c) := LRUCache.get (now w) cache_key (cache api) in
  let api := with_cache c api in
  if negb (is_None cached) then Some (cached, api, w)
  else
    match AdaptiveRateLimiter.acquire fuel (priority request) (rate_limiter api) w with
    | None => None
    | Some (wait_time, rl, w) =>
        let api := with_rate_limiter rl api in
        let w := if Qlt_bool 0 wait_time
                 then print (MsgRateLimitingWaiting wait_time) w else w in
        let w := issue_request w in
        match http with
        | HttpRaised => Some (on_exception TransportError api w)
        | Responded r => Some (on_response r request cache_key api w)
        end
    end.

End MakeRequest.

End EnhancedRiotAPI.

(** ** [SeasonalSegmenter] and [get_matches_by_season] (riot_api_enhanced.py) *)

Module SeasonalSegmenter.

(** The [while current < end_time] loop of [segment_time_range]. *)
Fixpoint segment_loop (fuel : nat) (current end_time segment_ms : Z)
    (segments : list (Z * Z)) {struct fuel} : option (list (Z * Z)) :=
  if (current <? end_time)%Z then
    match fuel with
    | O => None
    | S fuel' =>
        let segment_end := Z.min (current + segment_ms) end_time in
        segment_loop fuel' segment_end end_time segment_ms
          (segments ++ [(current, segment_end)])
    end
  else Some segments.

(** [segment_time_range(start_time, end_time, max_segment_days)] *)
Definition segment_time_range (fuel : nat) (start_time end_time max_segment_days : Z)
  : option (list (Z * Z)) :=
  segment_loop fuel start_time end_time (max_segment_days * 24 * 60 * 60 * 1000)%Z [].

Section MatchesBySeason.

(** [get_season_bounds]: the [SEASON_DATES] table in milliseconds, as
    [datetime.timestamp()] gives them in the machine's time zone. *)
Variable get_season_bounds : Z -> option (Z * Z).

(** [params[key] = value] on the request parameters. *)
Fixpoint dict_set (key : string) (value : Z) (d : list (string * Z)) : list (string * Z) :=
  match d with
  | [] => [(key, value)]
  | (k, v) :: rest =>
      if String.eqb k key then (k, value) :: rest else (k, v) :: dict_set key value rest
  end.

(** The [for queue_id in queue_ids] loop. *)
Definition for_queue_ids (queue_ids : list Z) (params : list (string * Z))
    (all_matches : list string) : list (string * Z) * list string :=
  fold_left (fun st queue_id => (dict_set "queue" queue_id (fst st), snd st))
    queue_ids (params, all_matches).

(** The [for seg_start, seg_end in segments] loop; [queue_ids] is [None]
    when the argument is left out. *)
Definition for_segments (segments : list (Z * Z)) (queue_ids : option (list Z))
    (all_matches : list string) : list string :=
  fold_left
    (fun all seg =>
       let params := [("startTime"%string, (fst seg / 1000)%Z);
                      ("endTime"%string, (snd seg / 1000)%Z);
                      ("start"%string, 0%Z); ("count"%string, 100%Z)] in
       match queue_ids with
       | Some (q :: qs) => snd (for_queue_ids (q :: qs) params all)
       | _ => all
       end)
    segments all_matches.

(** [get_matches_by_season(puuid, season, queue_ids)]; the line printed for
    an unknown season is left out. *)
Definition get_matches_by_season (fuel : nat) (puuid : string) (season : Z)
    (queue_ids : option (list Z)) : option (list string) :=
  match get_season_bounds season with
  | None => Some []
  | Some (start_time, end_time) =>
      match segment_time_range fuel start_time end_time 30 with
      | None => None
      | Some segments => Some (for_segments segments queue_ids [])
      end
  end.

End MatchesBySeason.

End SeasonalSegmenter.

(** ** Helpers and callers of [request_with_backoff] (lol_match_exporter.py) *)

Module MatchExporter.

Local Open Scope string_scope.

Definition PLATFORMS : list (string * string) :=
  [("euw1", "https://euw1.api.riotgames.com");
   ("eun1", "https://eun1.api.riotgames.com");
   ("tr1", "https://tr1.api.riotgames.com");
   ("ru", "https://ru.api.riotgames.com");
   ("na1", "https://na1.api.riotgames.com");
   ("la1", "https://la1.api.riotgames.com");
   ("la2", "https://la2.api.riotgames.com");
   ("br1", "https://br1.api.riotgames.com");
   ("kr", "https://kr.api.riotgames.com");
   ("jp1", "https://jp1.api.riotgames.com");
   ("oc1", "https://oc1.api.riotgames.com");
   ("ph2", "https://ph2.api.riotgames.com");
   ("sg2", "https://sg2.api.riotgames.com");
   ("th2", "https://th2.api.riotgames.com");
   ("tw2", "https://tw2.api.riotgames.com");
   ("vn2", "https://vn2.api.riotgames.com");
   ("me1", "https://me1.api.riotgames.com")].

Definition REGIONAL_MATCH_ROUTING : list (string * string) :=
  [("euw1", "https://europe.api.riotgames.com");
   ("eun1", "https://europe.api.riotgames.com");
   ("tr1", "https://europe.api.riotgames.com");
   ("ru", "https://europe.api.riotgames.com");
   ("me1", "https://europe.api.riotgames.com");
   ("na1", "https://americas.api.riotgames.com");
   ("la1", "https://americas.api.riotgames.com");
   ("la2", "https://americas.api.riotgames.com");
   ("br1", "https://americas.api.riotgames.com");
   ("kr", "https://asia.api.riotgames.com");
   ("jp1", "https://asia.api.riotgames.com");
   ("oc1", "https://sea.api.riotgames.com");
   ("ph2", "https://sea.api.riotgames.com");
   ("sg2", "https://sea.api.riotgames.com");
   ("th2", "https://sea.api.riotgames.com");
   ("tw2", "https://sea.api.riotgames.com");
   ("vn2", "https://sea.api.riotgames.com")].

Definition REGIONAL_ACCOUNT_ROUTING : list (string * string) :=
  [("euw1", "https://europe.api.riotgames.com");
   ("eun1", "https://europe.api.riotgames.com");
   ("tr1", "https://europe.api.riotgames.com");
   ("ru", "https://europe.api.riotgames.com");
   ("me1", "https://europe.api.riotgames.com");
   ("na1", "https://americas.api.riotgames.com");
   ("la1", "https://americas.api.riotgames.com");
   ("la2", "https://americas.api.riotgames.com");
   ("br1", "https://americas.api.riotgames.com");
   ("kr", "https://asia.api.riotgames.com");
   ("jp1", "https://asia.api.riotgames.com");
   ("oc1", "https://asia.api.riotgames.com");
   ("ph2", "https://asia.api.riotgames.com");
   ("sg2", "https://asia.api.riotgames.com");
   ("th2", "https://asia.api.riotgames.com");
   ("tw2", "https://asia.api.riotgames.com");
   ("vn2", "https://asia.api.riotgames.com")].

(** [table.get(key)] *)
Fixpoint dict_get (key : string) (table : list (string * string)) : option string :=
  match table with
  | [] => None
  | (k, v) :: rest => if String.eqb k key then Some v else dict_get key rest
  end.

(** [base = table.get(key)] followed by [if not base: sys.exit(1)];
    [None] is the exit. *)
Definition base_or_exit (key : string) (table : list (string * string)) : option string :=
  match dict_get key table with
  | Some (String c rest) => Some (String c rest)
  | _ => None
  end.

(** [s1 in s2] on strings. *)
Definition py_in (s1 s2 : string) : bool :=
  match index 0 s1 s2 with
  | Some _ => true
  | None => false
  end.

(** [str(i)] on an int. *)
Definition py_str (i : Z) : string := NilZero.string_of_int (Z.to_int i).

(** The [names] list that [join_items] builds. *)
Fixpoint item_names (ids : list Z) (id_to_name : Z -> option string) : list string :=
  match ids with
  | [] => []
  | i :: rest =>
      if (i =? 0)%Z then item_names rest id_to_name
      else match id_to_name i with
           | Some name => name :: item_names rest id_to_name
           | None => py_str i :: item_names rest id_to_name
           end
  end.

(** [join_items(ids, id_to_name)] *)
Definition join_items (ids : list Z) (id_to_name : Z -> option string) : string :=
  String.concat " | " (item_names ids id_to_name).

(** [" | ".join(str(i) for i in item_ids if i)], the items column when the
    names are not asked for. *)
Definition raw_items (item_ids : list Z) : string :=
  String.concat " | " (map py_str (filter (fun i => negb (i =? 0)%Z) item_ids)).

(** [riot_id.split("#", 1)] when ["#"] is in [riot_id]; [None] when not. *)
Fixpoint split_hash (riot_id : string) : option (string * string) :=
  match riot_id with
  | EmptyString => None
  | String c rest =>
      if Ascii.eqb c "#"%char then Some (EmptyString, rest)
      else match split_hash rest with
           | Some (game_name, tag_line) => Some (String c game_name, tag_line)
           | None => None
           end
  end.

(** [parse_riot_id(riot_id)] *)
Definition parse_riot_id (riot_id : string) : Outcome (string * string) :=
  match split_hash riot_id with
  | None => Raises ValueError
  | Some (EmptyString, _) => Raises ValueError
  | Some (_, EmptyString) => Raises ValueError
  | Some (game_name, tag_line) => Returned (game_name, tag_line)
  end.

Section Lane.

(** [str.upper] *)
Variable upper : string -> string.

(** The nested [classify(base)], with the [up_rr] it closes over. *)
Definition classify (up_rr base : string) : option string :=
  if String.eqb base "TOP" then Some "TOP"
  else if String.eqb base "JUNGLE" then Some "JUNGLE"
  else if String.eqb base "MIDDLE" || String.eqb base "MID" then Some "MID"
  else if String.eqb base "UTILITY" || String.eqb base "SUPPORT" then Some "SUPPORT"
  else if String.eqb base "BOTTOM" then
    if String.eqb up_rr "DUO_SUPPORT" then Some "SUPPORT"
    else if String.eqb up_rr "DUO_CARRY" then Some "ADC"
    else if py_in "SUPPORT" up_rr then Some "SUPPORT"
    else Some "ADC"
  else None.

(** [classify(s) if s else None] *)
Definition classify_if (up_rr s : string) : option string :=
  match s with
  | EmptyString => None
  | _ => classify up_rr s
  end.

(** [not lane_std] on an optional string. *)
Definition falsy (lane_std : option string) : bool :=
  match lane_std with
  | Some (String _ _) => false
  | _ => true
  end.

(** The nested [derive_lane(tp, lr, rr)] of [extract_row_for_puuid]. *)
Definition derive_lane (tp lr rr : string) : string :=
  let up_tp := upper tp in
  let up_lr := upper lr in
  let up_rr := upper rr in
  let lane_std := classify_if up_rr up_tp in
  let lane_std := if falsy lane_std then classify_if up_rr up_lr else lane_std in
  let lane_std :=
    if falsy lane_std then
      if String.eqb up_rr "DUO_CARRY" then Some "ADC"
      else if String.eqb up_rr "DUO_SUPPORT" then Some "SUPPORT"
      else lane_std
    else lane_std in
  match lane_std with
  | Some (String c rest) => String c rest
  | _ => "UNKNOWN"
  end.

End Lane.

(** How a caller ends: the process exits, or the call completes by
    returning or raising. *)
Inductive Run (A : Type) : Type :=
| Exits (code : Z)
| Done (o : Outcome A).

Arguments Exits {A} code.
Arguments Done {A} o.

Section Callers.

Variable py_float : string -> option Q.

(** [str.lower] *)
Variable lower : string -> string.

(** What [session.request] does for a URL on the [i]-th attempt of a call. *)
Variable net : string -> nat -> HttpOutcome.

Definition platform_base_url (platform : string) : option string :=
  base_or_exit (lower platform) PLATFORMS.

Definition regional_match_base (platform : string) : option string :=
  base_or_exit (lower platform) REGIONAL_MATCH_ROUTING.

Definition regional_account_base (platform : string) : option string :=
  base_or_exit (lower platform) REGIONAL_ACCOUNT_ROUTING.

(** [get_match(session, platform, match_id, api_key)] *)
Definition get_match (fuel : nat) (platform match_id : string)
    (rl : RateLimiter.t) (w : World) : option (Run Json * RateLimiter.t * World) :=
  match regional_match_base platform with
  | None => Some (Exits 1, rl, w)
  | Some base =>
      let url := base ++ "/lol/match/v5/matches/" ++ match_id in
      match Exporter.request_with_backoff py_float (net url) fuel rl w with
      | None => None
      | Some (Raises e, rl', w') => Some (Done (Raises e), rl', w')
      | Some (Returned r, rl', w') =>
          if negb (status_code r =? 200)%Z then Some (Done (Raises RuntimeError), rl', w')
          else match json_body r with
               | None => Some (Done (Raises JSONDecodeError), rl', w')
               | Some payload => Some (Done (Returned payload), rl', w')
               end
      end
  end.

(** [get_timeline(session, platform, match_id, api_key)]: [except Exception]
    turns every raise into [None], and does not catch the exit. *)
Definition get_timeline (fuel : nat) (platform match_id : string)
    (rl : RateLimiter.t) (w : World) : option (Run Json * RateLimiter.t * World) :=
  match regional_match_base platform with
  | None => Some (Exits 1, rl, w)
  | Some base =>
      let url := base ++ "/lol/match/v5/matches/" ++ match_id ++ "/timeline" in
      match Exporter.request_with_backoff py_float (net url) fuel rl w with
      | None => None
      | Some (Raises e, rl', w') => Some (Done (Returned JNull), rl', w')
      | Some (Returned r, rl', w') =>
          if negb (status_code r =? 200)%Z then Some (Done (Returned JNull), rl', w')
          else match json_body r with
               | None => Some (Done (Returned JNull), rl', w')
               | Some payload => Some (Done (Returned payload), rl', w')
               end
      end
  end.

(** [optional_summoner_profile(session, platform, puuid, api_key)]: the
    same shape, with [{}] for every failure. *)
Definition optional_summoner_profile (fuel : nat) (platform puuid : string)
    (rl : RateLimiter.t) (w : World) : option (Run Json * RateLimiter.t * World) :=
  match platform_base_url platform with
  | None => Some (Exits 1, rl, w)
  | Some base =>
      let url := base ++ "/lol/summoner/v4/summoners/by-puuid/" ++ puuid in
      match Exporter.request_with_backoff py_float (net url) fuel rl w with
      | None => None
      | Some (Raises e, rl', w') => Some (Done (Returned (JObj JNoField)), rl', w')
      | Some (Returned r, rl', w') =>
          if negb (status_code r =? 200)%Z then Some (Done (Returned (JObj JNoField)), rl', w')
          else match json_body r with
               | None => Some (Done (Returned (JObj JNoField)), rl', w')
               | Some payload => Some (Done (Returned payload), rl', w')
               end
      end
  end.

End Callers.

(** *** [get_match_ids] *)

(** The query parameters of one [fetch_batch] call. *)
Record BatchParams : Type := mkBatchParams {
  p_start : Z;
  p_count : Z;
  p_queue : option Z;
  p_startTime : option Z;
  p_endTime : option Z
}.

(** [params["start"] = start_idx; params["count"] = count] *)
Definition with_start_count (start_idx count : Z) (params : BatchParams) : BatchParams :=
  {| p_start := start_idx; p_count := count; p_queue := p_queue params;
     p_startTime := p_startTime params; p_endTime := p_endTime params |}.

(** [params["queue"] = q] *)
Definition with_queue (q : Z) (params : BatchParams) : BatchParams :=
  {| p_start := p_start params; p_count := p_count params; p_queue := Some q;
     p_startTime := p_startTime params; p_endTime := p_endTime params |}.

(** [if start_time: ...]: an int that is neither [None] nor 0. *)
Definition if_truthy (t : option Z) : option Z :=
  match t with
  | Some 0%Z => None
  | _ => t
  end.

(** [list(dict.fromkeys(match_ids))]: the first occurrences, in order;
    [seen] are the keys already in the dict. *)
Fixpoint fromkeys (seen match_ids : list string) : list string :=
  match match_ids with
  | [] => []
  | m :: rest =>
      if existsb (String.eqb m) seen then fromkeys seen rest
      else m :: fromkeys (m :: seen) rest
  end.

(** [match_ids[:count]] *)
Definition slice_to (count : Z) (match_ids : list string) : list string :=
  if (0 <=? count)%Z then firstn (Z.to_nat count) match_ids
  else firstn (length match_ids - Z.to_nat (- count)) match_ids.

Section MatchIds.

Local Open Scope list_scope.

(** [str.lower] *)
Variable lower : string -> string.

(** The nested [fetch_batch(extra_params)] against a server whose 200
    answers decode to lists of match ids: what the call returns or raises,
    given the number of calls made before it in this run. *)
Variable fetch_batch : nat -> BatchParams -> Outcome (list string).

(** The [while remaining > 0] loop of the branch for no queue or one queue.
    Beside the result, the parameters of the calls made, in order. *)
Fixpoint page_loop (fuel : nat) (params : BatchParams) (start_idx remaining : Z)
    (match_ids : list string) (requests : list BatchParams)
  : option (Outcome (list string) * list BatchParams) :=
  match fuel with
  | O => None
  | S fuel' =>
      if negb (0 <? remaining)%Z then Some (Returned match_ids, requests)
      else
        let params := with_start_count start_idx (Z.min remaining 100) params in
        match fetch_batch (length requests) params with
        | Raises e => Some (Raises e, requests ++ [params])
        | Returned [] => Some (Returned match_ids, requests ++ [params])
        | Returned batch =>
            let n := Z.of_nat (length batch) in
            if (n <? p_count params)%Z
            then Some (Returned (match_ids ++ batch), requests ++ [params])
            else page_loop fuel' params (start_idx + n) (remaining - n)
                   (match_ids ++ batch) (requests ++ [params])
        end
  end.

(** The [while True] loop run for one queue, on that queue's
    [local_params]; it hands back [match_ids] and [remaining]. *)
Fixpoint queue_loop (fuel : nat) (local_params : BatchParams) (remaining : Z)
    (match_ids : list string) (requests : list BatchParams)
  : option (Outcome (list string * Z) * list BatchParams) :=
  match fuel with
  | O => None
  | S fuel' =>
      let local_params :=
        with_start_count (p_start local_params) (Z.min remaining 100) local_params in
      if (p_count local_params <=? 0)%Z then Some (Returned (match_ids, remaining), requests)
      else
        match fetch_batch (length requests) local_params with
        | Raises e => Some (Raises e, requests ++ [local_params])
        | Returned [] => Some (Returned (match_ids, remaining), requests ++ [local_params])
        | Returned batch =>
            let n := Z.of_nat (length batch) in
            if (n <? p_count local_params)%Z
            then Some (Returned (match_ids ++ batch, (remaining - n)%Z),
                       requests ++ [local_params])
            else queue_loop fuel'
                   (with_start_count (p_start local_params + n) (p_count local_params)
                      local_params)
                   (remaining - n) (match_ids ++ batch) (requests ++ [local_params])
        end
  end.

(** The [for q in queues] loop of the branch for several queues. *)
Fixpoint queues_loop (fuel : nat) (params : BatchParams) (queues : list Z) (remaining : Z)
    (match_ids : list string) (requests : list BatchParams)
  : option (Outcome (list string) * list BatchParams) :=
  match queues with
  | [] => Some (Returned match_ids, requests)
  | q :: rest =>
      let local_params := with_start_count 0 (p_count params) (with_queue q params) in
      match queue_loop fuel local_params remaining match_ids requests with
      | None => None
      | Some (Raises e, requests') => Some (Raises e, requests')
      | Some (Returned (match_ids', remaining'), requests') =>
          if (remaining' <=? 0)%Z then Some (Returned match_ids', requests')
          else queues_loop fuel params rest remaining' match_ids' requests'
      end
  end.

(** [get_match_ids(session, platform, puuid, api_key, count, queues,
    start_time, end_time)] *)
Definition get_match_ids (fuel : nat) (platform : string) (count : Z)
    (queues : option (list Z)) (start_time end_time : option Z)
  : option (Run (list string) * list BatchParams) :=
  match regional_match_base lower platform with
  | None => Some (Exits 1, [])
  | Some _ =>
      let params := {| p_start := 0; p_count := Z.min count 100; p_queue := None;
                       p_startTime := if_truthy start_time;
                       p_endTime := if_truthy end_time |} in
      let paged :=
        match queues with
        | Some (q1 :: q2 :: rest) => queues_loop fuel params (q1 :: q2 :: rest) count [] []
        | Some [q] => page_loop fuel (with_queue q params) 0 count [] []
        | _ => page_loop fuel params 0 count [] []
        end in
      match paged with
      | None => None
      | Some (Raises e, requests) => Some (Done (Raises e), requests)
      | Some (Returned match_ids, requests) =>
          Some (Done (Returned (slice_to count (fromkeys [] match_ids))), requests)
      end
  end.

End MatchIds.

(** *** [get_puuid_from_riotid] *)

(** How [get_puuid_from_riotid] ends: beside the exit and the exceptions of
    the client, the [TypeError] of [data["puuid"]] on a payload that is not
    a dict. *)
Inductive PuuidRun : Type :=
| PuuidExits (code : Z)
| PuuidRaises (e : Exn)
| PuuidTypeError
| PuuidReturns (puuid : Json).

(** [d.get(key)] on a decoded object; a key given twice has its last value. *)
Fixpoint fields_get (key : string) (fields : JsonFields) : option Json :=
  match fields with
  | JNoField => None
  | JField name value rest =>
      match fields_get key rest with
      | Some v => Some v
      | None => if String.eqb name key then Some value else None
      end
  end.

(** [if s] on an optional string. *)
Definition truthy_str (s : option string) : bool :=
  match s with
  | Some (String _ _) => true
  | _ => false
  end.

Section Puuid.

Variable py_float : string -> option Q.

(** [str.lower] *)
Variable lower : string -> string.

(** What [session.request] does for a URL on the [i]-th attempt of a call. *)
Variable net : string -> nat -> HttpOutcome.

(** [urllib.parse.quote] *)
Variable quote : string -> string.

(** The first two [if]s: the names the lookup goes on with. *)
Definition names_to_look_up (riot_id game_name tag_line : option string)
  : Outcome (string * string) :=
  let parsed :=
    match riot_id with
    | Some (String c rest) =>
        match parse_riot_id (String c rest) with
        | Returned (g, t) => Returned (Some g, Some t)
        | Raises e => Raises e
        end
    | _ => Returned (game_name, tag_line)
    end in
  match parsed with
  | Raises e => Raises e
  | Returned (Some (String c1 g), Some (String c2 t)) => Returned (String c1 g, String c2 t)
  | Returned _ => Raises RuntimeError
  end.

(** [get_puuid_from_riotid(session, platform, riot_id, game_name, tag_line,
    api_key)] *)
Definition get_puuid_from_riotid (fuel : nat) (platform : string)
    (riot_id game_name tag_line : option string) (rl : RateLimiter.t) (w : World)
  : option (PuuidRun * RateLimiter.t * World) :=
  match names_to_look_up riot_id game_name tag_line with
  | Raises e => Some (PuuidRaises e, rl, w)
  | Returned (game_name, tag_line) =>
      match regional_account_base lower platform with
      | None => Some (PuuidExits 1, rl, w)
      | Some base =>
          let url := base ++ "/riot/account/v1/accounts/by-riot-id/"
                          ++ quote game_name ++ "/" ++ quote tag_line in
          match Exporter.request_with_backoff py_float (net url) fuel rl w with
          | None => None
          | Some (Raises e, rl', w') => Some (PuuidRaises e, rl', w')
          | Some (Returned r, rl', w') =>
              if negb (status_code r =? 200)%Z then Some (PuuidRaises RuntimeError, rl', w')
              else match json_body r with
                   | None => Some (PuuidRaises JSONDecodeError, rl', w')
                   | Some (JObj fields) =>
                       match fields_get "puuid" fields with
                       | Some puuid => Some (PuuidReturns puuid, rl', w')
                       | None => Some (PuuidRaises KeyError, rl', w')
                       end
                   | Some _ => Some (PuuidTypeError, rl', w')
                   end
          end
      end
  end.

End Puuid.

(** *** [load_queue_map] *)

(** A queue map: queue ids and their names, in insertion order.  The names
    taken from the downloaded file are whatever JSON values it holds. *)
Definition QueueMap : Type := list (Z * Json).

Definition QUEUE_MAP_BASE : QueueMap :=
  [(400%Z, JStr "Draft Normal");
   (420%Z, JStr "Ranked Solo/Duo");
   (430%Z, JStr "Blind Normal");
   (440%Z, JStr "Ranked Flex");
   (450%Z, JStr "ARAM");
   (700%Z, JStr "Clash");
   (490%Z, JStr "Quickplay")].

(** [mapping.get(qid)] *)
Fixpoint qm_get (qid : Z) (mapping : QueueMap) : option Json :=
  match mapping with
  | [] => None
  | (k, v) :: rest => if (k =? qid)%Z then Some v else qm_get qid rest
  end.

(** [mapping[qid] = desc] *)
Fixpoint qm_set (qid : Z) (desc : Json) (mapping : QueueMap) : QueueMap :=
  match mapping with
  | [] => [(qid, desc)]
  | (k, v) :: rest =>
      if (k =? qid)%Z then (k, desc) :: rest else (k, v) :: qm_set qid desc rest
  end.

(** [mapping.update(other)] *)
Definition qm_update (mapping other : QueueMap) : QueueMap :=
  fold_left (fun m kv => qm_set (fst kv) (snd kv) m) other mapping.

(** Truth value of a decoded JSON value. *)
Definition json_truthy (v : Json) : bool :=
  match v with
  | JNull => false
  | JBool b => b
  | JNum n => negb (n =? 0)%Z
  | JStr EmptyString => false
  | JStr _ => true
  | JArr JNil => false
  | JArr _ => true
  | JObj JNoField => false
  | JObj _ => true
  end.

(** [a or b] *)
Definition py_or (a b : Json) : Json := if json_truthy a then a else b.

(** [entry.get(key)], [None] when the key is missing. *)
Definition entry_get (key : string) (fields : JsonFields) : Json :=
  match fields_get key fields with
  | Some v => v
  | None => JNull
  end.

(** The body of [for entry in qdata] for one entry that is a dict: the
    queue id is kept when it is an int ([True] and [False] are the ints 1
    and 0, printed as they are). *)
Definition add_entry (fields : JsonFields) (mapping : QueueMap) : QueueMap :=
  let described (fallback : string) :=
    py_or (entry_get "description" fields) (py_or (entry_get "map" fields) (JStr fallback)) in
  match entry_get "queueId" fields with
  | JNum qid => qm_set qid (described (py_str qid)) mapping
  | JBool true => qm_set 1 (described "True") mapping
  | JBool false => qm_set 0 (described "False") mapping
  | _ => mapping
  end.

(** The [for entry in qdata] loop over a decoded list; [None] when an entry
    is not a dict and [entry.get] raises. *)
Fixpoint add_entries (qdata : JsonItems) (mapping : QueueMap) : option QueueMap :=
  match qdata with
  | JNil => Some mapping
  | JCons (JObj fields) rest => add_entries rest (add_entry fields mapping)
  | JCons _ _ => None
  end.

(** The [try] block on the decoded file: [None] is any exception.  A dict
    iterates over its keys and a string over its characters, which have no
    [get]; the other values do not iterate at all. *)
Definition queue_map_of (qdata : Json) : option QueueMap :=
  match qdata with
  | JArr items =>
      match add_entries items [] with
      | Some mapping => Some (qm_update mapping QUEUE_MAP_BASE)
      | None => None
      end
  | JObj JNoField => Some (qm_update [] QUEUE_MAP_BASE)
  | JStr EmptyString => Some (qm_update [] QUEUE_MAP_BASE)
  | _ => None
  end.

(** [load_queue_map()], with the global [_DYNAMIC_QUEUE_MAP] passed in and
    out; [download] is what [requests.get(...)] followed by [r.json()]
    gives if it is called, and the call is counted among the HTTP calls. *)
Definition load_queue_map (download : Outcome Json) (_DYNAMIC_QUEUE_MAP : option QueueMap)
    (w : World) : QueueMap * option QueueMap * World :=
  match _DYNAMIC_QUEUE_MAP with
  | Some mapping => (mapping, _DYNAMIC_QUEUE_MAP, w)
  | None =>
      let mapping :=
        match download with
        | Raises _ => QUEUE_MAP_BASE
        | Returned qdata =>
            match queue_map_of qdata with
            | Some mapping => mapping
            | None => QUEUE_MAP_BASE
            end
        end in
      (mapping, Some mapping, issue_request w)
  end.

End MatchExporter.

(** * Properties *)

(** ** Comparisons and truncation *)

Lemma Qlt_bool_iff (x y : Q) : Qlt_bool x y = true <-> x < y.
Proof.
  unfold Qlt_bool. rewrite negb_true_iff.
  split; intro H.
  - apply Qnot_le_lt. intro Hle. apply Qle_bool_iff in Hle. congruence.
  - destruct (Qle_bool y x) eqn:E; [|reflexivity].
    apply Qle_bool_iff in E. lra.
Qed.

Lemma Qlt_bool_false_iff (x y : Q) : Qlt_bool x y = false <-> y <= x.
Proof.
  unfold Qlt_bool. rewrite negb_false_iff. apply Qle_bool_iff.
Qed.

Lemma Qle_bool_false_iff (x y : Q) : Qle_bool x y = false <-> y < x.
Proof.
  rewrite <- Qlt_bool_iff. unfold Qlt_bool.
  destruct (Qle_bool x y); simpl; intuition congruence.
Qed.

Lemma inject_Z_nonneg (z : Z) : (0 <= z)%Z -> 0 <= inject_Z z.
Proof. intro H. unfold Qle. simpl. lia. Qed.

Lemma inject_Z_pos (z : Z) : (0 < z)%Z -> 0 < inject_Z z.
Proof. intro H. unfold Qlt. simpl. lia. Qed.

Lemma py_int_nonneg (x : Q) : 0 <= x -> py_int x = Qfloor x.
Proof.
  destruct x as [n d]. unfold py_int, Qfloor, Qle. simpl. intro H.
  apply Z.quot_div_nonneg; lia.
Qed.

Lemma py_int_nonpos (x : Q) : x <= 0 -> (py_int x <= 0)%Z.
Proof.
  destruct x as [n d]. unfold py_int, Qle. simpl. intro H.
  assert (Hn : (n <= 0)%Z) by lia.
  rewrite <- (Z.opp_involutive n), Z.quot_opp_l by lia.
  assert (0 <= Z.quot (- n) (Z.pos d))%Z by (apply Z.quot_pos; lia).
  lia.
Qed.

(** Truncation never goes above a non-negative integer bound. *)
Lemma py_int_le_bound (x : Q) (b : Z) : (0 <= b)%Z -> x <= inject_Z b -> (py_int x <= b)%Z.
Proof.
  intros Hb Hx.
  destruct (Qlt_le_dec x 0) as [Hneg|Hpos].
  - assert (py_int x <= 0)%Z by (apply py_int_nonpos; lra). lia.
  - rewrite py_int_nonneg by assumption.
    rewrite <- (Qfloor_Z b). apply Qfloor_resp_le. assumption.
Qed.

Lemma py_int_ge_0 (x : Q) : 0 <= x -> (0 <= py_int x)%Z.
Proof.
  intro H. rewrite py_int_nonneg by assumption.
  change 0%Z with (Qfloor 0). apply Qfloor_resp_le. assumption.
Qed.

(** ** Sliding windows *)

Lemma purge_length (t_now window : Q) (dq : list Q) :
  (length (purge t_now window dq) <= length dq)%nat.
Proof.
  induction dq as [|t0 rest IH]; simpl; [lia|].
  destruct (Qle_bool window (t_now - t0)); simpl; lia.
Qed.

(** The stamps of [grants] still inside the window at clock [t_now]. *)
Definition live (t_now window : Q) (grants : list Q) : list Q :=
  filter (fun g => Qlt_bool (t_now - g) window) grants.

Lemma purge_live (t_now window : Q) (dq : list Q) :
  StronglySorted Qle dq -> purge t_now window dq = live t_now window dq.
Proof.
  induction 1 as [|t0 rest Hs IH Hall]; simpl; [reflexivity|].
  unfold Qlt_bool at 1.
  destruct (Qle_bool window (t_now - t0)) eqn:E; simpl.
  - exact IH.
  - f_equal. symmetry. apply Qle_bool_false_iff in E.
    unfold live. apply forallb_filter_id. apply forallb_forall.
    intros g Hg. rewrite Forall_forall in Hall. specialize (Hall g Hg).
    apply Qlt_bool_iff. lra.
Qed.

Lemma live_sorted (t_now window : Q) (gs : list Q) :
  StronglySorted Qle gs -> StronglySorted Qle (live t_now window gs).
Proof.
  induction 1 as [|g rest Hs IH Hall]; simpl; [constructor|].
  destruct (Qlt_bool (t_now - g) window); [|exact IH].
  constructor; [exact IH|].
  rewrite Forall_forall in *. intros x Hx.
  apply filter_In in Hx. apply Hall. tauto.
Qed.

Lemma live_live (t1 t2 window : Q) (gs : list Q) :
  t1 <= t2 -> live t2 window (live t1 window gs) = live t2 window gs.
Proof.
  intro Hle. unfold live. induction gs as [|g rest IH]; simpl; [reflexivity|].
  destruct (Qlt_bool (t1 - g) window) eqn:E1; simpl.
  - rewrite IH. reflexivity.
  - rewrite IH. destruct (Qlt_bool (t2 - g) window) eqn:E2; [|reflexivity].
    apply Qlt_bool_iff in E2. apply Qlt_bool_false_iff in E1. lra.
Qed.

(** What a deque holds after a check at clock [last]: the granted stamps
    still inside the window, all of them at or before [last]. *)
Record window_inv (last window : Q) (dq grants : list Q) : Prop := {
  inv_sorted : StronglySorted Qle grants;
  inv_past : Forall (fun g => g <= last) grants;
  inv_live : dq = live last window grants
}.

Lemma window_inv_nil (last window : Q) : window_inv last window [] [].
Proof. split; [constructor|constructor|reflexivity]. Qed.

Lemma window_inv_purge (last t_now window : Q) (dq grants : list Q) :
  last <= t_now ->
  window_inv last window dq grants ->
  window_inv t_now window (purge t_now window dq) grants.
Proof.
  intros Hle [Hs Hp Hl]. split.
  - exact Hs.
  - rewrite Forall_forall in *. intros g Hg. specialize (Hp g Hg). lra.
  - subst dq. rewrite purge_live by (apply live_sorted; exact Hs).
    apply live_live. exact Hle.
Qed.

Lemma sorted_snoc (gs : list Q) (t_now : Q) :
  StronglySorted Qle gs -> Forall (fun g => g <= t_now) gs ->
  StronglySorted Qle (gs ++ [t_now]).
Proof.
  induction 1 as [|g rest Hs IH Hall]; intro Hp; simpl.
  - constructor; constructor.
  - inversion Hp; subst. constructor; [apply IH; assumption|].
    apply Forall_app. split; [exact Hall|]. constructor; [assumption|constructor].
Qed.

Lemma window_inv_grant (t_now window : Q) (dq grants : list Q) :
  0 < window ->
  window_inv t_now window dq grants ->
  window_inv t_now window (dq ++ [t_now]) (grants ++ [t_now]).
Proof.
  intros Hw [Hs Hp Hl]. split.
  - apply sorted_snoc; assumption.
  - apply Forall_app. split; [exact Hp|]. constructor; [lra|constructor].
  - subst dq. unfold live. rewrite filter_app. simpl.
    assert (E : Qlt_bool (t_now - t_now) window = true) by (apply Qlt_bool_iff; lra).
    rewrite E. reflexivity.
Qed.

Lemma filter_length_impl {A : Type} (p q : A -> bool) (l : list A) :
  (forall x, In x l -> p x = true -> q x = true) ->
  (length (filter p l) <= length (filter q l))%nat.
Proof.
  induction l as [|a l IH]; simpl; intro H; [lia|].
  assert (IH' : (length (filter p l) <= length (filter q l))%nat)
    by (apply IH; intros x Hx; apply H; right; exact Hx).
  destruct (p a) eqn:Ep.
  - rewrite (H a (or_introl eq_refl) Ep). simpl. lia.
  - destruct (q a); simpl; lia.
Qed.

Lemma count_window_app (T window : Q) (gs hs : list Q) :
  count_window T window (gs ++ hs) = (count_window T window gs + count_window T window hs)%nat.
Proof. unfold count_window. rewrite filter_app, length_app. reflexivity. Qed.

(** An empty or negative window holds no stamp. *)
Lemma count_window_degenerate (T window : Q) (gs : list Q) :
  window <= 0 -> count_window T window gs = 0%nat.
Proof.
  intro Hw. unfold count_window. induction gs as [|g rest IH]; simpl; [reflexivity|].
  destruct (Qlt_bool (T - window) g) eqn:E1; simpl; [|exact IH].
  destruct (Qle_bool g T) eqn:E2; simpl; [|exact IH].
  apply Qlt_bool_iff in E1. apply Qle_bool_iff in E2. lra.
Qed.

(** Granting a check that found fewer than [bound] live stamps keeps every
    trailing window at or under [bound]. *)
Lemma count_window_grant (t_now window : Q) (bound : Z) (dq grants : list Q) :
  window_inv t_now window dq grants ->
  (Z.of_nat (length dq) < bound)%Z ->
  (forall T, (Z.of_nat (count_window T window grants) <= bound)%Z) ->
  forall T, (Z.of_nat (count_window T window (grants ++ [t_now])) <= bound)%Z.
Proof.
  intros [Hs Hp Hl] Hroom Hold T.
  rewrite count_window_app.
  destruct (Qlt_le_dec T t_now) as [Hbefore|Hafter].
  - assert (E : count_window T window [t_now] = 0%nat).
    { unfold count_window. simpl.
      assert (E : Qle_bool t_now T = false) by (apply Qle_bool_false_iff; exact Hbefore).
      rewrite E, andb_false_r. reflexivity. }
    rewrite E, Nat.add_0_r. apply Hold.
  - assert (Hc : (count_window T window grants <= length dq)%nat).
    { subst dq. unfold count_window, live. apply filter_length_impl.
      intros g Hg Hin. apply andb_true_iff in Hin. destruct Hin as [H1 H2].
      apply Qlt_bool_iff in H1. apply Qlt_bool_iff. lra. }
    assert (H1 : (count_window T window [t_now] <= 1)%nat).
    { unfold count_window. simpl.
      destruct (Qlt_bool (T - window) t_now && Qle_bool t_now T); simpl; lia. }
    lia.
Qed.

(** A window whose deque and grant history agree, and whose trailing counts
    stay at or under [bound]; a window of no length has nothing to track. *)
Definition tracked (last window : Q) (bound : Z) (dq grants : list Q) : Prop :=
  window <= 0 \/
  (window_inv last window dq grants /\
   forall T, (Z.of_nat (count_window T window grants) <= bound)%Z).

Lemma tracked_nil (last window : Q) (bound : Z) :
  (0 <= bound)%Z -> tracked last window bound [] [].
Proof.
  intro Hb. right. split; [apply window_inv_nil|].
  intro T. unfold count_window. simpl. exact Hb.
Qed.

Lemma tracked_purge (last t_now window : Q) (bound : Z) (dq grants : list Q) :
  last <= t_now ->
  tracked last window bound dq grants ->
  tracked t_now window bound (purge t_now window dq) grants.
Proof.
  intros Hle [Hw|[Hinv Hc]]; [left; exact Hw|right].
  split; [eapply window_inv_purge; eassumption|exact Hc].
Qed.

Lemma tracked_grant (t_now window : Q) (bound : Z) (dq grants : list Q) :
  (Z.of_nat (length dq) < bound)%Z ->
  tracked t_now window bound dq grants ->
  tracked t_now window bound (dq ++ [t_now]) (grants ++ [t_now]).
Proof.
  intros Hroom [Hw|[Hinv Hc]]; [left; exact Hw|].
  destruct (Qlt_le_dec 0 window) as [Hpos|Hneg]; [right|left; exact Hneg].
  split; [apply window_inv_grant; assumption|].
  eapply count_window_grant; eassumption.
Qed.

Lemma tracked_weaken (last window : Q) (b1 b2 : Z) (dq grants : list Q) :
  (b1 <= b2)%Z -> tracked last window b1 dq grants -> tracked last window b2 dq grants.
Proof.
  intros Hb [Hw|[Hinv Hc]]; [left; exact Hw|right].
  split; [exact Hinv|]. intro T. specialize (Hc T). lia.
Qed.

Lemma tracked_count (last window : Q) (bound : Z) (dq grants : list Q) :
  (0 <= bound)%Z ->
  tracked last window bound dq grants ->
  forall T, (Z.of_nat (count_window T window grants) <= bound)%Z.
Proof.
  intros Hb [Hw|[_ Hc]] T; [|apply Hc].
  rewrite count_window_degenerate by exact Hw. exact Hb.
Qed.

(** ** [RateLimiter]: the window invariant *)

Lemma simple_attempt_config (t_now : Q) (s : RateLimiter.t) :
  RateLimiter.short_max (fst (RateLimiter.attempt t_now s)) = RateLimiter.short_max s /\
  RateLimiter.short_window (fst (RateLimiter.attempt t_now s)) = RateLimiter.short_window s /\
  RateLimiter.long_max (fst (RateLimiter.attempt t_now s)) = RateLimiter.long_max s /\
  RateLimiter.long_window (fst (RateLimiter.attempt t_now s)) = RateLimiter.long_window s.
Proof.
  unfold RateLimiter.attempt.
  destruct (_ && _); simpl; repeat split; reflexivity.
Qed.

Lemma simple_attempt_tracked (last t_now : Q) (s : RateLimiter.t) (past : list Q) :
  last <= t_now ->
  tracked last (RateLimiter.short_window s) (RateLimiter.short_max s)
    (RateLimiter._short s) past ->
  tracked last (RateLimiter.long_window s) (RateLimiter.long_max s)
    (RateLimiter._long s) past ->
  let s' := fst (RateLimiter.attempt t_now s) in
  let past' := match snd (RateLimiter.attempt t_now s) with
               | Granted => past ++ [t_now]
               | Wait _ => past
               end in
  tracked t_now (RateLimiter.short_window s) (RateLimiter.short_max s)
    (RateLimiter._short s') past' /\
  tracked t_now (RateLimiter.long_window s) (RateLimiter.long_max s)
    (RateLimiter._long s') past'.
Proof.
  intros Hle Hs Hl.
  apply (tracked_purge _ t_now) in Hs; [|exact Hle].
  apply (tracked_purge _ t_now) in Hl; [|exact Hle].
  unfold RateLimiter.attempt.
  destruct (Z.of_nat (length (purge t_now (RateLimiter.short_window s) (RateLimiter._short s)))
            <? RateLimiter.short_max s)%Z eqn:Es;
  destruct (Z.of_nat (length (purge t_now (RateLimiter.long_window s) (RateLimiter._long s)))
            <? RateLimiter.long_max s)%Z eqn:El; simpl; try (split; assumption).
  apply Z.ltb_lt in Es. apply Z.ltb_lt in El.
  split; apply tracked_grant; assumption.
Qed.

Lemma simple_run_tracked (ts : list Q) :
  forall (last : Q) (s : RateLimiter.t) (past : list Q),
    Forall (fun t_now => last <= t_now) ts ->
    StronglySorted Qle ts ->
    tracked last (RateLimiter.short_window s) (RateLimiter.short_max s)
      (RateLimiter._short s) past ->
    tracked last (RateLimiter.long_window s) (RateLimiter.long_max s)
      (RateLimiter._long s) past ->
    exists last',
      tracked last' (RateLimiter.short_window s) (RateLimiter.short_max s)
        (RateLimiter._short (fst (RateLimiter.run ts s)))
        (past ++ snd (RateLimiter.run ts s)) /\
      tracked last' (RateLimiter.long_window s) (RateLimiter.long_max s)
        (RateLimiter._long (fst (RateLimiter.run ts s)))
        (past ++ snd (RateLimiter.run ts s)).
Proof.
  induction ts as [|t_now ts IH]; intros last s past Hall Hsorted Hs Hl.
  - exists last. simpl. rewrite app_nil_r. split; assumption.
  - inversion Hall as [|? ? Hle Hall']; subst.
    inversion Hsorted as [|? ? Hsorted' Hnext]; subst.
    destruct (simple_attempt_tracked last t_now s past Hle Hs Hl) as [Hs' Hl'].
    destruct (simple_attempt_config t_now s) as (C1 & C2 & C3 & C4).
    simpl. destruct (RateLimiter.attempt t_now s) as [s' v]. simpl in *.
    rewrite <- C1, <- C2 in Hs' |- *. rewrite <- C3, <- C4 in Hl' |- *.
    destruct v.
    + specialize (IH t_now s' (past ++ [t_now]) Hnext Hsorted' Hs' Hl').
      destruct (RateLimiter.run ts s') as [s'' gs]. simpl in *.
      rewrite <- app_assoc in IH. exact IH.
    + exact (IH t_now s' past Hnext Hsorted' Hs' Hl').
Qed.

(** ** [AdaptiveRateLimiter]: multiplier and effective limits *)

Lemma adapt_ge_1 (c : Z) (m : Q) : 1 <= AdaptiveRateLimiter.adapt c m.
Proof.
  unfold AdaptiveRateLimiter.adapt.
  destruct (0 <? c)%Z eqn:E.
  - apply Z.ltb_lt in E.
    assert (Hc : 0 < inject_Z c) by (apply inject_Z_pos; exact E).
    apply Q.min_glb; lra.
  - apply Q.le_max_l.
Qed.

Lemma adapt_le_2 (c : Z) (m : Q) : m <= 2 -> AdaptiveRateLimiter.adapt c m <= 2.
Proof.
  intro Hm. unfold AdaptiveRateLimiter.adapt.
  destruct (0 <? c)%Z.
  - apply Q.le_min_l.
  - apply Q.max_lub; lra.
Qed.

Lemma shrink_by_multiplier (limit : Z) (m : Q) :
  (0 <= limit)%Z -> 1 <= m ->
  0 <= inject_Z limit / m /\ inject_Z limit / m <= inject_Z limit.
Proof.
  intros Hl Hm.
  assert (Hq : 0 <= inject_Z limit) by (apply inject_Z_nonneg; exact Hl).
  split.
  - apply Qle_shift_div_l; lra.
  - apply Qle_shift_div_r; [lra|]. nra.
Qed.

Lemma effective_long_le (s : AdaptiveRateLimiter.t) (m : Q) :
  (0 <= AdaptiveRateLimiter.long_limit s)%Z -> 1 <= m ->
  (AdaptiveRateLimiter.effective_long s m <= AdaptiveRateLimiter.long_limit s)%Z.
Proof.
  intros Hl Hm. unfold AdaptiveRateLimiter.effective_long.
  apply py_int_le_bound; [exact Hl|]. apply shrink_by_multiplier; assumption.
Qed.

(** The most the short window admits over all priorities. *)
Definition burst_bound (s : AdaptiveRateLimiter.t) : Z :=
  Z.max (AdaptiveRateLimiter.short_limit s)
    (py_int (inject_Z (AdaptiveRateLimiter.short_limit s)
             * (1 + AdaptiveRateLimiter.burst_allowance s))).

(** The bound on the short window: the plain limit when no check is at
    [HIGH] priority, the burst bound when some may be. *)
Definition short_bound (with_high : bool) (s : AdaptiveRateLimiter.t) : Z :=
  if with_high then burst_bound s else AdaptiveRateLimiter.short_limit s.

Definition priority_allowed (with_high : bool) (p : Priority) : bool :=
  with_high || negb (is_HIGH p).

Definition event_allowed (with_high : bool) (e : AdaptiveRateLimiter.Event) : bool :=
  match e with
  | AdaptiveRateLimiter.Attempt _ p => priority_allowed with_high p
  | _ => true
  end.

Lemma effective_short_le (with_high : bool) (s : AdaptiveRateLimiter.t) (m : Q) (p : Priority) :
  (0 <= AdaptiveRateLimiter.short_limit s)%Z -> 1 <= m ->
  priority_allowed with_high p = true ->
  (AdaptiveRateLimiter.effective_short s m p <= short_bound with_high s)%Z.
Proof.
  intros Hl Hm Hp.
  destruct (shrink_by_multiplier _ m Hl Hm) as [H0 H1].
  assert (He : (py_int (inject_Z (AdaptiveRateLimiter.short_limit s) / m)
                <= AdaptiveRateLimiter.short_limit s)%Z)
    by (apply py_int_le_bound; assumption).
  assert (He0 : (0 <= py_int (inject_Z (AdaptiveRateLimiter.short_limit s) / m))%Z)
    by (apply py_int_ge_0; assumption).
  assert (Hplain : (AdaptiveRateLimiter.short_limit s <= short_bound with_high s)%Z).
  { unfold short_bound, burst_bound. destruct with_high; lia. }
  unfold AdaptiveRateLimiter.effective_short.
  destruct (is_HIGH p) eqn:Eh; [|lia].
  destruct with_high; [|unfold priority_allowed in Hp; rewrite Eh in Hp; discriminate].
  unfold short_bound, burst_bound.
  set (e := py_int (inject_Z (AdaptiveRateLimiter.short_limit s) / m)) in *.
  assert (Hq : inject_Z e <= inject_Z (AdaptiveRateLimiter.short_limit s))
    by (rewrite <- Zle_Qle; exact He).
  assert (Hq0 : 0 <= inject_Z e) by (apply inject_Z_nonneg; exact He0).
  destruct (Qlt_le_dec (1 + AdaptiveRateLimiter.burst_allowance s) 0) as [Hneg|Hpos].
  - assert (py_int (inject_Z e * (1 + AdaptiveRateLimiter.burst_allowance s)) <= 0)%Z
      by (apply py_int_nonpos; nra).
    lia.
  - rewrite !py_int_nonneg by nra.
    etransitivity; [|apply Z.le_max_r].
    apply Qfloor_resp_le. nra.
Qed.

(** ** [AdaptiveRateLimiter]: the window invariant *)

Definition config (s : AdaptiveRateLimiter.t) : Z * Q * Z * Q * Q :=
  (AdaptiveRateLimiter.short_limit s, AdaptiveRateLimiter.short_window s,
   AdaptiveRateLimiter.long_limit s, AdaptiveRateLimiter.long_window s,
   AdaptiveRateLimiter.burst_allowance s).

Lemma config_fields (s s' : AdaptiveRateLimiter.t) :
  config s' = config s ->
  AdaptiveRateLimiter.short_limit s' = AdaptiveRateLimiter.short_limit s /\
  AdaptiveRateLimiter.short_window s' = AdaptiveRateLimiter.short_window s /\
  AdaptiveRateLimiter.long_limit s' = AdaptiveRateLimiter.long_limit s /\
  AdaptiveRateLimiter.long_window s' = AdaptiveRateLimiter.long_window s /\
  short_bound true s' = short_bound true s /\
  short_bound false s' = short_bound false s.
Proof.
  unfold config, short_bound, burst_bound. intro H. injection H as -> -> -> -> ->.
  repeat split; reflexivity.
Qed.

Lemma adaptive_attempt_config (t_now : Q) (p : Priority) (s : AdaptiveRateLimiter.t) :
  config (fst (AdaptiveRateLimiter.attempt t_now p s)) = config s.
Proof.
  unfold AdaptiveRateLimiter.attempt. destruct (_ && _); reflexivity.
Qed.

Lemma report_429_config (t_now : Q) (s : AdaptiveRateLimiter.t) :
  config (AdaptiveRateLimiter.report_429 t_now s) = config s.
Proof. unfold AdaptiveRateLimiter.report_429. destruct (Qlt_bool _ _); reflexivity. Qed.

Lemma report_success_config (t_now : Q) (s : AdaptiveRateLimiter.t) :
  config (AdaptiveRateLimiter.report_success t_now s) = config s.
Proof. unfold AdaptiveRateLimiter.report_success. destruct (Qlt_bool _ _); reflexivity. Qed.

Lemma report_429_windows (t_now : Q) (s : AdaptiveRateLimiter.t) :
  AdaptiveRateLimiter.short_requests (AdaptiveRateLimiter.report_429 t_now s)
  = AdaptiveRateLimiter.short_requests s /\
  AdaptiveRateLimiter.long_requests (AdaptiveRateLimiter.report_429 t_now s)
  = AdaptiveRateLimiter.long_requests s.
Proof. unfold AdaptiveRateLimiter.report_429. destruct (Qlt_bool _ _); split; reflexivity. Qed.

Lemma report_success_windows (t_now : Q) (s : AdaptiveRateLimiter.t) :
  AdaptiveRateLimiter.short_requests (AdaptiveRateLimiter.report_success t_now s)
  = AdaptiveRateLimiter.short_requests s /\
  AdaptiveRateLimiter.long_requests (AdaptiveRateLimiter.report_success t_now s)
  = AdaptiveRateLimiter.long_requests s.
Proof. unfold AdaptiveRateLimiter.report_success. destruct (Qlt_bool _ _); split; reflexivity. Qed.

Section AdaptiveWindow.

Variable with_high : bool.

Lemma adaptive_attempt_tracked (last t_now : Q) (p : Priority)
    (s : AdaptiveRateLimiter.t) (past : list Q) :
  (0 <= AdaptiveRateLimiter.short_limit s)%Z ->
  (0 <= AdaptiveRateLimiter.long_limit s)%Z ->
  priority_allowed with_high p = true ->
  last <= t_now ->
  tracked last (AdaptiveRateLimiter.short_window s) (short_bound with_high s)
    (AdaptiveRateLimiter.short_requests s) past ->
  tracked last (AdaptiveRateLimiter.long_window s) (AdaptiveRateLimiter.long_limit s)
    (AdaptiveRateLimiter.long_requests s) past ->
  let s' := fst (AdaptiveRateLimiter.attempt t_now p s) in
  let past' := match snd (AdaptiveRateLimiter.attempt t_now p s) with
               | Granted => past ++ [t_now]
               | Wait _ => past
               end in
  tracked t_now (AdaptiveRateLimiter.short_window s) (short_bound with_high s)
    (AdaptiveRateLimiter.short_requests s') past' /\
  tracked t_now (AdaptiveRateLimiter.long_window s) (AdaptiveRateLimiter.long_limit s)
    (AdaptiveRateLimiter.long_requests s') past'.
Proof.
  intros H0s H0l Hp Hle Hs Hl.
  apply (tracked_purge _ t_now) in Hs; [|exact Hle].
  apply (tracked_purge _ t_now) in Hl; [|exact Hle].
  pose proof (adapt_ge_1 (AdaptiveRateLimiter.consecutive_429s s)
                (AdaptiveRateLimiter.backoff_multiplier s)) as Hm.
  pose proof (effective_short_le with_high s _ p H0s Hm Hp) as Hes.
  pose proof (effective_long_le s _ H0l Hm) as Hel.
  unfold AdaptiveRateLimiter.attempt.
  destruct (Z.of_nat (length (purge t_now (AdaptiveRateLimiter.short_window s)
                                (AdaptiveRateLimiter.short_requests s))) <? _)%Z eqn:Es;
  destruct (Z.of_nat (length (purge t_now (AdaptiveRateLimiter.long_window s)
                                (AdaptiveRateLimiter.long_requests s))) <? _)%Z eqn:El;
    simpl; try (split; assumption).
  apply Z.ltb_lt in Es. apply Z.ltb_lt in El.
  split; apply tracked_grant; try assumption; lia.
Qed.

Lemma adaptive_run_tracked (es : list AdaptiveRateLimiter.Event) :
  forall (last : Q) (s : AdaptiveRateLimiter.t) (past : list Q),
    (0 <= AdaptiveRateLimiter.short_limit s)%Z ->
    (0 <= AdaptiveRateLimiter.long_limit s)%Z ->
    forallb (event_allowed with_high) es = true ->
    Forall (fun t_now => last <= t_now) (map AdaptiveRateLimiter.event_time es) ->
    StronglySorted Qle (map AdaptiveRateLimiter.event_time es) ->
    tracked last (AdaptiveRateLimiter.short_window s) (short_bound with_high s)
      (AdaptiveRateLimiter.short_requests s) past ->
    tracked last (AdaptiveRateLimiter.long_window s) (AdaptiveRateLimiter.long_limit s)
      (AdaptiveRateLimiter.long_requests s) past ->
    exists last',
      tracked last' (AdaptiveRateLimiter.short_window s) (short_bound with_high s)
        (AdaptiveRateLimiter.short_requests (fst (AdaptiveRateLimiter.run es s)))
        (past ++ snd (AdaptiveRateLimiter.run es s)) /\
      tracked last' (AdaptiveRateLimiter.long_window s) (AdaptiveRateLimiter.long_limit s)
        (AdaptiveRateLimiter.long_requests (fst (AdaptiveRateLimiter.run es s)))
        (past ++ snd (AdaptiveRateLimiter.run es s)).
Proof.
  induction es as [|e es IH]; intros last s past H0s H0l Hok Hall Hsorted Hs Hl.
  - exists last. simpl. rewrite app_nil_r. split; assumption.
  - simpl in Hok, Hall, Hsorted. apply andb_true_iff in Hok. destruct Hok as [Hp Hok].
    inversion Hall as [|? ? Hle Hall']; subst.
    inversion Hsorted as [|? ? Hsorted' Hnext]; subst.
    assert (Hstep : forall l0 s' past',
      Forall (fun t_now => l0 <= t_now) (map AdaptiveRateLimiter.event_time es) ->
      config s' = config s ->
      tracked l0 (AdaptiveRateLimiter.short_window s)
        (short_bound with_high s) (AdaptiveRateLimiter.short_requests s') past' ->
      tracked l0 (AdaptiveRateLimiter.long_window s)
        (AdaptiveRateLimiter.long_limit s) (AdaptiveRateLimiter.long_requests s') past' ->
      exists last',
        tracked last' (AdaptiveRateLimiter.short_window s) (short_bound with_high s)
          (AdaptiveRateLimiter.short_requests (fst (AdaptiveRateLimiter.run es s')))
          (past' ++ snd (AdaptiveRateLimiter.run es s')) /\
        tracked last' (AdaptiveRateLimiter.long_window s) (AdaptiveRateLimiter.long_limit s)
          (AdaptiveRateLimiter.long_requests (fst (AdaptiveRateLimiter.run es s')))
          (past' ++ snd (AdaptiveRateLimiter.run es s'))).
    { intros l0 s' past' Hl0 Hc Hs' Hl'.
      destruct (config_fields s s' Hc) as (C1 & C2 & C3 & C4 & C5 & C6).
      assert (C7 : short_bound with_high s' = short_bound with_high s)
        by (destruct with_high; assumption).
      rewrite <- C2, <- C7 in Hs'. rewrite <- C4, <- C3 in Hl'.
      rewrite <- C2, <- C3, <- C4, <- C7.
      apply (IH l0 s' past'); try assumption; lia. }
    destruct e as [t_now p|t_now|t_now]; simpl in *.
    + destruct (adaptive_attempt_tracked last t_now p s past H0s H0l Hp Hle Hs Hl)
        as [Hs' Hl'].
      pose proof (adaptive_attempt_config t_now p s) as Hc.
      destruct (AdaptiveRateLimiter.attempt t_now p s) as [s' v]. simpl in *.
      destruct v.
      * destruct (Hstep t_now s' (past ++ [t_now]) Hnext Hc Hs' Hl') as [last' IH'].
        exists last'. destruct (AdaptiveRateLimiter.run es s') as [s'' gs]. simpl in *.
        rewrite <- app_assoc in IH'. exact IH'.
      * exact (Hstep t_now s' past Hnext Hc Hs' Hl').
    + destruct (report_429_windows t_now s) as [W1 W2].
      apply (Hstep last); [exact Hall'|apply report_429_config| |];
        rewrite ?W1, ?W2; assumption.
    + destruct (report_success_windows t_now s) as [W1 W2].
      apply (Hstep last); [exact Hall'|apply report_success_config| |];
        rewrite ?W1, ?W2; assumption.
Qed.

End AdaptiveWindow.

Lemma sorted_has_lower_bound (ts : list Q) :
  StronglySorted Qle ts -> exists last, Forall (fun t_now => last <= t_now) ts.
Proof.
  intros [|t0 rest Hs Hall].
  - exists 0. constructor.
  - exists t0. constructor; [lra|exact Hall].
Qed.

Lemma event_allowed_true (es : list AdaptiveRateLimiter.Event) :
  forallb (event_allowed true) es = true.
Proof. apply forallb_forall. intros [? ?| |] _; reflexivity. Qed.

Lemma event_allowed_false (es : list AdaptiveRateLimiter.Event) :
  forallb AdaptiveRateLimiter.event_not_HIGH es = true ->
  forallb (event_allowed false) es = true.
Proof.
  intro H. rewrite forallb_forall in *. intros e He. specialize (H e He).
  destruct e; exact H.
Qed.

Lemma simple_window_bound (s : RateLimiter.t) (ts : list Q) (T : Q) :
  RateLimiter._short s = [] -> RateLimiter._long s = [] ->
  (0 <= RateLimiter.short_max s)%Z -> (0 <= RateLimiter.long_max s)%Z ->
  StronglySorted Qle ts ->
  (Z.of_nat (count_window T (RateLimiter.short_window s) (snd (RateLimiter.run ts s)))
   <= RateLimiter.short_max s)%Z /\
  (Z.of_nat (count_window T (RateLimiter.long_window s) (snd (RateLimiter.run ts s)))
   <= RateLimiter.long_max s)%Z.
Proof.
  intros Es El Hs Hl Hsorted.
  destruct (sorted_has_lower_bound ts Hsorted) as [last Hlast].
  destruct (simple_run_tracked ts last s [] Hlast Hsorted) as [last' [H1 H2]].
  - rewrite Es. apply tracked_nil. exact Hs.
  - rewrite El. apply tracked_nil. exact Hl.
  - simpl in H1, H2. split; eapply tracked_count; eassumption.
Qed.

Lemma adaptive_window_bound (with_high : bool) (a : AdaptiveRateLimiter.t)
    (es : list AdaptiveRateLimiter.Event) (T : Q) :
  AdaptiveRateLimiter.short_requests a = [] -> AdaptiveRateLimiter.long_requests a = [] ->
  (0 <= AdaptiveRateLimiter.short_limit a)%Z -> (0 <= AdaptiveRateLimiter.long_limit a)%Z ->
  StronglySorted Qle (map AdaptiveRateLimiter.event_time es) ->
  forallb (event_allowed with_high) es = true ->
  (Z.of_nat (count_window T (AdaptiveRateLimiter.short_window a)
               (snd (AdaptiveRateLimiter.run es a)))
   <= short_bound with_high a)%Z /\
  (Z.of_nat (count_window T (AdaptiveRateLimiter.long_window a)
               (snd (AdaptiveRateLimiter.run es a)))
   <= AdaptiveRateLimiter.long_limit a)%Z.
Proof.
  intros Es El Hs Hl Hsorted Hok.
  assert (Hb : (0 <= short_bound with_high a)%Z).
  { unfold short_bound, burst_bound. destruct with_high; lia. }
  destruct (sorted_has_lower_bound _ Hsorted) as [last Hlast].
  destruct (adaptive_run_tracked with_high es last a [] Hs Hl Hok Hlast Hsorted)
    as [last' [H1 H2]].
  - rewrite Es. apply tracked_nil. exact Hb.
  - rewrite El. apply tracked_nil. exact Hl.
  - simpl in H1, H2. split; eapply tracked_count; eassumption.
Qed.

(** C1 (as amended).  Checks of a fresh limiter at non-decreasing clock
    readings, in any interleaving: every trailing [short_window] holds at
    most [short_max] grants of a [RateLimiter] and every trailing
    [long_window] at most [long_max]; for an [AdaptiveRateLimiter], with
    reports of 429s and successes in between, every trailing [long_window]
    holds at most [long_limit] grants at every priority, every trailing
    [short_window] at most [short_limit] when no check is at [HIGH]
    priority, and at most the burst bound
    [max short_limit (int (short_limit * (1 + burst_allowance)))] when
    some are. *)
Theorem window_invariant
    (s : RateLimiter.t) (ts : list Q)
    (a : AdaptiveRateLimiter.t) (es : list AdaptiveRateLimiter.Event) (T : Q) :
  RateLimiter._short s = [] -> RateLimiter._long s = [] ->
  (0 <= RateLimiter.short_max s)%Z -> (0 <= RateLimiter.long_max s)%Z ->
  StronglySorted Qle ts ->
  AdaptiveRateLimiter.short_requests a = [] -> AdaptiveRateLimiter.long_requests a = [] ->
  (0 <= AdaptiveRateLimiter.short_limit a)%Z -> (0 <= AdaptiveRateLimiter.long_limit a)%Z ->
  StronglySorted Qle (map AdaptiveRateLimiter.event_time es) ->
  ((Z.of_nat (count_window T (RateLimiter.short_window s) (snd (RateLimiter.run ts s)))
    <= RateLimiter.short_max s)%Z /\
   (Z.of_nat (count_window T (RateLimiter.long_window s) (snd (RateLimiter.run ts s)))
    <= RateLimiter.long_max s)%Z) /\
  ((Z.of_nat (count_window T (AdaptiveRateLimiter.long_window a)
                (snd (AdaptiveRateLimiter.run es a)))
    <= AdaptiveRateLimiter.long_limit a)%Z /\
   (Z.of_nat (count_window T (AdaptiveRateLimiter.short_window a)
                (snd (AdaptiveRateLimiter.run es a)))
    <= burst_bound a)%Z /\
   (forallb AdaptiveRateLimiter.event_not_HIGH es = true ->
    (Z.of_nat (count_window T (AdaptiveRateLimiter.short_window a)
                 (snd (AdaptiveRateLimiter.run es a)))
     <= AdaptiveRateLimiter.short_limit a)%Z)).
Proof.
  intros Es El Hs Hl Hts Eas Eal Has Hal Hes.
  split; [apply simple_window_bound; assumption|].
  destruct (adaptive_window_bound true a es T Eas Eal Has Hal Hes (event_allowed_true es))
    as [H1 H2].
  repeat split; [exact H2|exact H1|].
  intro Hno.
  apply (adaptive_window_bound false a es T Eas Eal Has Hal Hes (event_allowed_false es Hno)).
Qed.

(** C1 as stated fails: 21 [HIGH] checks of a fresh default limiter at one
    clock reading are all granted, one more than [short_limit] = 20 inside
    one [short_window]. *)
Lemma window_invariant_high_counterexample :
  let es := repeat (AdaptiveRateLimiter.Attempt 0 HIGH) 21 in
  StronglySorted Qle (map AdaptiveRateLimiter.event_time es) /\
  snd (AdaptiveRateLimiter.run es AdaptiveRateLimiter.init) = repeat 0 21 /\
  ~ (Z.of_nat (count_window 0
                 (AdaptiveRateLimiter.short_window AdaptiveRateLimiter.init)
                 (snd (AdaptiveRateLimiter.run es AdaptiveRateLimiter.init)))
     <= AdaptiveRateLimiter.short_limit AdaptiveRateLimiter.init)%Z.
Proof.
  split; [|split].
  - simpl.
    repeat (apply SSorted_cons;
            [|repeat (apply Forall_cons; [apply Qle_refl|]); apply Forall_nil]).
    apply SSorted_nil.
  - vm_compute. reflexivity.
  - vm_compute. intro H. apply H. reflexivity.
Qed.

Lemma window_invariant_witness :
  let s := RateLimiter.init in
  let ts := [0; 0; 1 # 2; 3] in
  let a := AdaptiveRateLimiter.init in
  let es := [AdaptiveRateLimiter.Attempt 0 HIGH;
             AdaptiveRateLimiter.Report429 (1 # 4);
             AdaptiveRateLimiter.Attempt (1 # 2) NORMAL] in
  ((Z.of_nat (count_window 1 (RateLimiter.short_window s) (snd (RateLimiter.run ts s)))
    <= RateLimiter.short_max s)%Z /\
   (Z.of_nat (count_window 1 (RateLimiter.long_window s) (snd (RateLimiter.run ts s)))
    <= RateLimiter.long_max s)%Z) /\
  ((Z.of_nat (count_window 1 (AdaptiveRateLimiter.long_window a)
                (snd (AdaptiveRateLimiter.run es a)))
    <= AdaptiveRateLimiter.long_limit a)%Z /\
   (Z.of_nat (count_window 1 (AdaptiveRateLimiter.short_window a)
                (snd (AdaptiveRateLimiter.run es a)))
    <= burst_bound a)%Z /\
   (forallb AdaptiveRateLimiter.event_not_HIGH es = true ->
    (Z.of_nat (count_window 1 (AdaptiveRateLimiter.short_window a)
                 (snd (AdaptiveRateLimiter.run es a)))
     <= AdaptiveRateLimiter.short_limit a)%Z)).
Proof.
  apply (window_invariant RateLimiter.init [0; 0; 1 # 2; 3] AdaptiveRateLimiter.init
           [AdaptiveRateLimiter.Attempt 0 HIGH;
            AdaptiveRateLimiter.Report429 (1 # 4);
            AdaptiveRateLimiter.Attempt (1 # 2) NORMAL] 1);
    try reflexivity; try (simpl; lia);
    simpl; repeat constructor; unfold Qle; simpl; lia.
Defined.

(** ** [AdaptiveRateLimiter]: the backoff multiplier *)

(** Each clock reading of [ts] is less than 60 seconds after the one before
    it, [prev] being before the first. *)
Fixpoint each_within_60 (prev : Q) (ts : list Q) : Prop :=
  match ts with
  | [] => True
  | t_now :: ts' => t_now - prev < 60 /\ each_within_60 t_now ts'
  end.

Lemma attempt_multiplier (t_now : Q) (p : Priority) (s : AdaptiveRateLimiter.t) :
  AdaptiveRateLimiter.backoff_multiplier (fst (AdaptiveRateLimiter.attempt t_now p s))
  = AdaptiveRateLimiter.next_multiplier s /\
  AdaptiveRateLimiter.consecutive_429s (fst (AdaptiveRateLimiter.attempt t_now p s))
  = AdaptiveRateLimiter.consecutive_429s s.
Proof.
  unfold AdaptiveRateLimiter.attempt. destruct (_ && _); split; reflexivity.
Qed.

(** [acquire] recomputes the multiplier once per check, at least once. *)
Lemma acquire_multiplier (fuel : nat) :
  forall (p : Priority) (s : AdaptiveRateLimiter.t) (w : World) r s' w',
    AdaptiveRateLimiter.acquire fuel p s w = Some (r, s', w') ->
    exists n, (1 <= n)%nat /\
      AdaptiveRateLimiter.backoff_multiplier s'
      = Nat.iter n (AdaptiveRateLimiter.adapt (AdaptiveRateLimiter.consecutive_429s s))
          (AdaptiveRateLimiter.backoff_multiplier s) /\
      AdaptiveRateLimiter.consecutive_429s s' = AdaptiveRateLimiter.consecutive_429s s.
Proof.
  induction fuel as [|fuel IH]; intros p s w r s' w' H; simpl in H; [discriminate|].
  destruct (attempt_multiplier (now w) p s) as [Hm Hc].
  destruct (AdaptiveRateLimiter.attempt (now w) p s) as [s1 v]. simpl in Hm, Hc.
  destruct v as [|d].
  - inversion H; subst. exists 1%nat. repeat split; [lia|exact Hm|exact Hc].
  - apply IH in H. destruct H as (n & Hn & H1 & H2).
    exists (S n). repeat split; [lia| |congruence].
    rewrite H1, Hm, Hc. unfold AdaptiveRateLimiter.next_multiplier.
    rewrite Nat.iter_succ_r. reflexivity.
Qed.

Lemma next_multiplier_active (s : AdaptiveRateLimiter.t) :
  (1 <= AdaptiveRateLimiter.consecutive_429s s)%Z ->
  AdaptiveRateLimiter.next_multiplier s
  = Qmin 2 (1 + inject_Z (AdaptiveRateLimiter.consecutive_429s s) * (2 # 10)).
Proof.
  intro H. unfold AdaptiveRateLimiter.next_multiplier, AdaptiveRateLimiter.adapt.
  destruct (0 <? _)%Z eqn:E; [reflexivity|]. apply Z.ltb_ge in E. lia.
Qed.

Lemma report_429_within (t_now : Q) (s : AdaptiveRateLimiter.t) :
  t_now - AdaptiveRateLimiter.last_429_time s < 60 ->
  AdaptiveRateLimiter.consecutive_429s (AdaptiveRateLimiter.report_429 t_now s)
  = (AdaptiveRateLimiter.consecutive_429s s + 1)%Z.
Proof.
  intro H. apply Qlt_bool_iff in H. unfold AdaptiveRateLimiter.report_429.
  rewrite H. reflexivity.
Qed.

Lemma report_429_after_gap (t_now : Q) (s : AdaptiveRateLimiter.t) :
  60 <= t_now - AdaptiveRateLimiter.last_429_time s ->
  AdaptiveRateLimiter.consecutive_429s (AdaptiveRateLimiter.report_429 t_now s) = 1%Z.
Proof.
  intro H. apply Qlt_bool_false_iff in H. unfold AdaptiveRateLimiter.report_429.
  rewrite H. reflexivity.
Qed.

Lemma report_429_last (t_now : Q) (s : AdaptiveRateLimiter.t) :
  AdaptiveRateLimiter.last_429_time (AdaptiveRateLimiter.report_429 t_now s) = t_now.
Proof. unfold AdaptiveRateLimiter.report_429. destruct (Qlt_bool _ _); reflexivity. Qed.

Lemma report_429_seq_monotone (ts : list Q) :
  forall s : AdaptiveRateLimiter.t,
    (1 <= AdaptiveRateLimiter.consecutive_429s s)%Z ->
    each_within_60 (AdaptiveRateLimiter.last_429_time s) ts ->
    let ms := map AdaptiveRateLimiter.next_multiplier
                (AdaptiveRateLimiter.report_429_seq ts s) in
    StronglySorted Qle ms /\
    Forall (fun m => AdaptiveRateLimiter.next_multiplier s <= m /\ m <= 2) ms.
Proof.
  induction ts as [|t_now ts IH]; intros s Hc Hchain; simpl.
  - split; constructor.
  - destruct Hchain as [Hnear Hchain].
    pose proof (report_429_within t_now s Hnear) as Ec.
    set (s' := AdaptiveRateLimiter.report_429 t_now s) in *.
    assert (Hc' : (1 <= AdaptiveRateLimiter.consecutive_429s s')%Z) by lia.
    assert (Hstep : AdaptiveRateLimiter.next_multiplier s
                    <= AdaptiveRateLimiter.next_multiplier s').
    { rewrite !next_multiplier_active by assumption. rewrite Ec.
      apply Q.min_le_compat_l. rewrite inject_Z_plus. change (inject_Z 1) with 1. lra. }
    assert (Hcap : AdaptiveRateLimiter.next_multiplier s' <= 2).
    { rewrite next_multiplier_active by assumption. apply Q.le_min_l. }
    destruct (IH s' Hc') as [Hs Hall].
    { unfold s'. rewrite report_429_last. exact Hchain. }
    simpl in Hs, Hall. split.
    + constructor; [exact Hs|].
      eapply Forall_impl; [|exact Hall]. simpl. intros m [Hm _]. exact Hm.
    + constructor; [split; assumption|].
      eapply Forall_impl; [|exact Hall]. simpl. intros m [Hm H2]. split; lra.
Qed.

(** C2.  Every check of [acquire] sets the multiplier to
    [min(2.0, 1.0 + 0.2 * consecutive_429s)] when [consecutive_429s > 0],
    else to [max(1.0, multiplier * 0.95)], and [acquire] makes at least one
    check; the multipliers that follow a run of [report_429] calls, each
    less than 60 seconds after the one before, never decrease and never
    exceed 2; a [report_429] 60 seconds or more after the last one sets the
    count to 1. *)
Theorem backoff_multiplier_recomputed
    (s : AdaptiveRateLimiter.t) (t_now : Q) (p : Priority)
    (t1 : Q) (ts : list Q) (t_far : Q) :
  (0 <= AdaptiveRateLimiter.consecutive_429s s)%Z ->
  each_within_60 t1 ts ->
  60 < t_far - AdaptiveRateLimiter.last_429_time s ->
  AdaptiveRateLimiter.backoff_multiplier (fst (AdaptiveRateLimiter.attempt t_now p s))
  = (if (0 <? AdaptiveRateLimiter.consecutive_429s s)%Z
     then Qmin 2 (1 + inject_Z (AdaptiveRateLimiter.consecutive_429s s) * (2 # 10))
     else Qmax 1 (AdaptiveRateLimiter.backoff_multiplier s * (95 # 100))) /\
  (forall fuel w r s' w',
      AdaptiveRateLimiter.acquire fuel p s w = Some (r, s', w') ->
      exists n, (1 <= n)%nat /\
        AdaptiveRateLimiter.backoff_multiplier s'
        = Nat.iter n (AdaptiveRateLimiter.adapt (AdaptiveRateLimiter.consecutive_429s s))
            (AdaptiveRateLimiter.backoff_multiplier s)) /\
  (let ms := map AdaptiveRateLimiter.next_multiplier
               (AdaptiveRateLimiter.report_429_seq (t1 :: ts) s) in
   StronglySorted Qle ms /\ Forall (fun m => m <= 2) ms) /\
  AdaptiveRateLimiter.consecutive_429s (AdaptiveRateLimiter.report_429 t_far s) = 1%Z.
Proof.
  intros Hc Hchain Hfar. repeat split.
  - apply attempt_multiplier.
  - intros fuel w r s' w' H.
    destruct (acquire_multiplier fuel p s w r s' w' H) as (n & Hn & Hm & _).
    exists n. split; assumption.
  - simpl.
    set (s1 := AdaptiveRateLimiter.report_429 t1 s).
    assert (Hc1 : (1 <= AdaptiveRateLimiter.consecutive_429s s1)%Z).
    { unfold s1, AdaptiveRateLimiter.report_429. destruct (Qlt_bool _ _); simpl; lia. }
    destruct (report_429_seq_monotone ts s1 Hc1) as [Hs Hall].
    { unfold s1. rewrite report_429_last. exact Hchain. }
    constructor; [exact Hs|].
    eapply Forall_impl; [|exact Hall]. simpl. intros m [Hm _]. exact Hm.
  - simpl.
    set (s1 := AdaptiveRateLimiter.report_429 t1 s).
    assert (Hc1 : (1 <= AdaptiveRateLimiter.consecutive_429s s1)%Z).
    { unfold s1, AdaptiveRateLimiter.report_429. destruct (Qlt_bool _ _); simpl; lia. }
    destruct (report_429_seq_monotone ts s1 Hc1) as [Hs Hall].
    { unfold s1. rewrite report_429_last. exact Hchain. }
    constructor.
    + rewrite next_multiplier_active by assumption. apply Q.le_min_l.
    + eapply Forall_impl; [|exact Hall]. simpl. intros m [_ Hm]. exact Hm.
  - apply report_429_after_gap. lra.
Qed.

Lemma backoff_multiplier_recomputed_witness :
  let s := AdaptiveRateLimiter.init in
  map AdaptiveRateLimiter.consecutive_429s
    (AdaptiveRateLimiter.report_429_seq [100; 130; 150; 200; 259; 300] s)
  = [1; 2; 3; 4; 5; 6]%Z /\
  (let ms := map AdaptiveRateLimiter.next_multiplier
               (AdaptiveRateLimiter.report_429_seq [100; 130; 150; 200; 259; 300] s) in
   StronglySorted Qle ms /\ Forall (fun m => m <= 2) ms) /\
  AdaptiveRateLimiter.consecutive_429s (AdaptiveRateLimiter.report_429 61 s) = 1%Z.
Proof.
  split; [vm_compute; reflexivity|].
  apply (backoff_multiplier_recomputed AdaptiveRateLimiter.init 0 NORMAL
           100 [130; 150; 200; 259; 300] 61).
  - simpl. lia.
  - simpl. repeat split; unfold Qlt; simpl; lia.
  - unfold Qlt. simpl. lia.
Defined.

(** ** [LRUCache]: the ordered dictionary *)

Section OrderedDictFacts.

Import LRUCache.

Lemma od_get_None (key : string) (od : OrderedDict) :
  od_get key od = None <-> ~ In key (keys od).
Proof.
  induction od as [|[k e] rest IH]; simpl; [tauto|].
  destruct (String.eqb k key) eqn:E.
  - apply String.eqb_eq in E. split; [discriminate|]. intro H. exfalso. apply H. left. exact E.
  - apply String.eqb_neq in E. rewrite IH. tauto.
Qed.

Lemma od_mem_false (key : string) (od : OrderedDict) :
  od_mem key od = false <-> ~ In key (keys od).
Proof.
  unfold od_mem. rewrite <- od_get_None.
  destruct (od_get key od); split; congruence.
Qed.

Lemma od_mem_true (key : string) (od : OrderedDict) :
  od_mem key od = true <-> In key (keys od).
Proof.
  destruct (od_mem key od) eqn:E.
  - split; [intros _|reflexivity].
    destruct (in_dec string_dec key (keys od)) as [H|H]; [exact H|].
    apply od_mem_false in H. congruence.
  - apply od_mem_false in E. split; [discriminate|tauto].
Qed.

Lemma od_get_setitem (key : string) (e : CacheEntry) (od : OrderedDict) :
  od_get key (od_setitem key e od) = Some e.
Proof.
  induction od as [|[k e0] rest IH]; simpl.
  - rewrite String.eqb_refl. reflexivity.
  - destruct (String.eqb k key) eqn:E; simpl; rewrite E; [reflexivity|exact IH].
Qed.

Lemma od_del_setitem (key : string) (e : CacheEntry) (od : OrderedDict) :
  od_del key (od_setitem key e od) = od_del key od.
Proof.
  induction od as [|[k e0] rest IH]; simpl.
  - rewrite String.eqb_refl. reflexivity.
  - destruct (String.eqb k key) eqn:E; simpl; rewrite E; [reflexivity|].
    rewrite IH. reflexivity.
Qed.

(** [od[key] = e; od.move_to_end(key)] leaves [key] last, bound to [e]. *)
Lemma od_move_setitem (key : string) (e : CacheEntry) (od : OrderedDict) :
  od_move_to_end key (od_setitem key e od) = od_del key od ++ [(key, e)].
Proof.
  unfold od_move_to_end. rewrite od_get_setitem, od_del_setitem. reflexivity.
Qed.

Lemma od_del_absent (key : string) (od : OrderedDict) :
  ~ In key (keys od) -> od_del key od = od.
Proof.
  induction od as [|[k e] rest IH]; simpl; intro H; [reflexivity|].
  destruct (String.eqb k key) eqn:E.
  - apply String.eqb_eq in E. tauto.
  - rewrite IH by tauto. reflexivity.
Qed.

Lemma od_del_keys (key k : string) (od : OrderedDict) :
  In k (keys (od_del key od)) -> In k (keys od).
Proof.
  induction od as [|[k0 e] rest IH]; simpl; [tauto|].
  destruct (String.eqb k0 key); simpl; tauto.
Qed.

Lemma od_del_other (key k : string) (od : OrderedDict) :
  k <> key -> In k (keys od) -> In k (keys (od_del key od)).
Proof.
  intro Hne. induction od as [|[k0 e] rest IH]; simpl; [tauto|].
  destruct (String.eqb k0 key) eqn:E; simpl.
  - apply String.eqb_eq in E. intros [H|H]; [congruence|exact H].
  - tauto.
Qed.

Lemma od_del_NoDup (key : string) (od : OrderedDict) :
  NoDup (keys od) -> NoDup (keys (od_del key od)) /\ ~ In key (keys (od_del key od)).
Proof.
  induction od as [|[k e] rest IH]; simpl; intro H.
  - split; [constructor|tauto].
  - inversion H as [|? ? Hk Hrest]; subst.
    destruct (String.eqb k key) eqn:E.
    + apply String.eqb_eq in E. subst. split; assumption.
    + apply String.eqb_neq in E. destruct (IH Hrest) as [H1 H2]. simpl. split.
      * constructor; [|exact H1]. intro Hin. apply Hk. eapply od_del_keys. exact Hin.
      * tauto.
Qed.

Lemma od_del_length (key : string) (od : OrderedDict) :
  In key (keys od) -> S (length (od_del key od)) = length od.
Proof.
  induction od as [|[k e] rest IH]; simpl; [tauto|].
  destruct (String.eqb k key) eqn:E; [reflexivity|].
  apply String.eqb_neq in E. intros [H|H]; [congruence|].
  simpl. rewrite IH by exact H. reflexivity.
Qed.

Lemma keys_app (od1 od2 : OrderedDict) : keys (od1 ++ od2) = keys od1 ++ keys od2.
Proof. apply map_app. Qed.

Lemma od_get_last (key : string) (e : CacheEntry) (od : OrderedDict) :
  ~ In key (keys od) -> od_get key (od ++ [(key, e)]) = Some e.
Proof.
  induction od as [|[k e0] rest IH]; simpl; intro H.
  - rewrite String.eqb_refl. reflexivity.
  - destruct (String.eqb k key) eqn:E.
    + apply String.eqb_eq in E. tauto.
    + apply IH. tauto.
Qed.

Lemma od_del_last (key : string) (e : CacheEntry) (od : OrderedDict) :
  ~ In key (keys od) -> od_del key (od ++ [(key, e)]) = od.
Proof.
  induction od as [|[k e0] rest IH]; simpl; intro H.
  - rewrite String.eqb_refl. reflexivity.
  - destruct (String.eqb k key) eqn:E.
    + apply String.eqb_eq in E. tauto.
    + rewrite IH by tauto. reflexivity.
Qed.

(** ** [LRUCache.set] and [LRUCache.get] *)

(** What [set] leaves in the dictionary, when it returns. *)
Lemma set_cache (t_now : Q) (key : string) (value : Json) (ttl : Z) (c c' : t) :
  set t_now key value ttl c = Some c' ->
  max_size c' = max_size c /\ hits c' = hits c /\ misses c' = misses c /\
  cache c' =
    od_del key (if (max_size c <=? size c)%Z && negb (od_mem key (cache c))
                then tl (cache c) else cache c)
    ++ [(key, new_entry t_now value ttl)].
Proof.
  unfold set. intro H.
  destruct ((max_size c <=? size c)%Z && negb (od_mem key (cache c))).
  - destruct (cache c) as [|x rest]; simpl in H; [discriminate|].
    inversion H; subst; simpl. rewrite od_move_setitem. repeat split; reflexivity.
  - inversion H; subst; simpl. rewrite od_move_setitem. repeat split; reflexivity.
Qed.

(** [set] returns on every cache of positive capacity. *)
Lemma set_returns (t_now : Q) (key : string) (value : Json) (ttl : Z) (c : t) :
  (1 <= max_size c)%Z -> exists c', set t_now key value ttl c = Some c'.
Proof.
  intro Hm. unfold set.
  destruct (max_size c <=? size c)%Z eqn:E; simpl; [|eexists; reflexivity].
  destruct (negb (od_mem key (cache c))); [|eexists; reflexivity].
  apply Z.leb_le in E. unfold size in E.
  destruct (cache c); simpl in *; [lia|eexists; reflexivity].
Qed.

Lemma set_size_bound (t_now : Q) (key : string) (value : Json) (ttl : Z) (c c' : t) :
  (size c <= max_size c)%Z ->
  set t_now key value ttl c = Some c' ->
  (size c' <= max_size c')%Z.
Proof.
  intros Hs H. pose proof H as H0. unfold set in H0.
  destruct (set_cache _ _ _ _ _ _ H) as (Em & _ & _ & Ec).
  unfold size in *. rewrite Em, Ec, length_app. simpl.
  destruct (max_size c <=? Z.of_nat (length (cache c)))%Z eqn:E; simpl in *.
  - apply Z.leb_le in E.
    destruct (od_mem key (cache c)) eqn:Emem; simpl in *.
    + apply od_mem_true in Emem. apply od_del_length in Emem. lia.
    + destruct (cache c) as [|x rest] eqn:Ecache; simpl in *; [discriminate|].
      apply od_mem_false in Emem.
      rewrite od_del_absent by (simpl in Emem; destruct x; simpl in *; tauto).
      lia.
  - apply Z.leb_gt in E.
    destruct (in_dec string_dec key (keys (cache c))) as [Hin|Hout].
    + apply od_del_length in Hin. lia.
    + rewrite od_del_absent by exact Hout. lia.
Qed.

Lemma get_size_bound (t_now : Q) (key : string) (c : t) :
  (size c <= max_size c)%Z ->
  (size (snd (get t_now key c)) <= max_size (snd (get t_now key c)))%Z.
Proof.
  intro Hs. unfold get, size in *.
  destruct (od_get key (cache c)) as [entry|] eqn:Eg; simpl; [|exact Hs].
  assert (Hin : In key (keys (cache c))).
  { apply od_mem_true. unfold od_mem. rewrite Eg. reflexivity. }
  pose proof (od_del_length key (cache c) Hin) as Hl.
  destruct (is_expired t_now entry); simpl.
  - lia.
  - unfold od_move_to_end. rewrite Eg, length_app. simpl. lia.
Qed.

Lemma set_NoDup (t_now : Q) (key : string) (value : Json) (ttl : Z) (c c' : t) :
  NoDup (keys (cache c)) ->
  set t_now key value ttl c = Some c' ->
  NoDup (keys (cache c')).
Proof.
  intros Hnd H. destruct (set_cache _ _ _ _ _ _ H) as (_ & _ & _ & Ec).
  rewrite Ec, keys_app. simpl.
  assert (Hnd' : NoDup (keys (if (max_size c <=? size c)%Z && negb (od_mem key (cache c))
                              then tl (cache c) else cache c))).
  { destruct (_ && _); [|exact Hnd].
    destruct (cache c); simpl in *; [constructor|]. inversion Hnd; assumption. }
  destruct (od_del_NoDup key _ Hnd') as [H1 H2].
  apply NoDup_app; [exact H1|repeat constructor; simpl; tauto|].
  intros x Hx [Hy|[]]. subst. tauto.
Qed.

End OrderedDictFacts.

Section CacheClaims.

Import LRUCache.

Variables (t_now : Q) (value : Json) (ttl : Z).




(** At capacity a new key pushes out the first entry, and only it. *)
Lemma set_new_at_capacity (key : string) (c : t) :
  (1 <= max_size c)%Z -> (max_size c <= size c)%Z ->
  NoDup (keys (cache c)) -> ~ In key (keys (cache c)) ->
  exists c', set t_now key value ttl c = Some c' /\
    max_size c' = max_size c /\
    cache c' = tl (cache c) ++ [(key, new_entry t_now value ttl)].
Proof.
  intros Hm Hfull Hnd Hnew.
  destruct (set_returns t_now key value ttl c Hm) as [c' H].
  exists c'. split; [exact H|].
  destruct (set_cache _ _ _ _ _ _ H) as (Em & _ & _ & Ec).
  split; [exact Em|]. rewrite Ec.
  assert (E1 : (max_size c <=? size c)%Z = true) by (apply Z.leb_le; exact Hfull).
  assert (E2 : od_mem key (cache c) = false) by (apply od_mem_false; exact Hnew).
  rewrite E1, E2. simpl. rewrite od_del_absent; [reflexivity|].
  intro Hin. apply Hnew. destruct (cache c); simpl in *; tauto.
Qed.

(** A key already there is moved to the end; no key leaves. *)
Lemma set_present (key : string) (c c' : t) :
  In key (keys (cache c)) ->
  set t_now key value ttl c = Some c' ->
  size c' = size c /\ forall k, In k (keys (cache c')) <-> In k (keys (cache c)).
Proof.
  intros Hin H.
  destruct (set_cache _ _ _ _ _ _ H) as (_ & _ & _ & Ec).
  assert (E : od_mem key (cache c) = true) by (apply od_mem_true; exact Hin).
  rewrite E, andb_false_r in Ec. split.
  - unfold size. rewrite Ec, length_app. simpl.
    pose proof (od_del_length key (cache c) Hin). lia.
  - intro k. rewrite Ec, keys_app, in_app_iff. simpl. split.
    + intros [H1|[H1|[]]]; [eapply od_del_keys; exact H1|subst; exact Hin].
    + intro Hk. destruct (string_dec k key) as [->|Hne]; [tauto|].
      left. apply od_del_other; assumption.
Qed.




End CacheClaims.



Section CacheVisibility.

Import LRUCache.

(** An entry is handed out while the clock is at or before [expires_at]. *)
Lemma get_visible (t_now : Q) (key : string) (c : t) (e : CacheEntry) :
  od_get key (cache c) = Some e ->
  t_now <= expires_at e ->
  fst (get t_now key c) = data e /\
  hits (snd (get t_now key c)) = (hits c + 1)%Z /\
  misses (snd (get t_now key c)) = misses c /\
  od_mem key (cache (snd (get t_now key c))) = true.
Proof.
  intros Hg Hle. unfold get, is_expired. rewrite Hg.
  assert (E : Qlt_bool (expires_at e) t_now = false) by (apply Qlt_bool_false_iff; exact Hle).
  rewrite E. simpl. repeat split.
  unfold od_move_to_end. rewrite Hg.
  apply od_mem_true. rewrite keys_app, in_app_iff. right. left. reflexivity.
Qed.

(** Past [expires_at] it is a miss, and the entry is deleted. *)
Lemma get_expired (t_now : Q) (key : string) (c : t) (e : CacheEntry) :
  od_get key (cache c) = Some e ->
  expires_at e < t_now ->
  fst (get t_now key c) = JNull /\
  misses (snd (get t_now key c)) = (misses c + 1)%Z /\
  hits (snd (get t_now key c)) = hits c /\
  cache (snd (get t_now key c)) = od_del key (cache c).
Proof.
  intros Hg Hlt. unfold get, is_expired. rewrite Hg.
  assert (E : Qlt_bool (expires_at e) t_now = true) by (apply Qlt_bool_iff; exact Hlt).
  rewrite E. simpl. repeat split.
Qed.

End CacheVisibility.

(** C7.  On a cache of positive capacity, [set(k, v, ttl)] at clock [t0]
    stores an entry that [get(k)] hands out as [v] at every clock reading
    [t1 <= t0 + ttl], so also at once when [ttl >= 0], and that [get(k)]
    at [t1 > t0 + ttl] reports absent, counting one miss and deleting the
    entry. *)
Theorem cache_set_then_get
    (c : LRUCache.t) (k : string) (v : Json) (ttl : Z) (t0 t1 : Q) :
  (1 <= LRUCache.max_size c)%Z ->
  NoDup (LRUCache.keys (LRUCache.cache c)) ->
  exists c1, LRUCache.set t0 k v ttl c = Some c1 /\
    ((0 <= ttl)%Z -> fst (LRUCache.get t0 k c1) = v) /\
    (t1 <= t0 + inject_Z ttl ->
     fst (LRUCache.get t1 k c1) = v /\
     LRUCache.hits (snd (LRUCache.get t1 k c1)) = (LRUCache.hits c1 + 1)%Z /\
     LRUCache.misses (snd (LRUCache.get t1 k c1)) = LRUCache.misses c1 /\
     LRUCache.od_mem k (LRUCache.cache (snd (LRUCache.get t1 k c1))) = true) /\
    (t0 + inject_Z ttl < t1 ->
     fst (LRUCache.get t1 k c1) = JNull /\
     LRUCache.misses (snd (LRUCache.get t1 k c1)) = (LRUCache.misses c1 + 1)%Z /\
     LRUCache.od_mem k (LRUCache.cache (snd (LRUCache.get t1 k c1))) = false).
Proof.
  intros Hm Hnd.
  destruct (set_returns t0 k v ttl c Hm) as [c1 H].
  exists c1. split; [exact H|].
  pose proof (set_NoDup _ _ _ _ _ _ Hnd H) as Hnd1.
  destruct (set_cache _ _ _ _ _ _ H) as (_ & _ & _ & Ec).
  assert (Hg : LRUCache.od_get k (LRUCache.cache c1) = Some (LRUCache.new_entry t0 v ttl)).
  { rewrite Ec. apply od_get_last.
    apply od_del_NoDup.
    destruct (_ && _); [|exact Hnd].
    destruct (LRUCache.cache c); simpl in *; [constructor|]. inversion Hnd; assumption. }
  split; [|split].
  - intro Httl.
    apply (get_visible t0 k c1 _ Hg). simpl.
    pose proof (inject_Z_nonneg ttl Httl). lra.
  - intro Hle.
    destruct (get_visible t1 k c1 _ Hg Hle) as (H1 & H2 & H3 & H4).
    repeat split; assumption.
  - intro Hlt.
    destruct (get_expired t1 k c1 _ Hg Hlt) as (H1 & H2 & _ & H4).
    repeat split; try assumption.
    rewrite H4. apply od_mem_false. apply od_del_NoDup. exact Hnd1.
Qed.

Lemma cache_set_then_get_witness :
  exists c1, LRUCache.set 100 "k" (JStr "v") 300 (LRUCache.init 1000) = Some c1 /\
    ((0 <= 300)%Z -> fst (LRUCache.get 100 "k" c1) = JStr "v") /\
    (400 <= 100 + inject_Z 300 ->
     fst (LRUCache.get 400 "k" c1) = JStr "v" /\
     LRUCache.hits (snd (LRUCache.get 400 "k" c1)) = (LRUCache.hits c1 + 1)%Z /\
     LRUCache.misses (snd (LRUCache.get 400 "k" c1)) = LRUCache.misses c1 /\
     LRUCache.od_mem "k" (LRUCache.cache (snd (LRUCache.get 400 "k" c1))) = true) /\
    (100 + inject_Z 300 < 400 ->
     fst (LRUCache.get 400 "k" c1) = JNull /\
     LRUCache.misses (snd (LRUCache.get 400 "k" c1)) = (LRUCache.misses c1 + 1)%Z /\
     LRUCache.od_mem "k" (LRUCache.cache (snd (LRUCache.get 400 "k" c1))) = false).
Proof.
  apply (cache_set_then_get (LRUCache.init 1000) "k" (JStr "v") 300 100 400).
  - simpl. lia.
  - simpl. constructor.
Defined.

(** ** Termination of the limiters' wait loops *)

Lemma py_max3_bounds (a b c : Q) :
  a <= py_max3 a b c /\ b <= py_max3 a b c /\ c <= py_max3 a b c.
Proof.
  unfold py_max3.
  pose proof (Q.le_max_l (Qmax a b) c). pose proof (Q.le_max_r (Qmax a b) c).
  pose proof (Q.le_max_l a b). pose proof (Q.le_max_r a b).
  repeat split; lra.
Qed.

(** What survives a purge starts with a stamp still inside the window. *)
Lemma purge_head (t_now window : Q) (dq : list Q) (t0 : Q) (rest : list Q) :
  purge t_now window dq = t0 :: rest -> t_now - t0 < window.
Proof.
  induction dq as [|t rest' IH]; simpl; [discriminate|].
  destruct (Qle_bool window (t_now - t)) eqn:E; [exact IH|].
  intro H. inversion H; subst. apply Qle_bool_false_iff. exact E.
Qed.

(** A full window loses its oldest stamp once its wait has been slept. *)
Lemma blocked_window_shrinks (t_now window d : Q) (limit : Z) (dq : list Q) :
  (1 <= limit)%Z ->
  (Z.of_nat (length (purge t_now window dq)) <? limit)%Z = false ->
  window_wait t_now window false (purge t_now window dq) <= d ->
  (length (purge (t_now + d) window (purge t_now window dq))
   < length (purge t_now window dq))%nat.
Proof.
  intros Hl Hfull Hd. apply Z.ltb_ge in Hfull.
  destruct (purge t_now window dq) as [|t0 rest] eqn:E; simpl in *; [lia|].
  assert (Ego : Qle_bool window (t_now + d - t0) = true) by (apply Qle_bool_iff; lra).
  rewrite Ego. pose proof (purge_length (t_now + d) window rest). lia.
Qed.

Lemma window_wait_open (t_now window : Q) (dq : list Q) :
  window_wait t_now window true dq = 0.
Proof. destruct dq; reflexivity. Qed.

(** The stamps a limiter would keep if it were checked at clock [t_now]. *)
Definition simple_pending (t_now : Q) (s : RateLimiter.t) : nat :=
  length (purge t_now (RateLimiter.short_window s) (RateLimiter._short s))
  + length (purge t_now (RateLimiter.long_window s) (RateLimiter._long s)).

Definition same_limits (s s' : RateLimiter.t) : Prop :=
  RateLimiter.short_max s' = RateLimiter.short_max s /\
  RateLimiter.short_window s' = RateLimiter.short_window s /\
  RateLimiter.long_max s' = RateLimiter.long_max s /\
  RateLimiter.long_window s' = RateLimiter.long_window s.

Lemma simple_attempt_wait (t_now d : Q) (s s1 : RateLimiter.t) :
  (1 <= RateLimiter.short_max s)%Z -> (1 <= RateLimiter.long_max s)%Z ->
  RateLimiter.attempt t_now s = (s1, Wait d) ->
  same_limits s s1 /\ 0 < d /\
  (length (RateLimiter._short s1) <= length (RateLimiter._short s))%nat /\
  (length (RateLimiter._long s1) <= length (RateLimiter._long s))%nat /\
  (simple_pending (t_now + d) s1 < simple_pending t_now s)%nat.
Proof.
  intros Hs Hl. unfold RateLimiter.attempt, simple_pending.
  set (sh := purge t_now (RateLimiter.short_window s) (RateLimiter._short s)).
  set (lg := purge t_now (RateLimiter.long_window s) (RateLimiter._long s)).
  destruct (Z.of_nat (length sh) <? RateLimiter.short_max s)%Z eqn:Es;
  destruct (Z.of_nat (length lg) <? RateLimiter.long_max s)%Z eqn:El;
    simpl; intro H; inversion H; subst; clear H; simpl;
    destruct (py_max3_bounds
                (window_wait t_now (RateLimiter.short_window s)
                   (Z.of_nat (length sh) <? RateLimiter.short_max s)%Z sh)
                (window_wait t_now (RateLimiter.long_window s)
                   (Z.of_nat (length lg) <? RateLimiter.long_max s)%Z lg)
                (1 # 1000)) as (B1 & B2 & B3);
    rewrite ?Es, ?El in *;
    (split; [repeat split; reflexivity|]);
    (split; [lra|]);
    (split; [apply purge_length|]);
    (split; [apply purge_length|]).
  - pose proof (blocked_window_shrinks t_now _ _ _ _ Hl El B2).
    pose proof (purge_length
                  (t_now + py_max3 (window_wait t_now (RateLimiter.short_window s) true sh)
                             (window_wait t_now (RateLimiter.long_window s) false lg)
                             (1 # 1000))
                  (RateLimiter.short_window s) sh).
    fold lg in H. lia.
  - pose proof (blocked_window_shrinks t_now _ _ _ _ Hs Es B1).
    pose proof (purge_length
                  (t_now + py_max3 (window_wait t_now (RateLimiter.short_window s) false sh)
                             (window_wait t_now (RateLimiter.long_window s) true lg)
                             (1 # 1000))
                  (RateLimiter.long_window s) lg).
    fold sh in H. lia.
  - pose proof (blocked_window_shrinks t_now _ _ _ _ Hs Es B1).
    pose proof (blocked_window_shrinks t_now _ _ _ _ Hl El B2).
    fold sh in H. fold lg in H0. lia.
Qed.

Lemma simple_attempt_granted (t_now : Q) (s s1 : RateLimiter.t) :
  RateLimiter.attempt t_now s = (s1, Granted) ->
  same_limits s s1 /\
  (length (RateLimiter._short s1) <= S (length (RateLimiter._short s)))%nat /\
  (length (RateLimiter._long s1) <= S (length (RateLimiter._long s)))%nat.
Proof.
  unfold RateLimiter.attempt. destruct (_ && _); intro H; inversion H; subst; simpl.
  split; [repeat split; reflexivity|].
  rewrite !length_app. simpl.
  pose proof (purge_length t_now (RateLimiter.short_window s) (RateLimiter._short s)).
  pose proof (purge_length t_now (RateLimiter.long_window s) (RateLimiter._long s)).
  lia.
Qed.

(** How a returned [acquire] relates the states and worlds around it. *)
Record acquired (s : RateLimiter.t) (w : World) (s' : RateLimiter.t) (w' : World)
  : Prop := {
  acq_limits : same_limits s s';
  acq_short : (length (RateLimiter._short s') <= S (length (RateLimiter._short s)))%nat;
  acq_long : (length (RateLimiter._long s') <= S (length (RateLimiter._long s)))%nat;
  acq_printed : printed w' = printed w;
  acq_calls : http_calls w' = http_calls w;
  acq_slept : exists waits, slept w' = slept w ++ waits /\ Forall (fun d => 0 < d) waits
}.

Lemma simple_acquire_returns (fuel : nat) :
  forall (s : RateLimiter.t) (w : World),
    (1 <= RateLimiter.short_max s)%Z -> (1 <= RateLimiter.long_max s)%Z ->
    (simple_pending (now w) s < fuel)%nat ->
    exists s' w', RateLimiter.acquire fuel s w = Some (s', w') /\ acquired s w s' w'.
Proof.
  induction fuel as [|fuel IH]; intros s w Hs Hl Hfuel; [lia|].
  simpl. destruct (RateLimiter.attempt (now w) s) as [s1 [|d]] eqn:E.
  - exists s1, w. split; [reflexivity|].
    destruct (simple_attempt_granted _ _ _ E) as (L & A & B).
    split; try assumption; try reflexivity.
    exists []. rewrite app_nil_r. split; [reflexivity|constructor].
  - destruct (simple_attempt_wait _ _ _ _ Hs Hl E) as (L & Hd & A & B & Hshrink).
    destruct L as (L1 & L2 & L3 & L4).
    destruct (IH s1 (advance d w)) as (s' & w' & H & Hacq); try lia.
    { simpl. lia. }
    exists s', w'. split; [exact H|].
    destruct Hacq as [(M1 & M2 & M3 & M4) A' B' P C [waits [Sl Fw]]].
    split; try (simpl in *; congruence); try lia.
    + repeat split; congruence.
    + exists (d :: waits). simpl in Sl. rewrite Sl, <- app_assoc. simpl.
      split; [reflexivity|]. constructor; assumption.
Qed.

(** With room in both windows [acquire] returns at once, without a sleep. *)
Lemma simple_acquire_at_once (fuel : nat) (s : RateLimiter.t) (w : World) :
  (Z.of_nat (length (RateLimiter._short s)) < RateLimiter.short_max s)%Z ->
  (Z.of_nat (length (RateLimiter._long s)) < RateLimiter.long_max s)%Z ->
  exists s', RateLimiter.acquire (S fuel) s w = Some (s', w) /\ acquired s w s' w.
Proof.
  intros Hs Hl. simpl.
  destruct (RateLimiter.attempt (now w) s) as [s1 v] eqn:E.
  pose proof E as E'. unfold RateLimiter.attempt in E'.
  pose proof (purge_length (now w) (RateLimiter.short_window s) (RateLimiter._short s)).
  pose proof (purge_length (now w) (RateLimiter.long_window s) (RateLimiter._long s)).
  assert (E1 : (Z.of_nat (length (purge (now w) (RateLimiter.short_window s)
                                    (RateLimiter._short s)))
                <? RateLimiter.short_max s)%Z = true) by (apply Z.ltb_lt; lia).
  assert (E2 : (Z.of_nat (length (purge (now w) (RateLimiter.long_window s)
                                    (RateLimiter._long s)))
                <? RateLimiter.long_max s)%Z = true) by (apply Z.ltb_lt; lia).
  rewrite E1, E2 in E'. simpl in E'. injection E' as Hs1 Hv. subst v.
  exists s1. split; [reflexivity|].
  destruct (simple_attempt_granted _ _ _ E) as (L & A & B).
  split; try assumption; try reflexivity.
  exists []. rewrite app_nil_r. split; [reflexivity|constructor].
Qed.

(** ** [request_with_backoff] *)

Section ExporterClaims.

Variable py_float : string -> option Q.

Lemma next_backoff_pos (b : Q) : 0 < b -> 0 < Exporter.next_backoff b.
Proof.
  intro H. unfold Exporter.next_backoff.
  destruct (Q.min_spec (b * 2) 16) as [[_ E]|[_ E]]; rewrite E; lra.
Qed.


Lemma time_sleep_nonneg (d : Q) (w : World) : 0 <= d -> time_sleep d w = Some (advance d w).
Proof.
  intro H. unfold time_sleep.
  assert (E : Qlt_bool d 0 = false) by (apply Qlt_bool_false_iff; exact H).
  rewrite E. reflexivity.
Qed.



(** One turn of the loop on a 5xx: sleep the backoff. *)
Lemma attempts_5xx (server : nat -> HttpOutcome)
    (fuel n i : nat) (b : Q) (resp : option Response)
    (rl rl' : RateLimiter.t) (w w1 : World) (r : Response) :
  RateLimiter.acquire fuel rl w = Some (rl', w1) ->
  server i = Responded r -> (500 <= status_code r)%Z -> 0 <= b ->
  Exporter.attempts py_float server fuel (S n) i b resp rl w
  = Exporter.attempts py_float server fuel n (S i) (Exporter.next_backoff b) (Some r) rl'
      (advance b (issue_request w1)).
Proof.
  intros Ha Hs Hc Hb. simpl. rewrite Ha, Hs.
  assert (E1 : (status_code r =? 429)%Z = false) by (apply Z.eqb_neq; lia).
  assert (E2 : (500 <=? status_code r)%Z = true) by (apply Z.leb_le; exact Hc).
  rewrite E1, E2. rewrite time_sleep_nonneg by exact Hb. reflexivity.
Qed.


(** A server that always answers 5xx is asked once per remaining attempt,
    and the last answer is what comes back. *)
Lemma attempts_always_5xx (server : nat -> HttpOutcome) (fuel : nat) :
  (forall i, exists r, server i = Responded r /\ (500 <= status_code r)%Z) ->
  forall (n i : nat) (b : Q) (resp : option Response) (rl : RateLimiter.t) (w : World),
    (1 <= RateLimiter.short_max rl)%Z -> (1 <= RateLimiter.long_max rl)%Z ->
    (length (RateLimiter._short rl) + length (RateLimiter._long rl) + 2 * n <= fuel)%nat ->
    0 < b ->
    (n = 0%nat -> exists r0, resp = Some r0 /\ (500 <= status_code r0)%Z) ->
    exists r rl' w',
      Exporter.attempts py_float server fuel n i b resp rl w = Some (Returned r, rl', w') /\
      (500 <= status_code r)%Z /\
      (n <> 0%nat -> server (i + n - 1)%nat = Responded r) /\
      http_calls w' = (http_calls w + n)%nat /\
      printed w' = printed w.
Proof.
  intros Hserver. induction n as [|n IH]; intros i b resp rl w Hs Hl Hfuel Hb Hresp.
  - destruct (Hresp eq_refl) as (r0 & -> & H0).
    exists r0, rl, w. simpl. repeat split; [exact H0|congruence|lia].
  - destruct (simple_acquire_returns fuel rl w Hs Hl) as (rl1 & w1 & Ha & Hacq).
    { unfold simple_pending.
      pose proof (purge_length (now w) (RateLimiter.short_window rl) (RateLimiter._short rl)).
      pose proof (purge_length (now w) (RateLimiter.long_window rl) (RateLimiter._long rl)).
      lia. }
    destruct (Hserver i) as (r & Hr & Hc).
    rewrite (attempts_5xx server fuel n i b resp rl rl1 w w1 r Ha Hr Hc) by lra.
    destruct Hacq as [(L1 & L2 & L3 & L4) A B P C _].
    destruct (IH (S i) (Exporter.next_backoff b) (Some r) rl1
                (advance b (issue_request w1))) as (r' & rl' & w' & H & Hc' & Hlast & Hcalls & Hp).
    + lia.
    + lia.
    + lia.
    + apply next_backoff_pos. exact Hb.
    + intros _. exists r. split; [reflexivity|exact Hc].
    + exists r', rl', w'. split; [exact H|]. split; [exact Hc'|].
      simpl in Hcalls, Hp. repeat split.
      * intros _. destruct n as [|n'].
        { simpl in H. inversion H; subst. replace (i + 1 - 1)%nat with i by lia. exact Hr. }
        { replace (i + S (S n') - 1)%nat with (S i + S n' - 1)%nat by lia.
          apply Hlast. discriminate. }
      * lia.
      * congruence.
Qed.

End ExporterClaims.

(** The simulated server of the scenario: two 429s carrying
    [Retry-After: 2], then a 200 with the payload [body]. *)
Definition throttled_response : Response :=
  {| status_code := 429; retry_after_header := Some "2"%string;
     json_body := None; text := ""%string |}.

Definition ok_response (body : Json) : Response :=
  {| status_code := 200; retry_after_header := None;
     json_body := Some body; text := ""%string |}.

Definition scenario_server (body : Json) (i : nat) : HttpOutcome :=
  match i with
  | 0%nat | 1%nat => Responded throttled_response
  | _ => Responded (ok_response body)
  end.







(** Python's [float] on the header values used below. *)
Definition float_of_digit (s : string) : option Q :=
  if String.eqb s "2" then Some 2
  else if String.eqb s "5" then Some 5
  else None.




(** C6.  Against a server that answers 500 every time, and with the
    limiter's maxima at least 1, [request_with_backoff] asks exactly
    [max_attempts] = 6 times and then hands the caller the sixth 500
    response: it neither loops on nor returns anything but that failure. *)
Theorem always_500_six_attempts
    (py_float : string -> option Q) (server : nat -> HttpOutcome)
    (fuel : nat) (rl : RateLimiter.t) (w : World) :
  (forall i, exists r, server i = Responded r /\ status_code r = 500%Z) ->
  (1 <= RateLimiter.short_max rl)%Z -> (1 <= RateLimiter.long_max rl)%Z ->
  (length (RateLimiter._short rl) + length (RateLimiter._long rl) + 12 <= fuel)%nat ->
  exists r rl' w',
    Exporter.request_with_backoff py_float server fuel rl w = Some (Returned r, rl', w') /\
    server 5%nat = Responded r /\
    status_code r = 500%Z /\
    http_calls w' = (http_calls w + Exporter.max_attempts)%nat /\
    Exporter.max_attempts = 6%nat.
Proof.
  intros Hserver Hs Hl Hfuel.
  destruct (attempts_always_5xx py_float server fuel) with
    (n := 6%nat) (i := 0%nat) (b := 1) (resp := @None Response) (rl := rl) (w := w)
    as (r & rl' & w' & H & Hc & Hlast & Hcalls & _); try assumption; try lia; try lra.
  - intro i. destruct (Hserver i) as (r & Hr & Hc). exists r. split; [exact Hr|lia].
  - exists r, rl', w'. split; [exact H|].
    assert (H5 : server 5%nat = Responded r) by (apply Hlast; discriminate).
    split; [exact H5|]. split.
    + destruct (Hserver 5%nat) as (r5 & Hr5 & Hc5). congruence.
    + split; [exact Hcalls|reflexivity].
Qed.

Definition error_response : Response :=
  {| status_code := 500; retry_after_header := None;
     json_body := None; text := "Internal Server Error"%string |}.

Lemma always_500_six_attempts_witness :
  let w := {| now := 0; slept := []; printed := []; http_calls := 0 |} in
  exists r rl' w',
    Exporter.request_with_backoff float_of_digit (fun _ => Responded error_response)
      12 RateLimiter.init w = Some (Returned r, rl', w') /\
    (fun _ : nat => Responded error_response) 5%nat = Responded r /\
    status_code r = 500%Z /\
    http_calls w' = (http_calls w + Exporter.max_attempts)%nat /\
    Exporter.max_attempts = 6%nat.
Proof.
  apply (always_500_six_attempts float_of_digit (fun _ => Responded error_response) 12
           RateLimiter.init {| now := 0; slept := []; printed := []; http_calls := 0 |}).
  - intro i. exists error_response. split; reflexivity.
  - simpl. lia.
  - simpl. lia.
  - simpl. lia.
Defined.

(** The run of C6 on a fresh limiter, step by step: six sleeps, 1, 2, 4, 8,
    16 and 16 seconds, the last one after the sixth answer. *)
Example always_500_sleeps :
  option_map (fun out => (fst (fst out), slept (snd out), http_calls (snd out)))
    (Exporter.request_with_backoff float_of_digit (fun _ => Responded error_response)
       1 RateLimiter.init {| now := 0; slept := []; printed := []; http_calls := 0 |})
  = Some (Returned error_response, [1; 2; 4; 8; 16; 16], 6%nat).
Proof. vm_compute. reflexivity. Qed.

(** ** [AdaptiveRateLimiter.acquire]: what it returns, and that it returns *)

Lemma py_int_ge_1 (x : Q) : 1 <= x -> (1 <= py_int x)%Z.
Proof.
  intro H. rewrite py_int_nonneg by lra.
  change 1%Z with (Qfloor 1). apply Qfloor_resp_le. exact H.
Qed.

Lemma effective_ge_1 (s : AdaptiveRateLimiter.t) (m : Q) (p : Priority) :
  (2 <= AdaptiveRateLimiter.short_limit s)%Z ->
  (2 <= AdaptiveRateLimiter.long_limit s)%Z ->
  0 <= AdaptiveRateLimiter.burst_allowance s ->
  1 <= m -> m <= 2 ->
  (1 <= AdaptiveRateLimiter.effective_short s m p)%Z /\
  (1 <= AdaptiveRateLimiter.effective_long s m)%Z.
Proof.
  intros Hs Hl Hb Hm1 Hm2.
  assert (Hqs : 2 <= inject_Z (AdaptiveRateLimiter.short_limit s))
    by (change 2 with (inject_Z 2); rewrite <- Zle_Qle; exact Hs).
  assert (Hql : 2 <= inject_Z (AdaptiveRateLimiter.long_limit s))
    by (change 2 with (inject_Z 2); rewrite <- Zle_Qle; exact Hl).
  assert (Hes : (1 <= py_int (inject_Z (AdaptiveRateLimiter.short_limit s) / m))%Z).
  { apply py_int_ge_1. apply Qle_shift_div_l; lra. }
  split.
  - unfold AdaptiveRateLimiter.effective_short.
    destruct (is_HIGH p); [|exact Hes].
    apply py_int_ge_1.
    assert (1 <= inject_Z (py_int (inject_Z (AdaptiveRateLimiter.short_limit s) / m)))
      by (change 1 with (inject_Z 1); rewrite <- Zle_Qle; exact Hes).
    nra.
  - unfold AdaptiveRateLimiter.effective_long.
    apply py_int_ge_1. apply Qle_shift_div_l; lra.
Qed.

Definition adaptive_pending (t_now : Q) (s : AdaptiveRateLimiter.t) : nat :=
  length (purge t_now (AdaptiveRateLimiter.short_window s)
            (AdaptiveRateLimiter.short_requests s))
  + length (purge t_now (AdaptiveRateLimiter.long_window s)
              (AdaptiveRateLimiter.long_requests s)).

Lemma adaptive_attempt_wait (t_now d : Q) (p : Priority) (s s1 : AdaptiveRateLimiter.t) :
  (2 <= AdaptiveRateLimiter.short_limit s)%Z ->
  (2 <= AdaptiveRateLimiter.long_limit s)%Z ->
  0 <= AdaptiveRateLimiter.burst_allowance s ->
  AdaptiveRateLimiter.backoff_multiplier s <= 2 ->
  AdaptiveRateLimiter.attempt t_now p s = (s1, Wait d) ->
  config s1 = config s /\
  AdaptiveRateLimiter.backoff_multiplier s1 <= 2 /\
  0 < d /\
  (adaptive_pending (t_now + d) s1 < adaptive_pending t_now s)%nat.
Proof.
  intros Hs Hl Hb Hm.
  pose proof (adapt_ge_1 (AdaptiveRateLimiter.consecutive_429s s)
                (AdaptiveRateLimiter.backoff_multiplier s)) as Hm1.
  pose proof (adapt_le_2 (AdaptiveRateLimiter.consecutive_429s s) _ Hm) as Hm2.
  destruct (effective_ge_1 s _ p Hs Hl Hb Hm1 Hm2) as [Hes Hel].
  unfold AdaptiveRateLimiter.attempt, adaptive_pending,
    AdaptiveRateLimiter._calculate_wait_time.
  set (m := AdaptiveRateLimiter.adapt _ _) in *.
  set (sh := purge t_now (AdaptiveRateLimiter.short_window s)
               (AdaptiveRateLimiter.short_requests s)).
  set (lg := purge t_now (AdaptiveRateLimiter.long_window s)
               (AdaptiveRateLimiter.long_requests s)).
  destruct (Z.of_nat (length sh) <? AdaptiveRateLimiter.effective_short s m p)%Z eqn:Es;
  destruct (Z.of_nat (length lg) <? AdaptiveRateLimiter.effective_long s m)%Z eqn:El;
    simpl; intro H; inversion H; subst; clear H; simpl;
    match goal with
    | |- context [py_max3 ?a ?b ?c] =>
        destruct (py_max3_bounds a b c) as (B1 & B2 & B3)
    end;
    (split; [reflexivity|]);
    (split; [exact Hm2|]);
    (split; [lra|]).
  - pose proof (blocked_window_shrinks t_now _ _ _ _ Hel El B2).
    match goal with
    | |- context [purge ?t (AdaptiveRateLimiter.short_window s) sh] =>
        pose proof (purge_length t (AdaptiveRateLimiter.short_window s) sh)
    end.
    fold lg in H. lia.
  - pose proof (blocked_window_shrinks t_now _ _ _ _ Hes Es B1).
    match goal with
    | |- context [purge ?t (AdaptiveRateLimiter.long_window s) lg] =>
        pose proof (purge_length t (AdaptiveRateLimiter.long_window s) lg)
    end.
    fold sh in H. lia.
  - pose proof (blocked_window_shrinks t_now _ _ _ _ Hes Es B1).
    pose proof (blocked_window_shrinks t_now _ _ _ _ Hel El B2).
    fold sh in H. fold lg in H0. lia.
Qed.

(** Whatever the priority and the state, a returned [acquire] has returned
    0, printed nothing and issued no request. *)
Lemma adaptive_acquire_zero (fuel : nat) :
  forall (p : Priority) (s : AdaptiveRateLimiter.t) (w : World) r s' w',
    AdaptiveRateLimiter.acquire fuel p s w = Some (r, s', w') ->
    r = 0 /\ printed w' = printed w /\ http_calls w' = http_calls w /\
    config s' = config s /\
    AdaptiveRateLimiter.consecutive_429s s' = AdaptiveRateLimiter.consecutive_429s s /\
    AdaptiveRateLimiter.last_429_time s' = AdaptiveRateLimiter.last_429_time s.
Proof.
  induction fuel as [|fuel IH]; intros p s w r s' w' H; simpl in H; [discriminate|].
  pose proof (adaptive_attempt_config (now w) p s) as Hc.
  assert (Hk : AdaptiveRateLimiter.consecutive_429s
                 (fst (AdaptiveRateLimiter.attempt (now w) p s))
               = AdaptiveRateLimiter.consecutive_429s s /\
               AdaptiveRateLimiter.last_429_time
                 (fst (AdaptiveRateLimiter.attempt (now w) p s))
               = AdaptiveRateLimiter.last_429_time s).
  { unfold AdaptiveRateLimiter.attempt. destruct (_ && _); split; reflexivity. }
  destruct (AdaptiveRateLimiter.attempt (now w) p s) as [s1 [|d]]; simpl in Hc, Hk.
  - inversion H; subst. destruct Hk. repeat split; assumption.
  - apply IH in H. destruct H as (Hr & Hp & Hh & Hcfg & Hc1 & Hl1).
    destruct Hk as [K1 K2].
    repeat split; try congruence.
    + rewrite Hp. destruct (Qlt_bool 0 d); reflexivity.
    + rewrite Hh. destruct (Qlt_bool 0 d); reflexivity.
Qed.

(** With limits of at least 2, a burst allowance that is not negative and a
    multiplier of at most 2, [acquire] returns within one check per pending
    stamp, plus one. *)
Lemma adaptive_acquire_returns (fuel : nat) :
  forall (p : Priority) (s : AdaptiveRateLimiter.t) (w : World),
    (2 <= AdaptiveRateLimiter.short_limit s)%Z ->
    (2 <= AdaptiveRateLimiter.long_limit s)%Z ->
    0 <= AdaptiveRateLimiter.burst_allowance s ->
    AdaptiveRateLimiter.backoff_multiplier s <= 2 ->
    (adaptive_pending (now w) s < fuel)%nat ->
    exists s' w', AdaptiveRateLimiter.acquire fuel p s w = Some (0, s', w').
Proof.
  induction fuel as [|fuel IH]; intros p s w Hs Hl Hb Hm Hfuel; [lia|].
  simpl. destruct (AdaptiveRateLimiter.attempt (now w) p s) as [s1 [|d]] eqn:E.
  - exists s1, w. reflexivity.
  - destruct (adaptive_attempt_wait _ _ _ _ _ Hs Hl Hb Hm E) as (Hc & Hm' & Hd & Hshrink).
    destruct (config_fields s s1 Hc) as (C1 & C2 & C3 & C4 & _ & _).
    assert (C5 : AdaptiveRateLimiter.burst_allowance s1 = AdaptiveRateLimiter.burst_allowance s).
    { unfold config in Hc. congruence. }
    assert (Ed : Qlt_bool 0 d = true) by (apply Qlt_bool_iff; exact Hd).
    rewrite Ed.
    apply IH; try lia; try (rewrite C5; exact Hb); try exact Hm'.
    simpl. lia.
Qed.

(** ** [EnhancedRiotAPI._make_request] *)

Definition is_wait_msg (m : Msg) : bool :=
  match m with
  | MsgRateLimitingWaiting _ => true
  | _ => false
  end.

(** The "Rate limiting: waiting" lines among what has been printed. *)
Definition wait_msgs (w : World) : list Msg := filter is_wait_msg (printed w).

Lemma wait_msgs_print (m : Msg) (w : World) :
  is_wait_msg m = false -> wait_msgs (print m w) = wait_msgs w.
Proof.
  intro H. unfold wait_msgs, print. simpl. rewrite filter_app. simpl.
  rewrite H. apply app_nil_r.
Qed.

Lemma wait_msgs_time_sleep (d : Q) (w w' : World) :
  time_sleep d w = Some w' -> wait_msgs w' = wait_msgs w.
Proof.
  unfold time_sleep. destruct (Qlt_bool d 0); intro H; inversion H. reflexivity.
Qed.

Section MakeRequestClaims.

Import EnhancedRiotAPI.

Variable py_float : string -> option Q.
Variable _get_cache_key : string -> list (string * Json) -> string.

Lemma on_exception_wait_msgs (e : Exn) (api : t) (w : World) :
  wait_msgs (snd (on_exception e api w)) = wait_msgs w.
Proof. unfold on_exception. simpl. apply wait_msgs_print. reflexivity. Qed.

Lemma on_response_wait_msgs (r : Response) (request : ApiRequest) (key : string)
    (api : t) (w : World) :
  wait_msgs (snd (on_response py_float r request key api w)) = wait_msgs w.
Proof.
  unfold on_response.
  destruct (status_code r =? 200)%Z.
  { destruct (json_body r); [|apply on_exception_wait_msgs].
    destruct (LRUCache.set _ _ _ _ _); [reflexivity|apply on_exception_wait_msgs]. }
  destruct (status_code r =? 429)%Z.
  { destruct (retry_after_seconds py_float r) as [q|]; [|apply on_exception_wait_msgs].
    destruct (time_sleep q _) as [w'|] eqn:E.
    - simpl. rewrite (wait_msgs_time_sleep _ _ _ E). apply wait_msgs_print. reflexivity.
    - rewrite on_exception_wait_msgs. apply wait_msgs_print. reflexivity. }
  destruct (500 <=? status_code r)%Z.
  { destruct (time_sleep _ _) as [w'|] eqn:E.
    - simpl. rewrite (wait_msgs_time_sleep _ _ _ E). apply wait_msgs_print. reflexivity.
    - rewrite on_exception_wait_msgs. apply wait_msgs_print. reflexivity. }
  simpl. apply wait_msgs_print. reflexivity.
Qed.

(** Past a cache miss and a returned [acquire], [_make_request] is the
    [try] block run on what [session.request] does. *)
Lemma make_request_after_miss (fuel : nat) (http : HttpOutcome) (request : ApiRequest)
    (api : t) (w : World) (wt : Q) (rl : AdaptiveRateLimiter.t) (w1 : World) :
  let key := _get_cache_key (url request) (params request) in
  is_None (fst (LRUCache.get (now w) key (cache api))) = true ->
  AdaptiveRateLimiter.acquire fuel (priority request) (rate_limiter api) w
  = Some (wt, rl, w1) ->
  _make_request py_float _get_cache_key fuel http request api w
  = Some (match http with
          | HttpRaised =>
              on_exception TransportError
                (with_rate_limiter rl (with_cache (snd (LRUCache.get (now w) key (cache api))) api))
                (issue_request w1)
          | Responded r =>
              on_response py_float r request key
                (with_rate_limiter rl (with_cache (snd (LRUCache.get (now w) key (cache api))) api))
                (issue_request w1)
          end).
Proof.
  intros key Hmiss Ha. unfold _make_request. fold key.
  destruct (LRUCache.get (now w) key (cache api)) as [cached c] eqn:Eg.
  simpl in Hmiss. rewrite Hmiss. simpl. rewrite Ha.
  destruct (adaptive_acquire_zero _ _ _ _ _ _ _ Ha) as (-> & _).
  change (Qlt_bool 0 0) with false. simpl.
  destruct http; reflexivity.
Qed.

Lemma make_request_wait_msgs (fuel : nat) (http : HttpOutcome) (request : ApiRequest)
    (api api' : t) (w w' : World) (res : Json) :
  _make_request py_float _get_cache_key fuel http request api w = Some (res, api', w') ->
  wait_msgs w' = wait_msgs w.
Proof.
  unfold _make_request.
  destruct (LRUCache.get _ _ _) as [cached c].
  destruct (is_None cached); simpl.
  - destruct (AdaptiveRateLimiter.acquire _ _ _ _) as [[[wt rl] w1]|] eqn:Ha; [|discriminate].
    destruct (adaptive_acquire_zero _ _ _ _ _ _ _ Ha) as (-> & Hp & _).
    change (Qlt_bool 0 0) with false. simpl.
    assert (Hw : wait_msgs (issue_request w1) = wait_msgs w).
    { unfold wait_msgs. simpl. rewrite Hp. reflexivity. }
    destruct http as [|r]; intro H; inversion H; subst; clear H.
    + reflexivity || (rewrite <- Hw; apply wait_msgs_print; reflexivity).
    + rewrite <- Hw.
      match goal with
      | H : on_response _ _ _ _ ?a ?x = _ |- _ =>
          pose proof (on_response_wait_msgs r request
                        (_get_cache_key (url request) (params request)) a x) as Hr;
          rewrite H in Hr; exact Hr
      end.
  - intro H. inversion H. reflexivity.
Qed.

End MakeRequestClaims.

Section QueuedPathClaims.

Import EnhancedRiotAPI.

Variable py_float : string -> option Q.
Variable _get_cache_key : string -> list (string * Json) -> string.






(** C9.  [acquire] returns on a limiter with limits of at least 2, a burst
    allowance that is not negative and a multiplier of at most 2; whenever
    it returns, at any priority and in any state, it returns 0, which fails
    the test [wait_time > 0]; so no run of [_make_request] prints the
    "Rate limiting: waiting" line. *)
Theorem acquire_returns_zero
    (fuel : nat) (p : Priority) (s : AdaptiveRateLimiter.t) (w : World) :
  (2 <= AdaptiveRateLimiter.short_limit s)%Z ->
  (2 <= AdaptiveRateLimiter.long_limit s)%Z ->
  0 <= AdaptiveRateLimiter.burst_allowance s ->
  AdaptiveRateLimiter.backoff_multiplier s <= 2 ->
  (length (AdaptiveRateLimiter.short_requests s)
   + length (AdaptiveRateLimiter.long_requests s) < fuel)%nat ->
  (exists s' w', AdaptiveRateLimiter.acquire fuel p s w = Some (0, s', w')) /\
  (forall fuel0 p0 s0 w0 wait_time s' w',
      AdaptiveRateLimiter.acquire fuel0 p0 s0 w0 = Some (wait_time, s', w') ->
      wait_time = 0 /\ Qlt_bool 0 wait_time = false) /\
  (forall fuel0 http request api w0 res api' w',
      _make_request py_float _get_cache_key fuel0 http request api w0
      = Some (res, api', w') ->
      forall d, In (MsgRateLimitingWaiting d) (printed w') ->
                In (MsgRateLimitingWaiting d) (printed w0)).
Proof.
  intros Hs Hl Hb Hm Hfuel. split; [|split].
  - apply adaptive_acquire_returns; try assumption.
    unfold adaptive_pending.
    pose proof (purge_length (now w) (AdaptiveRateLimiter.short_window s)
                  (AdaptiveRateLimiter.short_requests s)).
    pose proof (purge_length (now w) (AdaptiveRateLimiter.long_window s)
                  (AdaptiveRateLimiter.long_requests s)).
    lia.
  - intros fuel0 p0 s0 w0 wait_time s' w' H.
    destruct (adaptive_acquire_zero _ _ _ _ _ _ _ H) as (-> & _).
    split; reflexivity.
  - intros fuel0 http request api w0 res api' w' H d Hin.
    pose proof (make_request_wait_msgs py_float _get_cache_key _ _ _ _ _ _ _ _ H) as E.
    assert (Hf : In (MsgRateLimitingWaiting d) (wait_msgs w')).
    { unfold wait_msgs. apply filter_In. split; [exact Hin|reflexivity]. }
    rewrite E in Hf. unfold wait_msgs in Hf. apply filter_In in Hf. tauto.
Qed.

(** C10 (as amended).  When the cache holds an unexpired entry for the
    request's key, with a payload that is not [None], [_make_request]
    returns that payload and touches the cache only: the limiter, the queue
    and both request counters are as before, and the world is the same,
    with no sleep, no print and no HTTP call, whatever fuel [acquire] would
    have had. *)
Theorem cache_hit_frame
    (fuel : nat) (http : HttpOutcome) (request : ApiRequest) (api : t) (w : World)
    (e : LRUCache.CacheEntry) :
  LRUCache.od_get (_get_cache_key (url request) (params request))
    (LRUCache.cache (cache api)) = Some e ->
  now w <= LRUCache.expires_at e ->
  is_None (LRUCache.data e) = false ->
  exists api',
    _make_request py_float _get_cache_key fuel http request api w
    = Some (LRUCache.data e, api', w) /\
    rate_limiter api' = rate_limiter api /\
    request_queue api' = request_queue api /\
    total_requests api' = total_requests api /\
    failed_requests api' = failed_requests api /\
    LRUCache.hits (cache api') = (LRUCache.hits (cache api) + 1)%Z /\
    LRUCache.misses (cache api') = LRUCache.misses (cache api).
Proof.
  intros Hg Hle Hsome.
  destruct (get_visible (now w) _ (cache api) e Hg Hle) as (H1 & H2 & H3 & _).
  unfold _make_request.
  destruct (LRUCache.get (now w) (_get_cache_key (url request) (params request)) (cache api))
    as [cached c]. simpl in H1, H2, H3. subst cached.
  rewrite Hsome. simpl.
  eexists. split; [reflexivity|]. simpl. repeat split; assumption.
Qed.

End QueuedPathClaims.

(** ** Concrete runs of the queued path *)

(** A stand-in for the MD5 digest: the URL itself. *)
Definition plain_cache_key (u : string) (_ : list (string * Json)) : string := u.

Definition world0 : World := {| now := 0; slept := []; printed := []; http_calls := 0 |}.

(** [EnhancedRiotAPI(api_key)] just built. *)
Definition api0 : EnhancedRiotAPI.t :=
  {| EnhancedRiotAPI.rate_limiter := AdaptiveRateLimiter.init;
     EnhancedRiotAPI.cache := LRUCache.init 2000;
     EnhancedRiotAPI.request_queue := [];
     EnhancedRiotAPI.total_requests := 0;
     EnhancedRiotAPI.failed_requests := 0 |}.

Definition request_at (retries : Z) : EnhancedRiotAPI.ApiRequest :=
  {| EnhancedRiotAPI.url := "https://euw1.api.riotgames.com/lol/summoner/v4/summoners/me";
     EnhancedRiotAPI.method := "GET";
     EnhancedRiotAPI.priority := NORMAL;
     EnhancedRiotAPI.params := [];
     EnhancedRiotAPI.headers := [];
     EnhancedRiotAPI.timestamp := 0;
     EnhancedRiotAPI.retry_count := retries |}.


(** The limiter after one granted check at clock 0. *)
Definition limiter_after_grant : AdaptiveRateLimiter.t :=
  fst (AdaptiveRateLimiter.attempt 0 NORMAL AdaptiveRateLimiter.init).





Lemma acquire_returns_zero_witness :
  (exists s' w',
      AdaptiveRateLimiter.acquire 1 HIGH AdaptiveRateLimiter.init world0 = Some (0, s', w')) /\
  (forall fuel0 p0 s0 w0 wait_time s' w',
      AdaptiveRateLimiter.acquire fuel0 p0 s0 w0 = Some (wait_time, s', w') ->
      wait_time = 0 /\ Qlt_bool 0 wait_time = false) /\
  (forall fuel0 http request api w0 res api' w',
      EnhancedRiotAPI._make_request float_of_digit plain_cache_key fuel0 http request api w0
      = Some (res, api', w') ->
      forall d, In (MsgRateLimitingWaiting d) (printed w') ->
                In (MsgRateLimitingWaiting d) (printed w0)).
Proof.
  apply (acquire_returns_zero float_of_digit plain_cache_key 1 HIGH
           AdaptiveRateLimiter.init world0).
  - simpl. lia.
  - simpl. lia.
  - simpl. unfold Qle. simpl. lia.
  - simpl. unfold Qle. simpl. lia.
  - simpl. lia.
Defined.

Definition cached_entry : LRUCache.CacheEntry :=
  {| LRUCache.data := JStr "cached"; LRUCache.expires_at := 300 |}.

(** A client whose cache holds an entry for the request of [request_at]. *)
Definition api_with_entry : EnhancedRiotAPI.t :=
  EnhancedRiotAPI.with_cache
    {| LRUCache.cache := [(EnhancedRiotAPI.url (request_at 0), cached_entry)];
       LRUCache.max_size := 2000; LRUCache.hits := 0; LRUCache.misses := 0 |}
    api0.

Lemma cache_hit_frame_witness :
  exists api',
    EnhancedRiotAPI._make_request float_of_digit plain_cache_key 0 HttpRaised
      (request_at 0) api_with_entry world0
    = Some (LRUCache.data cached_entry, api', world0) /\
    EnhancedRiotAPI.rate_limiter api' = EnhancedRiotAPI.rate_limiter api_with_entry /\
    EnhancedRiotAPI.request_queue api' = EnhancedRiotAPI.request_queue api_with_entry /\
    EnhancedRiotAPI.total_requests api' = EnhancedRiotAPI.total_requests api_with_entry /\
    EnhancedRiotAPI.failed_requests api' = EnhancedRiotAPI.failed_requests api_with_entry /\
    LRUCache.hits (EnhancedRiotAPI.cache api')
    = (LRUCache.hits (EnhancedRiotAPI.cache api_with_entry) + 1)%Z /\
    LRUCache.misses (EnhancedRiotAPI.cache api')
    = LRUCache.misses (EnhancedRiotAPI.cache api_with_entry).
Proof.
  apply (cache_hit_frame float_of_digit plain_cache_key 0 HttpRaised (request_at 0)
           api_with_entry world0 cached_entry).
  - reflexivity.
  - simpl. unfold Qle. simpl. lia.
  - reflexivity.
Defined.

(** The entry the client itself stores after a 200 whose body is [null]. *)
Definition null_entry : LRUCache.CacheEntry :=
  {| LRUCache.data := JNull; LRUCache.expires_at := 300 |}.

Definition api_with_null_entry : EnhancedRiotAPI.t :=
  EnhancedRiotAPI.with_cache
    {| LRUCache.cache := [(EnhancedRiotAPI.url (request_at 0), null_entry)];
       LRUCache.max_size := 2000; LRUCache.hits := 0; LRUCache.misses := 0 |}
    api0.

(** C10 as stated fails on an unexpired entry whose payload is [None]:
    [cache.get] counts the hit and hands back [None], which
    [if cached is not None] takes for a miss; the limiter grants and stamps
    a permit, the request is issued, [total_requests] goes to 1 and the
    answer of the network is what comes back. *)
Lemma cache_hit_none_counterexample :
  LRUCache.od_get
    (plain_cache_key (EnhancedRiotAPI.url (request_at 0))
       (EnhancedRiotAPI.params (request_at 0)))
    (LRUCache.cache (EnhancedRiotAPI.cache api_with_null_entry)) = Some null_entry /\
  now world0 <= LRUCache.expires_at null_entry /\
  option_map
    (fun out =>
       (fst (fst out),
        EnhancedRiotAPI.total_requests (snd (fst out)),
        AdaptiveRateLimiter.long_requests (EnhancedRiotAPI.rate_limiter (snd (fst out))),
        LRUCache.hits (EnhancedRiotAPI.cache (snd (fst out))),
        http_calls (snd out)))
    (EnhancedRiotAPI._make_request float_of_digit plain_cache_key 1
       (Responded (ok_response (JStr "fresh"))) (request_at 0) api_with_null_entry world0)
  = Some (JStr "fresh", 1%Z, [0], 1%Z, 1%nat).
Proof.
  split; [reflexivity|]. split; [unfold Qle; simpl; lia|]. vm_compute. reflexivity.
Qed.

(** ** A call of [acquire] is a run of checks *)

(** The checks of one call happen at non-decreasing clock readings and end
    with the single grant, so the window invariant covers every sequence of
    calls. *)
Lemma simple_acquire_is_run (fuel : nat) :
  forall (s : RateLimiter.t) (w : World) s' w',
    RateLimiter.acquire fuel s w = Some (s', w') ->
    exists cs,
      StronglySorted Qle (now w :: cs) /\
      RateLimiter.run (now w :: cs) s = (s', [now w']).
Proof.
  induction fuel as [|fuel IH]; intros s w s' w' H; simpl in H; [discriminate|].
  destruct (RateLimiter.attempt (now w) s) as [s1 [|d]] eqn:E.
  - inversion H; subst. exists []. split.
    + constructor; constructor.
    + simpl. rewrite E. reflexivity.
  - assert (Hd : 0 < d).
    { unfold RateLimiter.attempt in E. destruct (_ && _); inversion E; subst.
      match goal with
      | |- 0 < py_max3 ?a ?b ?c => destruct (py_max3_bounds a b c) as (_ & _ & B)
      end. lra. }
    destruct (IH _ _ _ _ H) as (cs & Hs & Hr). simpl in Hs, Hr.
    exists ((now w + d) :: cs). split.
    + constructor; [exact Hs|].
      inversion Hs as [|? ? _ Hall]; subst.
      constructor; [lra|].
      eapply Forall_impl; [|exact Hall]. simpl. intros t Ht. lra.
    + change (RateLimiter.run (now w :: (now w + d) :: cs) s)
        with (match RateLimiter.attempt (now w) s with
              | (s0, Granted) =>
                  let (s'', gs) := RateLimiter.run ((now w + d) :: cs) s0 in
                  (s'', now w :: gs)
              | (s0, Wait _) => RateLimiter.run ((now w + d) :: cs) s0
              end).
      rewrite E. exact Hr.
Qed.

Lemma adaptive_acquire_is_run (fuel : nat) :
  forall (p : Priority) (s : AdaptiveRateLimiter.t) (w : World) r s' w',
    AdaptiveRateLimiter.acquire fuel p s w = Some (r, s', w') ->
    exists cs,
      StronglySorted Qle (now w :: cs) /\
      AdaptiveRateLimiter.run
        (map (fun c => AdaptiveRateLimiter.Attempt c p) (now w :: cs)) s
      = (s', [now w']).
Proof.
  induction fuel as [|fuel IH]; intros p s w r s' w' H; simpl in H; [discriminate|].
  destruct (AdaptiveRateLimiter.attempt (now w) p s) as [s1 [|d]] eqn:E.
  - inversion H; subst. exists []. split.
    + constructor; constructor.
    + simpl. rewrite E. reflexivity.
  - assert (Hd : 0 < d).
    { unfold AdaptiveRateLimiter.attempt, AdaptiveRateLimiter._calculate_wait_time in E.
      destruct (_ && _); inversion E; subst.
      match goal with
      | |- 0 < py_max3 ?a ?b ?c => destruct (py_max3_bounds a b c) as (_ & _ & B)
      end. lra. }
    assert (Ed : Qlt_bool 0 d = true) by (apply Qlt_bool_iff; exact Hd).
    rewrite Ed in H.
    destruct (IH _ _ _ _ _ _ H) as (cs & Hs & Hr). simpl in Hs.
    exists ((now w + d) :: cs). split.
    + constructor; [exact Hs|].
      inversion Hs as [|? ? _ Hall]; subst.
      constructor; [lra|].
      eapply Forall_impl; [|exact Hall]. simpl. intros t Ht. lra.
    + change (now (advance d w)) with (now w + d) in Hr.
      set (rest := map (fun c => AdaptiveRateLimiter.Attempt c p) ((now w + d) :: cs)) in *.
      simpl. rewrite E. exact Hr.
Qed.

(** * Further properties of the modelled code *)

(** ** [AdaptiveRateLimiter]: the backoff state over any run *)

Lemma report_success_count (t_now : Q) (s : AdaptiveRateLimiter.t) :
  (60 < t_now - AdaptiveRateLimiter.last_429_time s ->
   AdaptiveRateLimiter.consecutive_429s (AdaptiveRateLimiter.report_success t_now s)
   = Z.max 0 (AdaptiveRateLimiter.consecutive_429s s - 1)) /\
  (t_now - AdaptiveRateLimiter.last_429_time s <= 60 ->
   AdaptiveRateLimiter.report_success t_now s = s) /\
  AdaptiveRateLimiter.last_429_time (AdaptiveRateLimiter.report_success t_now s)
  = AdaptiveRateLimiter.last_429_time s /\
  AdaptiveRateLimiter.backoff_multiplier (AdaptiveRateLimiter.report_success t_now s)
  = AdaptiveRateLimiter.backoff_multiplier s.
Proof.
  unfold AdaptiveRateLimiter.report_success.
  destruct (Qlt_bool 60 (t_now - AdaptiveRateLimiter.last_429_time s)) eqn:E.
  - apply Qlt_bool_iff in E. repeat split; try reflexivity. intro H. lra.
  - apply Qlt_bool_false_iff in E. repeat split; try reflexivity. intro H. lra.
Qed.

(** From a state with a count of at least 0 and a multiplier between 1 and
    2, no interleaving of checks, 429 reports and success reports leaves
    these bounds: the effective limits are never cut below half. *)
Theorem backoff_state_bounds (es : list AdaptiveRateLimiter.Event) :
  forall s : AdaptiveRateLimiter.t,
    (0 <= AdaptiveRateLimiter.consecutive_429s s)%Z ->
    1 <= AdaptiveRateLimiter.backoff_multiplier s ->
    AdaptiveRateLimiter.backoff_multiplier s <= 2 ->
    (0 <= AdaptiveRateLimiter.consecutive_429s (fst (AdaptiveRateLimiter.run es s)))%Z /\
    1 <= AdaptiveRateLimiter.backoff_multiplier (fst (AdaptiveRateLimiter.run es s)) /\
    AdaptiveRateLimiter.backoff_multiplier (fst (AdaptiveRateLimiter.run es s)) <= 2.
Proof.
  induction es as [|e es IH]; intros s Hc H1 H2; [simpl; repeat split; assumption|].
  destruct e as [t_now p|t_now|t_now]; simpl.
  - destruct (attempt_multiplier t_now p s) as [Em Ec].
    assert (Hs1 : (0 <= AdaptiveRateLimiter.consecutive_429s
                          (fst (AdaptiveRateLimiter.attempt t_now p s)))%Z /\
                  1 <= AdaptiveRateLimiter.backoff_multiplier
                         (fst (AdaptiveRateLimiter.attempt t_now p s)) /\
                  AdaptiveRateLimiter.backoff_multiplier
                    (fst (AdaptiveRateLimiter.attempt t_now p s)) <= 2).
    { rewrite Em, Ec. unfold AdaptiveRateLimiter.next_multiplier.
      repeat split; [exact Hc|apply adapt_ge_1|apply adapt_le_2; exact H2]. }
    destruct (AdaptiveRateLimiter.attempt t_now p s) as [s1 [|d]]; simpl in Hs1;
      destruct Hs1 as (A & B & C).
    + specialize (IH s1 A B C).
      destruct (AdaptiveRateLimiter.run es s1) as [s2 gs]. exact IH.
    + exact (IH s1 A B C).
  - apply IH; unfold AdaptiveRateLimiter.report_429;
      destruct (Qlt_bool _ _); simpl; try assumption; lia.
  - destruct (report_success_count t_now s) as (_ & _ & _ & Em).
    apply IH; rewrite ?Em; try assumption.
    unfold AdaptiveRateLimiter.report_success. destruct (Qlt_bool _ _); simpl; lia.
Qed.

Lemma backoff_state_bounds_witness :
  let es := [AdaptiveRateLimiter.Report429 100; AdaptiveRateLimiter.Attempt 101 HIGH;
             AdaptiveRateLimiter.ReportSuccess 200; AdaptiveRateLimiter.Attempt 201 LOW] in
  (0 <= AdaptiveRateLimiter.consecutive_429s
          (fst (AdaptiveRateLimiter.run es AdaptiveRateLimiter.init)))%Z /\
  1 <= AdaptiveRateLimiter.backoff_multiplier
         (fst (AdaptiveRateLimiter.run es AdaptiveRateLimiter.init)) /\
  AdaptiveRateLimiter.backoff_multiplier
    (fst (AdaptiveRateLimiter.run es AdaptiveRateLimiter.init)) <= 2.
Proof.
  apply (backoff_state_bounds
           [AdaptiveRateLimiter.Report429 100; AdaptiveRateLimiter.Attempt 101 HIGH;
            AdaptiveRateLimiter.ReportSuccess 200; AdaptiveRateLimiter.Attempt 201 LOW]
           AdaptiveRateLimiter.init).
  - simpl. lia.
  - simpl. unfold Qle. simpl. lia.
  - simpl. unfold Qle. simpl. lia.
Defined.

(** With a multiplier between 1 and 2 the effective long-window limit is at
    least half the configured one, rounded down, and at most all of it. *)
Theorem effective_limit_at_least_half (s : AdaptiveRateLimiter.t) (m : Q) :
  (0 <= AdaptiveRateLimiter.long_limit s)%Z -> 1 <= m -> m <= 2 ->
  (AdaptiveRateLimiter.long_limit s / 2 <= AdaptiveRateLimiter.effective_long s m)%Z /\
  (AdaptiveRateLimiter.effective_long s m <= AdaptiveRateLimiter.long_limit s)%Z.
Proof.
  intros Hl H1 H2. split; [|apply effective_long_le; assumption].
  unfold AdaptiveRateLimiter.effective_long.
  destruct (shrink_by_multiplier _ m Hl H1) as [H0 _].
  rewrite py_int_nonneg by exact H0.
  rewrite Zdiv_Qdiv. apply Qfloor_resp_le.
  pose proof (inject_Z_nonneg _ Hl) as Hq.
  change (inject_Z 2) with 2.
  apply Qle_shift_div_l; [lra|].
  assert (E : inject_Z (AdaptiveRateLimiter.long_limit s) / 2 * m
              == inject_Z (AdaptiveRateLimiter.long_limit s) * (m / 2)) by (field).
  rewrite E. assert (m / 2 <= 1) by (apply Qle_shift_div_r; lra). nra.
Qed.

Lemma effective_limit_at_least_half_witness :
  (AdaptiveRateLimiter.long_limit AdaptiveRateLimiter.init / 2
   <= AdaptiveRateLimiter.effective_long AdaptiveRateLimiter.init (16 # 10))%Z /\
  (AdaptiveRateLimiter.effective_long AdaptiveRateLimiter.init (16 # 10)
   <= AdaptiveRateLimiter.long_limit AdaptiveRateLimiter.init)%Z.
Proof.
  apply (effective_limit_at_least_half AdaptiveRateLimiter.init (16 # 10)).
  - simpl. lia.
  - unfold Qle. simpl. lia.
  - unfold Qle. simpl. lia.
Defined.

(** ** [AdaptiveRateLimiter]: relaxation of the multiplier *)

Definition is_attempt (e : AdaptiveRateLimiter.Event) : bool :=
  match e with
  | AdaptiveRateLimiter.Attempt _ _ => true
  | _ => false
  end.

Definition is_report_429 (e : AdaptiveRateLimiter.Event) : bool :=
  match e with
  | AdaptiveRateLimiter.Report429 _ => true
  | _ => false
  end.

(** One step of the decay [max(1.0, multiplier * 0.95)]. *)
Lemma relax_step (m b b' : Q) :
  m <= b -> b * (95 # 100) <= b' -> 1 <= b' -> AdaptiveRateLimiter.adapt 0 m <= b'.
Proof.
  intros Hm Hb H1. unfold AdaptiveRateLimiter.adapt. simpl.
  apply Q.max_lub; lra.
Qed.

(** Below 1/0.95 the decay lands on 1.0 itself. *)
Lemma relax_to_one (m : Q) : m * (95 # 100) <= 1 -> AdaptiveRateLimiter.adapt 0 m = 1.
Proof.
  intro H. unfold AdaptiveRateLimiter.adapt. simpl.
  unfold Qmax, GenericMinMax.gmax.
  destruct (1 ?= m * (95 # 100)) eqn:E; try reflexivity.
  apply Qlt_alt in E. lra.
Qed.

Lemma relax_14 (m : Q) : m <= 2 -> Nat.iter 14 (AdaptiveRateLimiter.adapt 0) m = 1.
Proof.
  intro H. simpl.
  apply relax_to_one.
  assert (B : forall x b b', x <= b -> b * (95 # 100) <= b' -> 1 <= b' ->
                             AdaptiveRateLimiter.adapt 0 x * (95 # 100) <= b' * (95 # 100)).
  { intros x b b' Hx Hb H1. pose proof (relax_step x b b' Hx Hb H1). lra. }
  eapply Qle_trans; [eapply (B _ (1084 # 1000) (103 # 100))|lra]; try lra.
  eapply relax_step with (b := 1141 # 1000); try lra.
  eapply relax_step with (b := 1201 # 1000); try lra.
  eapply relax_step with (b := 1264 # 1000); try lra.
  eapply relax_step with (b := 133 # 100); try lra.
  eapply relax_step with (b := 14 # 10); try lra.
  eapply relax_step with (b := 1473 # 1000); try lra.
  eapply relax_step with (b := 155 # 100); try lra.
  eapply relax_step with (b := 163 # 100); try lra.
  eapply relax_step with (b := 1715 # 1000); try lra.
  eapply relax_step with (b := 1805 # 1000); try lra.
  eapply relax_step with (b := 19 # 10); try lra.
  eapply relax_step with (b := 2); try lra.
Qed.

Lemma relax_stays (n : nat) : Nat.iter n (AdaptiveRateLimiter.adapt 0) 1 = 1.
Proof.
  induction n as [|n IH]; [reflexivity|].
  simpl. rewrite IH. reflexivity.
Qed.

Lemma run_quiet (es : list AdaptiveRateLimiter.Event) :
  forall s : AdaptiveRateLimiter.t,
    AdaptiveRateLimiter.consecutive_429s s = 0%Z ->
    forallb (fun e => negb (is_report_429 e)) es = true ->
    AdaptiveRateLimiter.consecutive_429s (fst (AdaptiveRateLimiter.run es s)) = 0%Z /\
    AdaptiveRateLimiter.backoff_multiplier (fst (AdaptiveRateLimiter.run es s))
    = Nat.iter (length (filter is_attempt es)) (AdaptiveRateLimiter.adapt 0)
        (AdaptiveRateLimiter.backoff_multiplier s).
Proof.
  induction es as [|e es IH]; intros s Hc Hq; [split; [exact Hc|reflexivity]|].
  simpl in Hq. apply andb_true_iff in Hq. destruct Hq as [He Hq].
  destruct e as [t_now p|t_now|t_now]; simpl in He; [| discriminate |]; simpl.
  - destruct (attempt_multiplier t_now p s) as [Em Ec].
    unfold AdaptiveRateLimiter.next_multiplier in Em. rewrite Hc in Em, Ec.
    destruct (AdaptiveRateLimiter.attempt t_now p s) as [s1 [|d]]; simpl in Em, Ec.
    + destruct (IH s1 Ec Hq) as [A B].
      destruct (AdaptiveRateLimiter.run es s1) as [s2 gs]. simpl in *.
      split; [exact A|]. rewrite B, Em, <- Nat.iter_succ_r. reflexivity.
    + destruct (IH s1 Ec Hq) as [A B].
      split; [exact A|]. rewrite B, Em, <- Nat.iter_succ_r. reflexivity.
  - destruct (report_success_count t_now s) as (_ & _ & _ & Em).
    assert (Ec : AdaptiveRateLimiter.consecutive_429s
                   (AdaptiveRateLimiter.report_success t_now s) = 0%Z).
    { unfold AdaptiveRateLimiter.report_success. destruct (Qlt_bool _ _); simpl; lia. }
    destruct (IH _ Ec Hq) as [A B]. split; [exact A|]. rewrite B, Em. reflexivity.
Qed.

(** With no 429 on record and a multiplier of at most 2, fourteen checks
    bring the multiplier back to exactly 1.0, where it stays as long as no
    429 is reported. *)
Theorem multiplier_relaxes_to_one
    (es : list AdaptiveRateLimiter.Event) (s : AdaptiveRateLimiter.t) :
  AdaptiveRateLimiter.consecutive_429s s = 0%Z ->
  AdaptiveRateLimiter.backoff_multiplier s <= 2 ->
  forallb (fun e => negb (is_report_429 e)) es = true ->
  (14 <= length (filter is_attempt es))%nat ->
  AdaptiveRateLimiter.backoff_multiplier (fst (AdaptiveRateLimiter.run es s)) = 1.
Proof.
  intros Hc Hm Hq Hn.
  destruct (run_quiet es s Hc Hq) as [_ E]. rewrite E.
  replace (length (filter is_attempt es)) with ((length (filter is_attempt es) - 14) + 14)%nat
    by lia.
  rewrite Nat.iter_add, relax_14 by exact Hm. apply relax_stays.
Qed.

Lemma multiplier_relaxes_to_one_witness :
  let s := AdaptiveRateLimiter.with_windows
             (AdaptiveRateLimiter.with_429s AdaptiveRateLimiter.init 0 50) 2 [] [] in
  AdaptiveRateLimiter.backoff_multiplier
    (fst (AdaptiveRateLimiter.run
            (map (fun k => AdaptiveRateLimiter.Attempt (inject_Z (Z.of_nat k)) NORMAL)
               (seq 100 14)) s)) = 1.
Proof.
  apply (multiplier_relaxes_to_one
           (map (fun k => AdaptiveRateLimiter.Attempt (inject_Z (Z.of_nat k)) NORMAL)
              (seq 100 14))
           (AdaptiveRateLimiter.with_windows
              (AdaptiveRateLimiter.with_429s AdaptiveRateLimiter.init 0 50) 2 [] [])).
  - reflexivity.
  - simpl. unfold Qle. simpl. lia.
  - reflexivity.
  - simpl. lia.
Defined.

Lemma report_success_run (ts : list Q) :
  forall s : AdaptiveRateLimiter.t,
    (0 <= AdaptiveRateLimiter.consecutive_429s s)%Z ->
    Forall (fun t_now => 60 < t_now - AdaptiveRateLimiter.last_429_time s) ts ->
    AdaptiveRateLimiter.consecutive_429s
      (fst (AdaptiveRateLimiter.run (map AdaptiveRateLimiter.ReportSuccess ts) s))
    = Z.max 0 (AdaptiveRateLimiter.consecutive_429s s - Z.of_nat (length ts)).
Proof.
  induction ts as [|t_now ts IH]; intros s Hc Hall.
  - simpl. lia.
  - inversion Hall as [|? ? Hq Hall']; subst.
    destruct (report_success_count t_now s) as (E & _ & El & _).
    specialize (E Hq).
    change (AdaptiveRateLimiter.run (map AdaptiveRateLimiter.ReportSuccess (t_now :: ts)) s)
      with (AdaptiveRateLimiter.run (map AdaptiveRateLimiter.ReportSuccess ts)
              (AdaptiveRateLimiter.report_success t_now s)).
    rewrite IH.
    + rewrite E. simpl length. lia.
    + rewrite E. lia.
    + rewrite El. exact Hall'.
Qed.

(** [report_success] changes nothing until more than 60 seconds have passed
    since the last 429; after that each success takes one off the count,
    which stops at 0. *)
Theorem success_decays_count
    (s : AdaptiveRateLimiter.t) (t_early : Q) (ts : list Q) :
  (0 <= AdaptiveRateLimiter.consecutive_429s s)%Z ->
  t_early - AdaptiveRateLimiter.last_429_time s <= 60 ->
  Forall (fun t_now => 60 < t_now - AdaptiveRateLimiter.last_429_time s) ts ->
  AdaptiveRateLimiter.report_success t_early s = s /\
  AdaptiveRateLimiter.consecutive_429s
    (fst (AdaptiveRateLimiter.run (map AdaptiveRateLimiter.ReportSuccess ts) s))
  = Z.max 0 (AdaptiveRateLimiter.consecutive_429s s - Z.of_nat (length ts)).
Proof.
  intros Hc He Hall. split.
  - apply report_success_count. exact He.
  - apply report_success_run; assumption.
Qed.

Lemma success_decays_count_witness :
  let s := AdaptiveRateLimiter.with_429s AdaptiveRateLimiter.init 2 1000 in
  AdaptiveRateLimiter.report_success 1030 s = s /\
  AdaptiveRateLimiter.consecutive_429s
    (fst (AdaptiveRateLimiter.run
            (map AdaptiveRateLimiter.ReportSuccess [1061; 1062; 1063]) s))
  = Z.max 0 (AdaptiveRateLimiter.consecutive_429s s - Z.of_nat (length [1061; 1062; 1063])).
Proof.
  apply (success_decays_count (AdaptiveRateLimiter.with_429s AdaptiveRateLimiter.init 2 1000)
           1030 [1061; 1062; 1063]).
  - simpl. lia.
  - simpl. unfold Qle. simpl. lia.
  - simpl. repeat constructor; unfold Qlt; simpl; lia.
Defined.

(** ** Both limiters: what a blocked check asks the caller to sleep *)

Lemma purge_Forall (P : Q -> Prop) (t_now window : Q) (dq : list Q) :
  Forall P dq -> Forall P (purge t_now window dq).
Proof.
  induction 1 as [|t0 rest H0 Hrest IH]; simpl; [constructor|].
  destruct (Qle_bool window (t_now - t0)); [exact IH|constructor; assumption].
Qed.

Lemma window_wait_le (t_now window : Q) (can : bool) (dq : list Q) :
  Forall (fun x => x <= t_now) dq ->
  window_wait t_now window can dq <= window \/ window_wait t_now window can dq = 0.
Proof.
  intros [|t0 rest H0 _]; simpl; [right; reflexivity|].
  destruct can; simpl; [right; reflexivity|left; lra].
Qed.

Lemma wait_between (t_now sw lw : Q) (cs cl : bool) (sh lg : list Q) :
  Forall (fun x => x <= t_now) sh -> Forall (fun x => x <= t_now) lg ->
  (1 # 1000) <= py_max3 (window_wait t_now sw cs sh) (window_wait t_now lw cl lg) (1 # 1000) /\
  py_max3 (window_wait t_now sw cs sh) (window_wait t_now lw cl lg) (1 # 1000)
  <= py_max3 sw lw (1 # 1000).
Proof.
  intros Hs Hl.
  destruct (py_max3_bounds (window_wait t_now sw cs sh) (window_wait t_now lw cl lg)
              (1 # 1000)) as (_ & _ & B3).
  destruct (py_max3_bounds sw lw (1 # 1000)) as (C1 & C2 & C3).
  split; [exact B3|].
  unfold py_max3 at 1. apply Q.max_lub; [apply Q.max_lub|exact C3].
  - destruct (window_wait_le t_now sw cs sh Hs) as [H|H]; [lra|rewrite H; lra].
  - destruct (window_wait_le t_now lw cl lg Hl) as [H|H]; [lra|rewrite H; lra].
Qed.

(** A check that does not grant records no stamp and asks for a sleep of at
    least a millisecond and, when no stored stamp lies in the future, of at
    most the longer window. *)
Theorem wait_time_bounds
    (t_now : Q) (s : RateLimiter.t) (a : AdaptiveRateLimiter.t) (p : Priority) :
  Forall (fun x => x <= t_now) (RateLimiter._short s) ->
  Forall (fun x => x <= t_now) (RateLimiter._long s) ->
  Forall (fun x => x <= t_now) (AdaptiveRateLimiter.short_requests a) ->
  Forall (fun x => x <= t_now) (AdaptiveRateLimiter.long_requests a) ->
  (forall s' d, RateLimiter.attempt t_now s = (s', Wait d) ->
     (1 # 1000) <= d /\
     d <= py_max3 (RateLimiter.short_window s) (RateLimiter.long_window s) (1 # 1000) /\
     RateLimiter._short s' = purge t_now (RateLimiter.short_window s) (RateLimiter._short s) /\
     RateLimiter._long s' = purge t_now (RateLimiter.long_window s) (RateLimiter._long s)) /\
  (forall a' d, AdaptiveRateLimiter.attempt t_now p a = (a', Wait d) ->
     (1 # 1000) <= d /\
     d <= py_max3 (AdaptiveRateLimiter.short_window a) (AdaptiveRateLimiter.long_window a)
            (1 # 1000) /\
     AdaptiveRateLimiter.short_requests a'
     = purge t_now (AdaptiveRateLimiter.short_window a) (AdaptiveRateLimiter.short_requests a) /\
     AdaptiveRateLimiter.long_requests a'
     = purge t_now (AdaptiveRateLimiter.long_window a) (AdaptiveRateLimiter.long_requests a)).
Proof.
  intros Hs Hl Has Hal. split.
  - intros s' d. unfold RateLimiter.attempt.
    destruct (_ && _); intro H; inversion H; subst; clear H. simpl.
    destruct (wait_between t_now (RateLimiter.short_window s) (RateLimiter.long_window s)
                (Z.of_nat (length (purge t_now (RateLimiter.short_window s)
                                     (RateLimiter._short s))) <? RateLimiter.short_max s)%Z
                (Z.of_nat (length (purge t_now (RateLimiter.long_window s)
                                     (RateLimiter._long s))) <? RateLimiter.long_max s)%Z
                _ _ (purge_Forall _ t_now (RateLimiter.short_window s) _ Hs)
                (purge_Forall _ t_now (RateLimiter.long_window s) _ Hl)) as [A B].
    repeat split; assumption.
  - intros a' d. unfold AdaptiveRateLimiter.attempt, AdaptiveRateLimiter._calculate_wait_time.
    destruct (_ && _); intro H; inversion H; subst; clear H. simpl.
    match goal with
    | |- _ <= py_max3 (window_wait _ _ ?cs _) (window_wait _ _ ?cl _) _ /\ _ =>
        destruct (wait_between t_now (AdaptiveRateLimiter.short_window a)
                    (AdaptiveRateLimiter.long_window a) cs cl
                    _ _ (purge_Forall _ t_now (AdaptiveRateLimiter.short_window a) _ Has)
                    (purge_Forall _ t_now (AdaptiveRateLimiter.long_window a) _ Hal)) as [A B]
    end.
    repeat split; assumption.
Qed.

Lemma wait_time_bounds_witness :
  let s := {| RateLimiter.short_max := 2; RateLimiter.short_window := 1;
              RateLimiter.long_max := 100; RateLimiter.long_window := 120;
              RateLimiter._short := [10; 10]; RateLimiter._long := [10; 10] |} in
  let a := AdaptiveRateLimiter.with_windows AdaptiveRateLimiter.init 1
             (repeat 10 20) (repeat 10 20) in
  (forall s' d, RateLimiter.attempt (21 # 2) s = (s', Wait d) ->
     (1 # 1000) <= d /\
     d <= py_max3 (RateLimiter.short_window s) (RateLimiter.long_window s) (1 # 1000) /\
     RateLimiter._short s'
     = purge (21 # 2) (RateLimiter.short_window s) (RateLimiter._short s) /\
     RateLimiter._long s'
     = purge (21 # 2) (RateLimiter.long_window s) (RateLimiter._long s)) /\
  (forall a' d, AdaptiveRateLimiter.attempt (21 # 2) NORMAL a = (a', Wait d) ->
     (1 # 1000) <= d /\
     d <= py_max3 (AdaptiveRateLimiter.short_window a) (AdaptiveRateLimiter.long_window a)
            (1 # 1000) /\
     AdaptiveRateLimiter.short_requests a'
     = purge (21 # 2) (AdaptiveRateLimiter.short_window a)
         (AdaptiveRateLimiter.short_requests a) /\
     AdaptiveRateLimiter.long_requests a'
     = purge (21 # 2) (AdaptiveRateLimiter.long_window a)
         (AdaptiveRateLimiter.long_requests a)).
Proof.
  apply (wait_time_bounds (21 # 2)
           {| RateLimiter.short_max := 2; RateLimiter.short_window := 1;
              RateLimiter.long_max := 100; RateLimiter.long_window := 120;
              RateLimiter._short := [10; 10]; RateLimiter._long := [10; 10] |}
           (AdaptiveRateLimiter.with_windows AdaptiveRateLimiter.init 1
              (repeat 10 20) (repeat 10 20)) NORMAL);
    simpl; repeat constructor; unfold Qle; simpl; lia.
Defined.

(** On stamps in clock order, [_clean_old_requests] leaves exactly the
    stamps younger than the window, in their order. *)
Theorem clean_old_requests_exact (t_now window : Q) (dq : list Q) :
  StronglySorted Qle dq ->
  purge t_now window dq = filter (fun x => Qlt_bool (t_now - x) window) dq /\
  (forall x, In x (purge t_now window dq) <-> In x dq /\ t_now - x < window).
Proof.
  intro Hs. pose proof (purge_live t_now window dq Hs) as E. unfold live in E.
  split; [exact E|]. intro x. rewrite E, filter_In, Qlt_bool_iff. tauto.
Qed.

Lemma clean_old_requests_exact_witness :
  purge 10 1 [8; 9; (95 # 10); 10]
  = filter (fun x => Qlt_bool (10 - x) 1) [8; 9; (95 # 10); 10] /\
  (forall x, In x (purge 10 1 [8; 9; (95 # 10); 10])
             <-> In x [8; 9; (95 # 10); 10] /\ 10 - x < 1).
Proof.
  apply (clean_old_requests_exact 10 1 [8; 9; (95 # 10); 10]).
  repeat constructor; unfold Qle; simpl; lia.
Defined.

(** ** [LRUCache]: [clear_expired], recency, overwriting, counters *)

Section CacheExtras.

Import LRUCache.

Lemma od_del_as_filter (key : string) (od : OrderedDict) :
  NoDup (keys od) ->
  od_del key od = filter (fun kv => negb (String.eqb (fst kv) key)) od.
Proof.
  induction od as [|[k e] rest IH]; simpl; intro H; [reflexivity|].
  inversion H as [|? ? Hk Hrest]; subst.
  destruct (String.eqb k key) eqn:E; simpl.
  - apply String.eqb_eq in E. subst k.
    symmetry. apply forallb_filter_id. apply forallb_forall.
    intros [k' e'] Hin. simpl. apply negb_true_iff. apply String.eqb_neq.
    intro Heq. subst k'. apply Hk. apply in_map_iff. exists (key, e'). split; [reflexivity|exact Hin].
  - rewrite IH by exact Hrest. reflexivity.
Qed.

Lemma keys_filter_NoDup (P : string * CacheEntry -> bool) (od : OrderedDict) :
  NoDup (keys od) -> NoDup (keys (filter P od)).
Proof.
  induction od as [|[k e] rest IH]; simpl; intro H; [constructor|].
  inversion H as [|? ? Hk Hrest]; subst.
  destruct (P (k, e)); simpl; [|apply IH; exact Hrest].
  constructor; [|apply IH; exact Hrest].
  intro Hin. apply Hk. unfold keys in *. apply in_map_iff in Hin.
  destruct Hin as ([k' e'] & Hk' & Hin). apply filter_In in Hin.
  apply in_map_iff. exists (k', e'). tauto.
Qed.

Lemma filter_twice {A : Type} (P R : A -> bool) (l : list A) :
  filter P (filter R l) = filter (fun x => R x && P x) l.
Proof.
  induction l as [|a l IH]; simpl; [reflexivity|].
  destruct (R a); simpl; [destruct (P a); rewrite IH; reflexivity|exact IH].
Qed.

Lemma fold_del_as_filter (ks : list string) :
  forall od : OrderedDict,
    NoDup (keys od) ->
    fold_left (fun od key => od_del key od) ks od
    = filter (fun kv => negb (existsb (String.eqb (fst kv)) ks)) od.
Proof.
  induction ks as [|k ks IH]; intros od Hnd; simpl.
  - symmetry. apply forallb_filter_id. apply forallb_forall. reflexivity.
  - rewrite IH.
    + rewrite od_del_as_filter by exact Hnd. rewrite filter_twice.
      apply filter_ext. intros [k' e']. simpl.
      destruct (String.eqb k' k); simpl; [reflexivity|].
      destruct (existsb (String.eqb k') ks); reflexivity.
    + apply od_del_NoDup. exact Hnd.
Qed.

Lemma expired_key_iff (t_now : Q) (od : OrderedDict) (k : string) (e : CacheEntry) :
  NoDup (keys od) -> In (k, e) od ->
  existsb (String.eqb k) (expired_keys t_now od) = is_expired t_now e.
Proof.
  intros Hnd Hin.
  destruct (is_expired t_now e) eqn:E.
  - apply existsb_exists. exists k. split; [|apply String.eqb_refl].
    unfold expired_keys. apply in_map_iff. exists (k, e). split; [reflexivity|].
    apply filter_In. split; [exact Hin|exact E].
  - destruct (existsb (String.eqb k) (expired_keys t_now od)) eqn:X; [|reflexivity].
    apply existsb_exists in X. destruct X as (k' & Hk' & Heq).
    apply String.eqb_eq in Heq. subst k'.
    unfold expired_keys in Hk'. apply in_map_iff in Hk'.
    destruct Hk' as ([k2 e2] & Hk2 & Hin2). simpl in Hk2. subst k2.
    apply filter_In in Hin2. destruct Hin2 as [Hin2 Hexp]. simpl in Hexp.
    assert (e2 = e); [|congruence].
    clear - Hnd Hin Hin2. induction od as [|[k0 e0] rest IH]; simpl in *; [tauto|].
    inversion Hnd as [|? ? Hk0 Hrest]; subst.
    destruct Hin as [H|H]; destruct Hin2 as [H2|H2].
    + congruence.
    + inversion H; subst. exfalso. apply Hk0. apply in_map_iff. exists (k, e2). tauto.
    + inversion H2; subst. exfalso. apply Hk0. apply in_map_iff. exists (k, e). tauto.
    + apply IH; assumption.
Qed.

Lemma clear_expired_as_filter (t_now : Q) (c : t) :
  NoDup (keys (cache c)) ->
  cache (clear_expired t_now c)
  = filter (fun kv => negb (is_expired t_now (snd kv))) (cache c).
Proof.
  intro Hnd.
  unfold clear_expired. simpl. rewrite fold_del_as_filter by exact Hnd.
  apply filter_ext_in. intros [k e] Hin. simpl.
  rewrite (expired_key_iff t_now (cache c) k e Hnd Hin). reflexivity.
Qed.

(** [clear_expired] keeps exactly the entries that are not expired, in
    their order, and touches neither the counters nor the capacity. *)
Theorem clear_expired_exact (t_now : Q) (c : t) :
  NoDup (keys (cache c)) ->
  cache (clear_expired t_now c)
  = filter (fun kv => negb (is_expired t_now (snd kv))) (cache c) /\
  NoDup (keys (cache (clear_expired t_now c))) /\
  (size (clear_expired t_now c) <= size c)%Z /\
  hits (clear_expired t_now c) = hits c /\
  misses (clear_expired t_now c) = misses c /\
  max_size (clear_expired t_now c) = max_size c.
Proof.
  intro Hnd.
  pose proof (clear_expired_as_filter t_now c Hnd) as E.
  split; [exact E|]. split; [rewrite E; apply keys_filter_NoDup; exact Hnd|].
  split; [|repeat split; reflexivity].
  unfold size. rewrite E.
  pose proof (filter_length_le (fun kv => negb (is_expired t_now (snd kv))) (cache c)).
  lia.
Qed.

Lemma clear_expired_exact_witness :
  let c := {| cache := [("a"%string, new_entry 0 (JNum 1) 10);
                        ("b"%string, new_entry 0 (JNum 2) 600);
                        ("c"%string, new_entry 0 (JNum 3) 20)];
              max_size := 1000; hits := 3; misses := 1 |} in
  cache (clear_expired 100 c)
  = filter (fun kv => negb (is_expired 100 (snd kv))) (cache c) /\
  NoDup (keys (cache (clear_expired 100 c))) /\
  (size (clear_expired 100 c) <= size c)%Z /\
  hits (clear_expired 100 c) = hits c /\
  misses (clear_expired 100 c) = misses c /\
  max_size (clear_expired 100 c) = max_size c.
Proof.
  apply (clear_expired_exact 100
           {| cache := [("a"%string, new_entry 0 (JNum 1) 10);
                        ("b"%string, new_entry 0 (JNum 2) 600);
                        ("c"%string, new_entry 0 (JNum 3) 20)];
              max_size := 1000; hits := 3; misses := 1 |}).
  simpl. repeat constructor; simpl; intuition discriminate.
Defined.

(** A key that has just been read is not the one the next insertion
    pushes out, as long as the cache holds at least two entries. *)
Theorem read_protects_from_eviction
    (c : t) (k k' : string) (e : CacheEntry) (t_get t_set : Q) (v : Json) (ttl : Z) :
  NoDup (keys (cache c)) ->
  (2 <= max_size c)%Z -> size c = max_size c ->
  od_get k (cache c) = Some e -> t_get <= expires_at e ->
  ~ In k' (keys (cache c)) ->
  exists c',
    set t_set k' v ttl (snd (get t_get k c)) = Some c' /\
    od_get k (cache c') = Some e /\
    size c' = max_size c.
Proof.
  intros Hnd Hm Hfull Hg Hle Hnew.
  assert (Hin : In k (keys (cache c))).
  { apply od_mem_true. unfold od_mem. rewrite Hg. reflexivity. }
  assert (Hkk : k' <> k) by (intro E; subst; tauto).
  set (c1 := snd (get t_get k c)).
  assert (E1 : cache c1 = od_del k (cache c) ++ [(k, e)] /\ max_size c1 = max_size c).
  { unfold c1, get, is_expired. rewrite Hg.
    assert (E : Qlt_bool (expires_at e) t_get = false) by (apply Qlt_bool_false_iff; exact Hle).
    rewrite E. simpl. unfold od_move_to_end. rewrite Hg. split; reflexivity. }
  destruct E1 as [E1 M1].
  destruct (od_del_NoDup k (cache c) Hnd) as [Hnd' Hout].
  pose proof (od_del_length k (cache c) Hin) as Hlen.
  assert (Hnd1 : NoDup (keys (cache c1))).
  { rewrite E1, keys_app. simpl. apply NoDup_app; [exact Hnd'|repeat constructor; simpl; tauto|].
    intros x Hx [Hy|[]]. subst. tauto. }
  assert (Hnew1 : ~ In k' (keys (cache c1))).
  { rewrite E1, keys_app, in_app_iff. simpl. intros [H|[H|[]]]; [|congruence].
    apply Hnew. eapply od_del_keys. exact H. }
  destruct (set_new_at_capacity t_set v ttl k' c1) as (c' & H' & Em & Ec); try assumption.
  { lia. }
  { unfold size in *. rewrite M1, E1, length_app. simpl. lia. }
  exists c'. split; [exact H'|].
  unfold size in *. rewrite Ec, E1.
  destruct (od_del k (cache c)) as [|x rest] eqn:Ed; simpl in *; [lia|].
  split.
  - rewrite <- app_assoc. simpl.
    assert (Hr : ~ In k (keys rest)) by tauto.
    clear - Hr Hkk. induction rest as [|[k0 e0] rest IH]; simpl in *.
    + rewrite String.eqb_refl. reflexivity.
    + destruct (String.eqb k0 k) eqn:E; [apply String.eqb_eq in E; tauto|].
      apply IH. tauto.
  - rewrite !length_app. simpl. lia.
Qed.

Lemma read_protects_from_eviction_witness :
  let c := {| cache := [("a"%string, new_entry 0 (JNum 1) 300);
                        ("b"%string, new_entry 0 (JNum 2) 300)];
              max_size := 2; hits := 0; misses := 0 |} in
  exists c',
    set 6 "z" (JNum 9) 300 (snd (get 5 "a" c)) = Some c' /\
    od_get "a" (cache c') = Some (new_entry 0 (JNum 1) 300) /\
    size c' = max_size c.
Proof.
  apply (read_protects_from_eviction
           {| cache := [("a"%string, new_entry 0 (JNum 1) 300);
                        ("b"%string, new_entry 0 (JNum 2) 300)];
              max_size := 2; hits := 0; misses := 0 |}
           "a" "z" (new_entry 0 (JNum 1) 300) 5 6 (JNum 9) 300).
  - simpl. repeat constructor; simpl; intuition discriminate.
  - simpl. lia.
  - reflexivity.
  - reflexivity.
  - simpl. unfold Qle. simpl. lia.
  - simpl. intuition discriminate.
Defined.

(** Setting a key that is already there replaces its value and its expiry
    and leaves the size as it was: the next read gives the new value. *)
Theorem set_overwrites
    (c : t) (k : string) (v2 : Json) (ttl2 : Z) (t_set t_get : Q) :
  NoDup (keys (cache c)) ->
  In k (keys (cache c)) ->
  t_get <= t_set + inject_Z ttl2 ->
  exists c',
    set t_set k v2 ttl2 c = Some c' /\
    size c' = size c /\
    (forall k0, In k0 (keys (cache c')) <-> In k0 (keys (cache c))) /\
    fst (get t_get k c') = v2.
Proof.
  intros Hnd Hin Hle.
  assert (Hmem : od_mem k (cache c) = true) by (apply od_mem_true; exact Hin).
  assert (Hret : exists c', set t_set k v2 ttl2 c = Some c').
  { unfold set. rewrite Hmem, andb_false_r. eexists. reflexivity. }
  destruct Hret as [c' H]. exists c'. split; [exact H|].
  destruct (set_present t_set v2 ttl2 k c c' Hin H) as [Hs Hk].
  split; [exact Hs|]. split; [exact Hk|].
  destruct (set_cache _ _ _ _ _ _ H) as (_ & _ & _ & Ec).
  rewrite Hmem, andb_false_r in Ec.
  assert (Hg : od_get k (cache c') = Some (new_entry t_set v2 ttl2)).
  { rewrite Ec. apply od_get_last. apply od_del_NoDup. exact Hnd. }
  apply (get_visible t_get k c' _ Hg). exact Hle.
Qed.

Lemma set_overwrites_witness :
  let c := {| cache := [("a"%string, new_entry 0 (JNum 1) 10);
                        ("b"%string, new_entry 0 (JNum 2) 300)];
              max_size := 2; hits := 0; misses := 0 |} in
  exists c',
    set 100 "a" (JNum 7) 300 c = Some c' /\
    size c' = size c /\
    (forall k0, In k0 (keys (cache c')) <-> In k0 (keys (cache c))) /\
    fst (get 150 "a" c') = JNum 7.
Proof.
  apply (set_overwrites
           {| cache := [("a"%string, new_entry 0 (JNum 1) 10);
                        ("b"%string, new_entry 0 (JNum 2) 300)];
              max_size := 2; hits := 0; misses := 0 |}
           "a" (JNum 7) 300 100 150).
  - simpl. repeat constructor; simpl; intuition discriminate.
  - simpl. tauto.
  - unfold Qle. simpl. lia.
Defined.

End CacheExtras.

Section CacheRuns.

Import LRUCache.

Lemma get_NoDup (t_now : Q) (key : string) (c : t) :
  NoDup (keys (cache c)) -> NoDup (keys (cache (snd (get t_now key c)))).
Proof.
  intro Hnd. unfold get.
  destruct (od_get key (cache c)) as [entry|] eqn:Eg; simpl; [|exact Hnd].
  destruct (od_del_NoDup key (cache c) Hnd) as [H1 H2].
  destruct (is_expired t_now entry); simpl; [exact H1|].
  unfold od_move_to_end. rewrite Eg, keys_app. simpl.
  apply NoDup_app; [exact H1|repeat constructor; simpl; tauto|].
  intros x Hx [Hy|[]]. subst. tauto.
Qed.

Lemma get_counts (t_now : Q) (key : string) (c : t) :
  (hits (snd (get t_now key c)) + misses (snd (get t_now key c)) = hits c + misses c + 1)%Z /\
  (hits c <= hits (snd (get t_now key c)))%Z /\
  (misses c <= misses (snd (get t_now key c)))%Z /\
  max_size (snd (get t_now key c)) = max_size c.
Proof.
  unfold get, incr. destruct (od_get key (cache c)) as [entry|]; simpl; [|lia].
  destruct (is_expired t_now entry); simpl; lia.
Qed.

(** The invariant of a cache: keys are unique and there are at most
    [max_size] of them. *)
Definition well_formed (c : t) : Prop :=
  NoDup (keys (cache c)) /\ (size c <= max_size c)%Z.

Lemma step_well_formed (op : Op) (c : t) :
  (1 <= max_size c)%Z -> well_formed c ->
  exists c', step op c = Some c' /\ well_formed c' /\ max_size c' = max_size c /\
    (hits c' + misses c'
     = hits c + misses c + (match op with OpGet _ _ => 1 | _ => 0 end))%Z /\
    (hits c <= hits c')%Z /\ (misses c <= misses c')%Z.
Proof.
  intros Hm [Hnd Hs]. destruct op as [t_now key|t_now key value ttl|t_now]; simpl.
  - exists (snd (get t_now key c)). split; [reflexivity|].
    destruct (get_counts t_now key c) as (A & B & C & D).
    split; [split; [apply get_NoDup; exact Hnd|apply get_size_bound; exact Hs]|].
    repeat split; assumption.
  - destruct (set_returns t_now key value ttl c Hm) as [c' H].
    exists c'. split; [exact H|].
    destruct (set_cache _ _ _ _ _ _ H) as (Em & Eh & Emi & _).
    split; [split; [eapply set_NoDup; eassumption|eapply set_size_bound; eassumption]|].
    repeat split; try assumption; lia.
  - exists (clear_expired t_now c). split; [reflexivity|].
    pose proof (clear_expired_as_filter t_now c Hnd) as E0.
    assert (A : NoDup (keys (cache (clear_expired t_now c))))
      by (rewrite E0; apply keys_filter_NoDup; exact Hnd).
    assert (B : (size (clear_expired t_now c) <= size c)%Z).
    { unfold size. rewrite E0.
      pose proof (filter_length_le (fun kv => negb (is_expired t_now (snd kv))) (cache c)).
      lia. }
    assert (C : hits (clear_expired t_now c) = hits c) by reflexivity.
    assert (D : misses (clear_expired t_now c) = misses c) by reflexivity.
    assert (E : max_size (clear_expired t_now c) = max_size c) by reflexivity.
    split; [split; [exact A|lia]|]. repeat split; try assumption; lia.
Qed.

Definition is_get (op : Op) : bool :=
  match op with
  | OpGet _ _ => true
  | _ => false
  end.

Lemma run_well_formed (ops : list Op) :
  forall c : t,
    (1 <= max_size c)%Z -> well_formed c ->
    exists c', run ops c = Some c' /\ well_formed c' /\ max_size c' = max_size c /\
      (hits c' + misses c' = hits c + misses c + Z.of_nat (length (filter is_get ops)))%Z /\
      (hits c <= hits c')%Z /\ (misses c <= misses c')%Z.
Proof.
  induction ops as [|op ops IH]; intros c Hm Hwf.
  - exists c. simpl. repeat split; try apply Hwf; lia.
  - destruct (step_well_formed op c Hm Hwf) as (c1 & H1 & Hwf1 & Em & Ec & Eh & Emi).
    destruct (IH c1) as (c' & H' & Hwf' & Em' & Ec' & Eh' & Emi'); [lia|exact Hwf1|].
    exists c'. simpl. rewrite H1. split; [exact H'|]. split; [exact Hwf'|].
    split; [congruence|].
    destruct op; simpl in *; repeat split; lia.
Qed.

(** On a cache built with a capacity of at least 1, no sequence of [get],
    [set] and [clear_expired] raises, makes a key appear twice or takes the
    size above the capacity; and every [get], and nothing else, adds one
    to [hits + misses]. *)
Theorem cache_runs_safely (ops : list Op) (M : Z) :
  (1 <= M)%Z ->
  exists c', run ops (init M) = Some c' /\
    NoDup (keys (cache c')) /\ (size c' <= M)%Z /\
    (hits c' + misses c' = Z.of_nat (length (filter is_get ops)))%Z /\
    (0 <= hits c')%Z /\ (0 <= misses c')%Z.
Proof.
  intro HM.
  destruct (run_well_formed ops (init M)) as (c' & H & [Hnd Hs] & Em & Ec & Eh & Emi).
  - simpl. exact HM.
  - split; [constructor|]. unfold size. simpl. lia.
  - exists c'. simpl in *. repeat split; try assumption; lia.
Qed.

Lemma cache_runs_safely_witness :
  exists c',
    run [OpSet 0 "a" (JNum 1) 300; OpGet 1 "a"; OpGet 2 "b"; OpClearExpired 400;
         OpSet 401 "b" (JNum 2) 300; OpGet 402 "a"] (init 1) = Some c' /\
    NoDup (keys (cache c')) /\ (size c' <= 1)%Z /\
    (hits c' + misses c'
     = Z.of_nat (length (filter is_get
         [OpSet 0 "a" (JNum 1) 300; OpGet 1 "a"; OpGet 2 "b"; OpClearExpired 400;
          OpSet 401 "b" (JNum 2) 300; OpGet 402 "a"])))%Z /\
    (0 <= hits c')%Z /\ (0 <= misses c')%Z.
Proof.
  apply (cache_runs_safely
           [OpSet 0 "a" (JNum 1) 300; OpGet 1 "a"; OpGet 2 "b"; OpClearExpired 400;
            OpSet 401 "b" (JNum 2) 300; OpGet 402 "a"] 1).
  lia.
Defined.

(** [get_stats] never divides by zero: the hit rate is 0 before the first
    lookup, and otherwise a percentage between 0 and 100. *)
Theorem hit_rate_is_percentage (c : t) :
  (0 <= hits c)%Z -> (0 <= misses c)%Z ->
  0 <= stats_hit_rate (get_stats c) /\ stats_hit_rate (get_stats c) <= 100 /\
  ((hits c + misses c = 0)%Z -> stats_hit_rate (get_stats c) = 0) /\
  ((0 < hits c + misses c)%Z ->
   stats_hit_rate (get_stats c) * inject_Z (hits c + misses c) == inject_Z (hits c) * 100).
Proof.
  intros Hh Hm. unfold get_stats. simpl.
  destruct (0 <? hits c + misses c)%Z eqn:E.
  - apply Z.ltb_lt in E.
    pose proof (inject_Z_pos _ E) as Hpos.
    pose proof (inject_Z_nonneg _ Hh) as Hh'.
    assert (Hle : inject_Z (hits c) <= inject_Z (hits c + misses c)).
    { rewrite <- Zle_Qle. lia. }
    assert (H0 : 0 <= inject_Z (hits c) / inject_Z (hits c + misses c))
      by (apply Qle_shift_div_l; lra).
    assert (H1 : inject_Z (hits c) / inject_Z (hits c + misses c) <= 1)
      by (apply Qle_shift_div_r; lra).
    repeat split; try lra; try lia.
    intros _. field. lra.
  - apply Z.ltb_ge in E. repeat split; try lra; try reflexivity. lia.
Qed.

Lemma hit_rate_is_percentage_witness :
  let c := {| cache := []; max_size := 1000; hits := 3; misses := 1 |} in
  0 <= stats_hit_rate (get_stats c) /\ stats_hit_rate (get_stats c) <= 100 /\
  ((hits c + misses c = 0)%Z -> stats_hit_rate (get_stats c) = 0) /\
  ((0 < hits c + misses c)%Z ->
   stats_hit_rate (get_stats c) * inject_Z (hits c + misses c) == inject_Z (hits c) * 100).
Proof.
  apply (hit_rate_is_percentage {| cache := []; max_size := 1000; hits := 3; misses := 1 |});
    simpl; lia.
Defined.

End CacheRuns.

(** ** [ApiRequest.__lt__] *)

Lemma Priority_value_inj (p q : Priority) : Priority_value p = Priority_value q -> p = q.
Proof. destruct p, q; simpl; intro H; try reflexivity; discriminate. Qed.

Lemma ApiRequest_lt_spec (a b : EnhancedRiotAPI.ApiRequest) :
  EnhancedRiotAPI.ApiRequest_lt a b = true <->
  (Priority_value (EnhancedRiotAPI.priority a) < Priority_value (EnhancedRiotAPI.priority b))%Z \/
  (EnhancedRiotAPI.priority a = EnhancedRiotAPI.priority b /\
   EnhancedRiotAPI.timestamp a < EnhancedRiotAPI.timestamp b).
Proof.
  unfold EnhancedRiotAPI.ApiRequest_lt.
  destruct (Priority_value (EnhancedRiotAPI.priority a)
            =? Priority_value (EnhancedRiotAPI.priority b))%Z eqn:E; simpl.
  - apply Z.eqb_eq in E. rewrite Qlt_bool_iff. split.
    + intro H. right. split; [apply Priority_value_inj; exact E|exact H].
    + intros [H|[_ H]]; [lia|exact H].
  - apply Z.eqb_neq in E. rewrite Z.ltb_lt. split.
    + intro H. left. exact H.
    + intros [H|[H _]]; [exact H|]. rewrite H in E. tauto.
Qed.

(** The queue order is a strict order in which priority comes first and
    the time of creation second: no request is before itself, the order is
    transitive, a [HIGH] request is before every [NORMAL] one and a
    [NORMAL] one before every [LOW] one whatever their times, and two
    requests are unordered only when priority and time are both equal. *)
Theorem request_order_is_strict (a b c : EnhancedRiotAPI.ApiRequest) :
  EnhancedRiotAPI.ApiRequest_lt a a = false /\
  (EnhancedRiotAPI.ApiRequest_lt a b = true -> EnhancedRiotAPI.ApiRequest_lt b c = true ->
   EnhancedRiotAPI.ApiRequest_lt a c = true) /\
  (EnhancedRiotAPI.ApiRequest_lt a b = true -> EnhancedRiotAPI.ApiRequest_lt b a = false) /\
  ((Priority_value (EnhancedRiotAPI.priority a)
    < Priority_value (EnhancedRiotAPI.priority b))%Z ->
   EnhancedRiotAPI.ApiRequest_lt a b = true) /\
  (EnhancedRiotAPI.ApiRequest_lt a b = false -> EnhancedRiotAPI.ApiRequest_lt b a = false ->
   EnhancedRiotAPI.priority a = EnhancedRiotAPI.priority b /\
   EnhancedRiotAPI.timestamp a == EnhancedRiotAPI.timestamp b).
Proof.
  split; [|split; [|split; [|split]]].
  - destruct (EnhancedRiotAPI.ApiRequest_lt a a) eqn:E; [|reflexivity].
    apply ApiRequest_lt_spec in E. destruct E as [E|[_ E]]; [lia|lra].
  - intros H1 H2. apply ApiRequest_lt_spec in H1, H2. apply ApiRequest_lt_spec.
    destruct H1 as [H1|[P1 T1]], H2 as [H2|[P2 T2]].
    + left. lia.
    + left. rewrite <- P2. exact H1.
    + left. rewrite P1. exact H2.
    + right. split; [congruence|lra].
  - intro H1. destruct (EnhancedRiotAPI.ApiRequest_lt b a) eqn:E; [|reflexivity].
    apply ApiRequest_lt_spec in H1, E.
    destruct H1 as [H1|[P1 T1]], E as [H2|[P2 T2]]; try lia; try lra.
    + rewrite P2 in H1. lia.
    + rewrite P1 in H2. lia.
  - intro H. apply ApiRequest_lt_spec. left. exact H.
  - intros H1 H2.
    assert (N1 : ~ ((Priority_value (EnhancedRiotAPI.priority a)
                     < Priority_value (EnhancedRiotAPI.priority b))%Z \/
                    (EnhancedRiotAPI.priority a = EnhancedRiotAPI.priority b /\
                     EnhancedRiotAPI.timestamp a < EnhancedRiotAPI.timestamp b))).
    { rewrite <- ApiRequest_lt_spec. congruence. }
    assert (N2 : ~ ((Priority_value (EnhancedRiotAPI.priority b)
                     < Priority_value (EnhancedRiotAPI.priority a))%Z \/
                    (EnhancedRiotAPI.priority b = EnhancedRiotAPI.priority a /\
                     EnhancedRiotAPI.timestamp b < EnhancedRiotAPI.timestamp a))).
    { rewrite <- ApiRequest_lt_spec. congruence. }
    assert (P : EnhancedRiotAPI.priority a = EnhancedRiotAPI.priority b).
    { apply Priority_value_inj. lia. }
    split; [exact P|].
    destruct (Q_dec (EnhancedRiotAPI.timestamp a) (EnhancedRiotAPI.timestamp b))
      as [[H|H]|H]; [| |exact H].
    + exfalso. apply N1. right. split; assumption.
    + exfalso. apply N2. right. split; [symmetry; exact P|exact H].
Qed.

(** ** [SeasonalSegmenter.segment_time_range] *)

(** [segments] tile [a, b): each piece starts where the one before ends,
    is not empty and is at most [size] long. *)
Fixpoint tiles (a b size : Z) (segments : list (Z * Z)) : Prop :=
  match segments with
  | [] => a = b
  | (x, y) :: rest => x = a /\ (x < y)%Z /\ (y - x <= size)%Z /\ tiles y b size rest
  end.

Lemma segment_loop_acc (fuel : nat) :
  forall current end_time segment_ms acc,
    SeasonalSegmenter.segment_loop fuel current end_time segment_ms acc
    = option_map (app acc)
        (SeasonalSegmenter.segment_loop fuel current end_time segment_ms []).
Proof.
  induction fuel as [|fuel IH]; intros current end_time segment_ms acc; simpl.
  - destruct (current <? end_time)%Z; simpl; [reflexivity|rewrite app_nil_r; reflexivity].
  - destruct (current <? end_time)%Z; simpl; [|rewrite app_nil_r; reflexivity].
    rewrite (IH _ _ _ (acc ++ _)), (IH _ _ _ [_]).
    destruct (SeasonalSegmenter.segment_loop fuel _ _ _ []); simpl; [|reflexivity].
    rewrite <- app_assoc. reflexivity.
Qed.

Lemma segment_loop_tiles (fuel : nat) :
  forall current end_time segment_ms,
    (0 < segment_ms)%Z -> (current <= end_time)%Z ->
    (end_time - current <= Z.of_nat fuel * segment_ms)%Z ->
    exists segments,
      SeasonalSegmenter.segment_loop fuel current end_time segment_ms [] = Some segments /\
      tiles current end_time segment_ms segments /\
      (Z.of_nat (length segments) = (end_time - current + segment_ms - 1) / segment_ms)%Z.
Proof.
  induction fuel as [|fuel IH]; intros current end_time segment_ms Hms Hle Hfuel.
  - simpl in Hfuel. assert (current = end_time) by lia. subst.
    exists []. simpl. rewrite Z.ltb_irrefl. repeat split.
    replace (end_time - end_time + segment_ms - 1)%Z with (segment_ms - 1)%Z by lia.
    rewrite Z.div_small; lia.
  - simpl. destruct (current <? end_time)%Z eqn:E.
    + apply Z.ltb_lt in E. rewrite segment_loop_acc.
      set (segment_end := Z.min (current + segment_ms) end_time).
      destruct (IH segment_end end_time segment_ms Hms) as (rest & H & Ht & Hn).
      { unfold segment_end. lia. }
      { unfold segment_end. lia. }
      rewrite H. exists ((current, segment_end) :: rest). simpl.
      split; [reflexivity|]. split.
      * repeat split; try exact Ht; unfold segment_end; lia.
      * rewrite Zpos_P_of_succ_nat, Hn. unfold segment_end.
        destruct (Z.le_gt_cases (current + segment_ms) end_time) as [Hfull|Hshort].
        { rewrite Z.min_l by exact Hfull.
          replace (end_time - current + segment_ms - 1)%Z
            with ((end_time - (current + segment_ms) + segment_ms - 1) + 1 * segment_ms)%Z by lia.
          rewrite Z.div_add by lia. lia. }
        { rewrite Z.min_r by lia.
          replace (end_time - end_time + segment_ms - 1)%Z with (segment_ms - 1)%Z by lia.
          rewrite Z.div_small by lia.
          replace (end_time - current + segment_ms - 1)%Z
            with ((end_time - current - 1) + 1 * segment_ms)%Z by lia.
          rewrite Z.div_add by lia. rewrite Z.div_small by lia. lia. }
    + apply Z.ltb_ge in E. assert (current = end_time) by lia. subst.
      exists []. repeat split. simpl.
      replace (end_time - end_time + segment_ms - 1)%Z with (segment_ms - 1)%Z by lia.
      rewrite Z.div_small; lia.
Qed.

(** For a positive number of days and [start_time <= end_time] the loop
    ends, and its segments tile the range without gap or overlap, none
    longer than the segment length and their number the range divided by
    it, rounded up; an empty or reversed range gives no segment. *)
Theorem segments_tile_the_range (fuel : nat) (start_time end_time max_segment_days : Z) :
  (0 < max_segment_days)%Z ->
  (end_time - start_time <= Z.of_nat fuel * (max_segment_days * 86400000))%Z ->
  (start_time <= end_time ->
   exists segments,
     SeasonalSegmenter.segment_time_range fuel start_time end_time max_segment_days
     = Some segments /\
     tiles start_time end_time (max_segment_days * 86400000) segments /\
     Z.of_nat (length segments)
     = ((end_time - start_time + max_segment_days * 86400000 - 1)
        / (max_segment_days * 86400000))%Z)%Z /\
  (end_time <= start_time ->
   SeasonalSegmenter.segment_time_range fuel start_time end_time max_segment_days
   = Some [])%Z.
Proof.
  intros Hd Hfuel.
  assert (Ems : (max_segment_days * 24 * 60 * 60 * 1000 = max_segment_days * 86400000)%Z)
    by lia.
  unfold SeasonalSegmenter.segment_time_range. rewrite Ems. split.
  - intro Hle. apply segment_loop_tiles; lia.
  - intro Hge.
    assert (E : (start_time <? end_time)%Z = false) by (apply Z.ltb_ge; exact Hge).
    destruct fuel; simpl; rewrite E; reflexivity.
Qed.

Lemma segments_tile_the_range_witness :
  (1704844800000 <= 1735603200000 ->
   exists segments,
     SeasonalSegmenter.segment_time_range 12 1704844800000 1735603200000 30
     = Some segments /\
     tiles 1704844800000 1735603200000 (30 * 86400000) segments /\
     Z.of_nat (length segments)
     = ((1735603200000 - 1704844800000 + 30 * 86400000 - 1) / (30 * 86400000))%Z)%Z /\
  (1735603200000 <= 1704844800000 ->
   SeasonalSegmenter.segment_time_range 12 1704844800000 1735603200000 30 = Some [])%Z.
Proof.
  apply (segments_tile_the_range 12 1704844800000 1735603200000 30); simpl; lia.
Defined.

Lemma segment_loop_stuck (fuel : nat) :
  forall current end_time segment_ms acc,
    (segment_ms <= 0)%Z -> (current < end_time)%Z ->
    SeasonalSegmenter.segment_loop fuel current end_time segment_ms acc = None.
Proof.
  induction fuel as [|fuel IH]; intros current end_time segment_ms acc Hms Hlt; simpl;
    assert (E : (current <? end_time)%Z = true) by (apply Z.ltb_lt; exact Hlt);
    rewrite E; [reflexivity|].
  apply IH; lia.
Qed.

(** With [max_segment_days] at 0 or below and a range that is not empty
    the loop never ends: whatever the fuel, no list comes back. *)
Theorem segmenting_by_no_days_never_ends (fuel : nat) (start_time end_time max_segment_days : Z) :
  (max_segment_days <= 0)%Z -> (start_time < end_time)%Z ->
  SeasonalSegmenter.segment_time_range fuel start_time end_time max_segment_days = None.
Proof.
  intros Hd Hlt. unfold SeasonalSegmenter.segment_time_range.
  apply segment_loop_stuck; lia.
Qed.

Lemma segmenting_by_no_days_never_ends_witness :
  SeasonalSegmenter.segment_time_range 1000 0 86400000 0 = None.
Proof.
  apply (segmenting_by_no_days_never_ends 1000 0 86400000 0); lia.
Defined.

(** ** [EnhancedRiotAPI.get_matches_by_season] *)

(** Thirty-day segments: one turn of the loop per millisecond of range is
    more than enough. *)
Lemma thirty_day_segments_exist (fuel : nat) (start_time end_time : Z) :
  (start_time <= end_time)%Z -> fuel = Z.to_nat (end_time - start_time) ->
  exists segments,
    SeasonalSegmenter.segment_time_range fuel start_time end_time 30 = Some segments.
Proof.
  intros Hle ->. unfold SeasonalSegmenter.segment_time_range.
  destruct (segment_loop_tiles (Z.to_nat (end_time - start_time)) start_time end_time
              (30 * 24 * 60 * 60 * 1000)%Z) as (segments & H & _); try lia.
  exists segments. exact H.
Qed.

Lemma for_queue_ids_keeps (queue_ids : list Z) :
  forall params all_matches,
    snd (SeasonalSegmenter.for_queue_ids queue_ids params all_matches) = all_matches.
Proof.
  unfold SeasonalSegmenter.for_queue_ids.
  induction queue_ids as [|q qs IH]; intros params all_matches; simpl; [reflexivity|].
  apply IH.
Qed.

Lemma for_segments_keeps (segments : list (Z * Z)) (queue_ids : option (list Z)) :
  forall all_matches,
    SeasonalSegmenter.for_segments segments queue_ids all_matches = all_matches.
Proof.
  unfold SeasonalSegmenter.for_segments.
  induction segments as [|seg segments IH]; intro all_matches; simpl; [reflexivity|].
  destruct queue_ids as [[|q qs]|]; try apply IH.
  rewrite for_queue_ids_keeps. apply IH.
Qed.

(** Whatever the player, the season and the queues, and whatever bounds the
    season table gives, [get_matches_by_season] comes back, and with an
    empty list: the segments and parameters it builds are never used. *)
Theorem matches_by_season_is_empty
    (get_season_bounds : Z -> option (Z * Z))
    (puuid : string) (season : Z) (queue_ids : option (list Z)) :
  (forall fuel matches,
      SeasonalSegmenter.get_matches_by_season get_season_bounds fuel puuid season queue_ids
      = Some matches -> matches = []) /\
  (exists fuel,
      SeasonalSegmenter.get_matches_by_season get_season_bounds fuel puuid season queue_ids
      = Some []).
Proof.
  split.
  - intros fuel matches. unfold SeasonalSegmenter.get_matches_by_season.
    destruct (get_season_bounds season) as [[start_time end_time]|]; [|congruence].
    destruct (SeasonalSegmenter.segment_time_range fuel start_time end_time 30);
      [|discriminate].
    rewrite for_segments_keeps. congruence.
  - unfold SeasonalSegmenter.get_matches_by_season.
    destruct (get_season_bounds season) as [[start_time end_time]|];
      [|exists 0%nat; reflexivity].
    exists (Z.to_nat (end_time - start_time)).
    destruct (Z.le_gt_cases start_time end_time) as [Hle|Hgt].
    + destruct (thirty_day_segments_exist (Z.to_nat (end_time - start_time))
                  start_time end_time Hle eq_refl) as (segments & H).
      rewrite H, for_segments_keeps. reflexivity.
    + assert (E : (start_time <? end_time)%Z = false) by (apply Z.ltb_ge; lia).
      unfold SeasonalSegmenter.segment_time_range.
      destruct (Z.to_nat (end_time - start_time)); simpl; rewrite E; reflexivity.
Qed.

(** ** [_make_request]: successes, failures that are not retried, the queue *)

Section MakeRequestExtras.

Import EnhancedRiotAPI.

Variable py_float : string -> option Q.
Variable _get_cache_key : string -> list (string * Json) -> string.

(** The 200 branch with a body that decodes, on a cache that can take it. *)
Lemma on_response_200 (r : Response) (request : ApiRequest) (key : string)
    (api : t) (w : World) (payload : Json) (c' : LRUCache.t) :
  status_code r = 200%Z -> json_body r = Some payload ->
  LRUCache.set (now w) key payload
    (if mentions_match (url request) then 300%Z else 600%Z) (cache api) = Some c' ->
  on_response py_float r request key api w
  = (payload,
     with_cache c'
       (with_rate_limiter
          (AdaptiveRateLimiter.report_success (now w) (rate_limiter api)) (count_request api)),
     w).
Proof.
  intros Hc Hj Hs. unfold on_response. rewrite Hc. simpl. rewrite Hj.
  simpl in Hs. rewrite Hs. reflexivity.
Qed.

(** A 200 answer is returned and stored, so that the same request, made
    again within the time to live (300 seconds when the URL contains
    "match", 600 otherwise), is answered from the cache whatever the
    network would do. *)
Theorem success_is_cached
    (fuel : nat) (request : ApiRequest) (api : t) (w : World)
    (wt : Q) (rl : AdaptiveRateLimiter.t) (w1 w2 : World)
    (r : Response) (payload : Json) :
  let key := _get_cache_key (url request) (params request) in
  let ttl := if mentions_match (url request) then 300%Z else 600%Z in
  is_None (fst (LRUCache.get (now w) key (cache api))) = true ->
  AdaptiveRateLimiter.acquire fuel (priority request) (rate_limiter api) w
  = Some (wt, rl, w1) ->
  status_code r = 200%Z -> json_body r = Some payload -> is_None payload = false ->
  (1 <= LRUCache.max_size (cache api))%Z ->
  NoDup (LRUCache.keys (LRUCache.cache (cache api))) ->
  now w2 <= now w1 + inject_Z ttl ->
  exists api1,
    _make_request py_float _get_cache_key fuel (Responded r) request api w
    = Some (payload, api1, issue_request w1) /\
    total_requests api1 = (total_requests api + 1)%Z /\
    failed_requests api1 = failed_requests api /\
    request_queue api1 = request_queue api /\
    (forall fuel2 http2, exists api2,
        _make_request py_float _get_cache_key fuel2 http2 request api1 w2
        = Some (payload, api2, w2) /\
        total_requests api2 = total_requests api1).
Proof.
  intros key ttl Hmiss Ha Hc Hj Hsome Hm Hnd Hle.
  rewrite (make_request_after_miss py_float _get_cache_key fuel _ request api w wt rl w1
             Hmiss Ha).
  fold key.
  set (c0 := snd (LRUCache.get (now w) key (cache api))).
  assert (Hm0 : (1 <= LRUCache.max_size c0)%Z).
  { unfold c0. destruct (get_counts (now w) key (cache api)) as (_ & _ & _ & E).
    rewrite E. exact Hm. }
  assert (Hnd0 : NoDup (LRUCache.keys (LRUCache.cache c0)))
    by (apply get_NoDup; exact Hnd).
  destruct (set_returns (now w1) key payload ttl c0 Hm0) as [c1 Hset].
  rewrite (on_response_200 r request key
             (with_rate_limiter rl (with_cache c0 api)) (issue_request w1)
             payload c1 Hc Hj Hset).
  eexists. split; [reflexivity|]. simpl. repeat split.
  intros fuel2 http2.
  destruct (set_cache _ _ _ _ _ _ Hset) as (_ & _ & _ & Ec).
  assert (Hg : LRUCache.od_get key (LRUCache.cache c1)
               = Some (LRUCache.new_entry (now w1) payload ttl)).
  { rewrite Ec. apply od_get_last. apply od_del_NoDup.
    destruct (_ && _); [|exact Hnd0].
    destruct (LRUCache.cache c0); simpl in *; [constructor|]. inversion Hnd0; assumption. }
  destruct (get_visible (now w2) key c1 _ Hg Hle) as (H1 & _).
  unfold _make_request. simpl. fold key.
  destruct (LRUCache.get (now w2) key c1) as [cached c2]. simpl in H1. subst cached.
  simpl. rewrite Hsome. simpl. eexists. split; reflexivity.
Qed.

(** A status that is neither 200 nor 429 nor 5xx, and a transport failure,
    are final: [_make_request] returns [None], counts one failure, puts
    nothing on the queue, sleeps for nothing and reports nothing to the
    limiter; only the answered request is counted in [total_requests]. *)
Theorem other_failures_are_final
    (fuel : nat) (request : ApiRequest) (api : t) (w : World)
    (wt : Q) (rl : AdaptiveRateLimiter.t) (w1 : World) (r : Response) :
  is_None (fst (LRUCache.get (now w) (_get_cache_key (url request) (params request))
                  (cache api))) = true ->
  AdaptiveRateLimiter.acquire fuel (priority request) (rate_limiter api) w
  = Some (wt, rl, w1) ->
  status_code r <> 200%Z -> status_code r <> 429%Z -> (status_code r < 500)%Z ->
  (exists api' w',
      _make_request py_float _get_cache_key fuel (Responded r) request api w
      = Some (JNull, api', w') /\
      failed_requests api' = (failed_requests api + 1)%Z /\
      total_requests api' = (total_requests api + 1)%Z /\
      request_queue api' = request_queue api /\
      rate_limiter api' = rl /\
      slept w' = slept w1 /\ http_calls w' = S (http_calls w1)) /\
  (exists api' w',
      _make_request py_float _get_cache_key fuel HttpRaised request api w
      = Some (JNull, api', w') /\
      failed_requests api' = (failed_requests api + 1)%Z /\
      total_requests api' = total_requests api /\
      request_queue api' = request_queue api /\
      rate_limiter api' = rl /\
      slept w' = slept w1 /\ http_calls w' = S (http_calls w1)).
Proof.
  intros Hmiss Ha H200 H429 H500. split.
  - rewrite (make_request_after_miss py_float _get_cache_key fuel _ request api w wt rl w1
               Hmiss Ha).
    unfold on_response.
    assert (E1 : (status_code r =? 200)%Z = false) by (apply Z.eqb_neq; exact H200).
    assert (E2 : (status_code r =? 429)%Z = false) by (apply Z.eqb_neq; exact H429).
    assert (E3 : (500 <=? status_code r)%Z = false) by (apply Z.leb_gt; exact H500).
    rewrite E1, E2, E3. eexists _, _. split; [reflexivity|]. simpl. repeat split.
  - rewrite (make_request_after_miss py_float _get_cache_key fuel _ request api w wt rl w1
               Hmiss Ha).
    unfold on_exception. eexists _, _. split; [reflexivity|]. simpl. repeat split.
Qed.

Lemma on_exception_queue (e : Exn) (api : t) (w : World) :
  request_queue (snd (fst (on_exception e api w))) = request_queue api.
Proof. reflexivity. Qed.

Lemma on_response_queue (r : Response) (request : ApiRequest) (key : string)
    (api : t) (w : World) :
  request_queue (snd (fst (on_response py_float r request key api w))) = request_queue api \/
  ((retry_count request < 3)%Z /\
   exists p, request_queue (snd (fst (on_response py_float r request key api w)))
             = request_queue api ++ [with_priority p (bump_retry request)]).
Proof.
  unfold on_response.
  destruct (status_code r =? 200)%Z.
  { destruct (json_body r); [|left; reflexivity].
    destruct (LRUCache.set _ _ _ _ _); left; reflexivity. }
  destruct (status_code r =? 429)%Z.
  { destruct (retry_after_seconds py_float r) as [q|]; [|left; reflexivity].
    destruct (time_sleep q _); [|left; reflexivity].
    simpl. unfold requeue_high.
    destruct (retry_count request <? 3)%Z eqn:E; [|left; reflexivity].
    right. split; [apply Z.ltb_lt; exact E|]. exists HIGH. reflexivity. }
  destruct (500 <=? status_code r)%Z.
  { destruct (time_sleep _ _); [|left; reflexivity].
    simpl. unfold requeue_same.
    destruct (retry_count request <? 3)%Z eqn:E; [|left; reflexivity].
    right. split; [apply Z.ltb_lt; exact E|]. exists (priority request). reflexivity. }
  left. reflexivity.
Qed.

(** Whatever happens, one call of [_make_request] puts at most one request
    on the queue: the one it was given, with [retry_count] one higher and
    at most 3, and only if [retry_count] was below 3. *)
Theorem queue_grows_by_one_retry
    (fuel : nat) (http : HttpOutcome) (request : ApiRequest) (api api' : t)
    (w w' : World) (res : Json) :
  _make_request py_float _get_cache_key fuel http request api w = Some (res, api', w') ->
  request_queue api' = request_queue api \/
  (exists q, request_queue api' = request_queue api ++ [q] /\
     url q = url request /\ method q = method request /\ params q = params request /\
     timestamp q = timestamp request /\
     retry_count q = (retry_count request + 1)%Z /\ (retry_count q <= 3)%Z).
Proof.
  unfold _make_request.
  destruct (LRUCache.get _ _ _) as [cached c].
  destruct (is_None cached); simpl; [|intro H; inversion H; left; reflexivity].
  destruct (AdaptiveRateLimiter.acquire _ _ _ _) as [[[wt rl] w1]|]; [|discriminate].
  destruct http as [|r]; intro H; inversion H; subst; clear H; [left; reflexivity|].
  match goal with
  | H : on_response _ _ _ _ ?a ?x = _ |- _ =>
      pose proof (on_response_queue r request
                    (_get_cache_key (url request) (params request)) a x) as Hq;
      rewrite H in Hq; simpl in Hq
  end.
  destruct Hq as [Hq|[Hrc [p Hq]]]; [left; exact Hq|right].
  exists (with_priority p (bump_retry request)). split; [exact Hq|].
  simpl. unfold incr. repeat split. lia.
Qed.

End MakeRequestExtras.

Lemma success_is_cached_witness :
  exists api1,
    EnhancedRiotAPI._make_request float_of_digit plain_cache_key 1
      (Responded (ok_response (JStr "summoner"))) (request_at 0) api0 world0
    = Some (JStr "summoner", api1, issue_request world0) /\
    EnhancedRiotAPI.total_requests api1 = (EnhancedRiotAPI.total_requests api0 + 1)%Z /\
    EnhancedRiotAPI.failed_requests api1 = EnhancedRiotAPI.failed_requests api0 /\
    EnhancedRiotAPI.request_queue api1 = EnhancedRiotAPI.request_queue api0 /\
    (forall fuel2 http2, exists api2,
        EnhancedRiotAPI._make_request float_of_digit plain_cache_key fuel2 http2
          (request_at 0) api1 (advance 600 world0)
        = Some (JStr "summoner", api2, advance 600 world0) /\
        EnhancedRiotAPI.total_requests api2 = EnhancedRiotAPI.total_requests api1).
Proof.
  apply (success_is_cached float_of_digit plain_cache_key 1 (request_at 0) api0 world0 0
           limiter_after_grant world0 (advance 600 world0)
           (ok_response (JStr "summoner")) (JStr "summoner")).
  - reflexivity.
  - reflexivity.
  - reflexivity.
  - reflexivity.
  - reflexivity.
  - simpl. lia.
  - simpl. constructor.
  - simpl. unfold Qle. simpl. lia.
Defined.

Definition not_found_response : Response :=
  {| status_code := 404; retry_after_header := None;
     json_body := None; text := "Data not found"%string |}.

Lemma other_failures_are_final_witness :
  (exists api' w',
      EnhancedRiotAPI._make_request float_of_digit plain_cache_key 1
        (Responded not_found_response) (request_at 0) api0 world0
      = Some (JNull, api', w') /\
      EnhancedRiotAPI.failed_requests api' = (EnhancedRiotAPI.failed_requests api0 + 1)%Z /\
      EnhancedRiotAPI.total_requests api' = (EnhancedRiotAPI.total_requests api0 + 1)%Z /\
      EnhancedRiotAPI.request_queue api' = EnhancedRiotAPI.request_queue api0 /\
      EnhancedRiotAPI.rate_limiter api' = limiter_after_grant /\
      slept w' = slept world0 /\ http_calls w' = S (http_calls world0)) /\
  (exists api' w',
      EnhancedRiotAPI._make_request float_of_digit plain_cache_key 1
        HttpRaised (request_at 0) api0 world0
      = Some (JNull, api', w') /\
      EnhancedRiotAPI.failed_requests api' = (EnhancedRiotAPI.failed_requests api0 + 1)%Z /\
      EnhancedRiotAPI.total_requests api' = EnhancedRiotAPI.total_requests api0 /\
      EnhancedRiotAPI.request_queue api' = EnhancedRiotAPI.request_queue api0 /\
      EnhancedRiotAPI.rate_limiter api' = limiter_after_grant /\
      slept w' = slept world0 /\ http_calls w' = S (http_calls world0)).
Proof.
  apply (other_failures_are_final float_of_digit plain_cache_key 1 (request_at 0) api0
           world0 0 limiter_after_grant world0 not_found_response).
  - reflexivity.
  - reflexivity.
  - simpl. lia.
  - simpl. lia.
  - simpl. lia.
Defined.

Lemma queue_grows_by_one_retry_witness :
  match EnhancedRiotAPI._make_request float_of_digit plain_cache_key 1
          (Responded error_response) (request_at 2) api0 world0 with
  | Some (res, api', w') =>
      EnhancedRiotAPI.request_queue api' = EnhancedRiotAPI.request_queue api0 \/
      (exists q,
          EnhancedRiotAPI.request_queue api' = EnhancedRiotAPI.request_queue api0 ++ [q] /\
          EnhancedRiotAPI.url q = EnhancedRiotAPI.url (request_at 2) /\
          EnhancedRiotAPI.method q = EnhancedRiotAPI.method (request_at 2) /\
          EnhancedRiotAPI.params q = EnhancedRiotAPI.params (request_at 2) /\
          EnhancedRiotAPI.timestamp q = EnhancedRiotAPI.timestamp (request_at 2) /\
          EnhancedRiotAPI.retry_count q
          = (EnhancedRiotAPI.retry_count (request_at 2) + 1)%Z /\
          (EnhancedRiotAPI.retry_count q <= 3)%Z)
  | None => False
  end.
Proof.
  pose proof (queue_grows_by_one_retry float_of_digit plain_cache_key 1
                (Responded error_response) (request_at 2) api0) as H.
  destruct (EnhancedRiotAPI._make_request float_of_digit plain_cache_key 1
              (Responded error_response) (request_at 2) api0 world0)
    as [[[res api'] w']|] eqn:E.
  - apply (H api' world0 w' res). exact E.
  - vm_compute in E. discriminate.
Defined.

(** ** [request_with_backoff]: how many calls, and which answer comes back *)

Lemma simple_acquire_frame (fuel : nat) :
  forall (s : RateLimiter.t) (w : World) s' w',
    RateLimiter.acquire fuel s w = Some (s', w') ->
    http_calls w' = http_calls w /\ printed w' = printed w.
Proof.
  induction fuel as [|fuel IH]; intros s w s' w' H; simpl in H; [discriminate|].
  destruct (RateLimiter.attempt (now w) s) as [s1 [|d]].
  - inversion H; subst. split; reflexivity.
  - apply IH in H. simpl in H. exact H.
Qed.

Lemma time_sleep_frame (d : Q) (w w' : World) :
  time_sleep d w = Some w' -> http_calls w' = http_calls w /\ printed w' = printed w.
Proof.
  unfold time_sleep. destruct (Qlt_bool d 0); intro H; inversion H. split; reflexivity.
Qed.

(** An answer after which the loop goes round again. *)
Definition retryable (r : Response) : Prop :=
  status_code r = 429%Z \/ (500 <= status_code r)%Z.

Section ExporterExtras.

Variable py_float : string -> option Q.
Variable server : nat -> HttpOutcome.

Lemma attempts_trace (fuel n : nat) :
  forall (i : nat) (b : Q) (resp : option Response) (rl : RateLimiter.t) (w : World)
         out rl' w',
    Exporter.attempts py_float server fuel n i b resp rl w = Some (out, rl', w') ->
    (http_calls w <= http_calls w' <= http_calls w + n)%nat /\
    (n <> 0%nat -> (http_calls w < http_calls w')%nat) /\
    (out = Raises RuntimeError -> n = 0%nat /\ resp = None) /\
    (forall r, out = Returned r ->
       (n = 0%nat /\ resp = Some r /\ http_calls w' = http_calls w) \/
       (exists k, (i <= k < i + n)%nat /\ server k = Responded r /\
          http_calls w' = (http_calls w + (k - i) + 1)%nat /\
          (k = (i + n - 1)%nat \/ ~ retryable r) /\
          (forall j, (i <= j < k)%nat ->
             exists rj, server j = Responded rj /\ retryable rj))).
Proof.
  induction n as [|n IH]; intros i b resp rl w out rl' w' H.
  - simpl in H. destruct resp as [r0|]; inversion H; subst; clear H.
    + repeat split; try lia; try discriminate.
      intros r Hr. inversion Hr; subst. left. repeat split.
    + repeat split; try lia; try discriminate.
  - simpl in H.
    destruct (RateLimiter.acquire fuel rl w) as [[rl1 w1]|] eqn:Ha; [|discriminate].
    destruct (simple_acquire_frame _ _ _ _ _ Ha) as [Hc1 _].
    destruct (server i) as [|r] eqn:Hsrv.
    { inversion H; subst; clear H. simpl. repeat split; try lia; try discriminate. }
    assert (Hrec : forall w3 out rl' w',
      http_calls w3 = S (http_calls w) ->
      retryable r ->
      Exporter.attempts py_float server fuel n (S i) (Exporter.next_backoff b) (Some r) rl1 w3
      = Some (out, rl', w') ->
      (http_calls w <= http_calls w' <= http_calls w + S n)%nat /\
      (S n <> 0%nat -> (http_calls w < http_calls w')%nat) /\
      (out = Raises RuntimeError -> S n = 0%nat /\ resp = None) /\
      (forall r0, out = Returned r0 ->
         (S n = 0%nat /\ resp = Some r0 /\ http_calls w' = http_calls w) \/
         (exists k, (i <= k < i + S n)%nat /\ server k = Responded r0 /\
            http_calls w' = (http_calls w + (k - i) + 1)%nat /\
            (k = (i + S n - 1)%nat \/ ~ retryable r0) /\
            (forall j, (i <= j < k)%nat ->
               exists rj, server j = Responded rj /\ retryable rj)))).
    { intros w3 out0 rl0 w0 Hc3 Hretry Hrun.
      destruct (IH _ _ _ _ _ _ _ _ Hrun) as (A & B & C & D).
      split; [lia|]. split; [lia|]. split.
      - intro E. destruct (C E) as [_ E']. discriminate.
      - intros r0 Hr0. right. destruct (D r0 Hr0) as [(N0 & R0 & K0)|(k & Hk & Sk & Ck & Fk & Pk)].
        + inversion R0; subst. exists i.
          split; [lia|]. split; [exact Hsrv|]. split; [lia|]. split; [left; lia|].
          intros j Hj. lia.
        + exists k.
          split; [lia|]. split; [exact Sk|]. split; [lia|]. split.
          * destruct Fk as [Fk|Fk]; [left; lia|right; exact Fk].
          * intros j Hj. destruct (Nat.eq_dec j i) as [->|Hne].
            { exists r. split; assumption. }
            { apply Pk. lia. } }
    destruct (status_code r =? 429)%Z eqn:E429.
    + apply Z.eqb_eq in E429.
      destruct (Exporter.sleep_seconds py_float (retry_after_header r) b) as [sleep_s|].
      * destruct (time_sleep sleep_s (issue_request w1)) as [w3|] eqn:Hsl.
        { destruct (time_sleep_frame _ _ _ Hsl) as [Hc3 _]. simpl in Hc3.
          apply (Hrec w3 out rl' w'); [lia|left; exact E429|exact H]. }
        { inversion H; subst; clear H. simpl. repeat split; try lia; try discriminate. }
      * inversion H; subst; clear H. simpl. repeat split; try lia; try discriminate.
    + apply Z.eqb_neq in E429.
      destruct (500 <=? status_code r)%Z eqn:E500.
      * apply Z.leb_le in E500.
        destruct (time_sleep b (issue_request w1)) as [w3|] eqn:Hsl.
        { destruct (time_sleep_frame _ _ _ Hsl) as [Hc3 _]. simpl in Hc3.
          apply (Hrec w3 out rl' w'); [lia|right; exact E500|exact H]. }
        { inversion H; subst; clear H. simpl. repeat split; try lia; try discriminate. }
      * apply Z.leb_gt in E500. inversion H; subst; clear H. simpl.
        repeat split; try lia; try discriminate.
        intros r0 Hr0. inversion Hr0; subst. right. exists i.
        split; [lia|]. split; [exact Hsrv|]. split; [lia|]. split.
        { right. unfold retryable. lia. }
        { intros j Hj. lia. }
Qed.

(** Whatever the server does, a call of [request_with_backoff] that
    returns has asked it between one and six times; it never raises the
    [RuntimeError] written after the loop; and the response it returns is
    the answer to its last call, which either is neither 429 nor 5xx or is
    the sixth, every earlier answer having been a 429 or a 5xx. *)
Theorem at_most_six_calls
    (fuel : nat) (rl : RateLimiter.t) (w : World)
    (out : Outcome Response) (rl' : RateLimiter.t) (w' : World) :
  Exporter.request_with_backoff py_float server fuel rl w = Some (out, rl', w') ->
  (http_calls w < http_calls w' <= http_calls w + 6)%nat /\
  out <> Raises RuntimeError /\
  (forall r, out = Returned r ->
     exists k, (k < 6)%nat /\ server k = Responded r /\
       http_calls w' = (http_calls w + k + 1)%nat /\
       (k = 5%nat \/ ~ retryable r) /\
       (forall j, (j < k)%nat -> exists rj, server j = Responded rj /\ retryable rj)).
Proof.
  unfold Exporter.request_with_backoff, Exporter.max_attempts. intro H.
  destruct (attempts_trace _ _ _ _ _ _ _ _ _ _ H) as (A & B & C & D).
  split; [split; [apply B; discriminate|lia]|]. split.
  - intro E. destruct (C E) as [E' _]. discriminate.
  - intros r Hr. destruct (D r Hr) as [(N0 & _)|(k & Hk & Sk & Ck & Fk & Pk)]; [discriminate|].
    exists k. split; [lia|]. split; [exact Sk|]. split; [lia|]. split.
    + destruct Fk as [Fk|Fk]; [left; lia|right; exact Fk].
    + intros j Hj. apply Pk. lia.
Qed.

End ExporterExtras.

Lemma at_most_six_calls_witness :
  let w := {| now := 0; slept := []; printed := []; http_calls := 0 |} in
  match Exporter.request_with_backoff float_of_digit (scenario_server (JStr "payload")) 1
          RateLimiter.init w with
  | Some (out, rl', w') =>
      (http_calls w < http_calls w' <= http_calls w + 6)%nat /\
      out <> Raises RuntimeError /\
      (forall r, out = Returned r ->
         exists k, (k < 6)%nat /\ scenario_server (JStr "payload") k = Responded r /\
           http_calls w' = (http_calls w + k + 1)%nat /\
           (k = 5%nat \/ ~ retryable r) /\
           (forall j, (j < k)%nat ->
              exists rj, scenario_server (JStr "payload") j = Responded rj /\ retryable rj))
  | None => False
  end.
Proof.
  intro w.
  pose proof (at_most_six_calls float_of_digit (scenario_server (JStr "payload")) 1
                RateLimiter.init w) as H.
  destruct (Exporter.request_with_backoff float_of_digit (scenario_server (JStr "payload")) 1
              RateLimiter.init w) as [[[out rl'] w']|] eqn:E.
  - apply (H out rl' w' eq_refl).
  - vm_compute in E. discriminate.
Defined.

Section ExporterFinalAnswer.

Variable py_float : string -> option Q.
Variable server : nat -> HttpOutcome.




End ExporterFinalAnswer.


(** ** Callers of [request_with_backoff] *)

Section CallerClaims.

Variable py_float : string -> option Q.
Variable lower : string -> string.
Variable net : string -> nat -> HttpOutcome.

(** Against a server that answers every call with a 5xx, and for a known
    platform, [get_match] raises [RuntimeError] once the six attempts are
    spent, where [get_timeline] returns [None] and
    [optional_summoner_profile] returns [{}]. *)
Theorem callers_after_six_5xx
    (fuel : nat) (platform ident : string) (rl : RateLimiter.t) (w : World)
    (match_base platform_base : string) :
  MatchExporter.regional_match_base lower platform = Some match_base ->
  MatchExporter.platform_base_url lower platform = Some platform_base ->
  (forall url i, exists r, net url i = Responded r /\ (500 <= status_code r)%Z) ->
  (1 <= RateLimiter.short_max rl)%Z -> (1 <= RateLimiter.long_max rl)%Z ->
  (length (RateLimiter._short rl) + length (RateLimiter._long rl) + 12 <= fuel)%nat ->
  (exists rl' w',
      MatchExporter.get_match py_float lower net fuel platform ident rl w
      = Some (MatchExporter.Done (Raises RuntimeError), rl', w') /\
      http_calls w' = (http_calls w + 6)%nat) /\
  (exists rl' w',
      MatchExporter.get_timeline py_float lower net fuel platform ident rl w
      = Some (MatchExporter.Done (Returned JNull), rl', w') /\
      http_calls w' = (http_calls w + 6)%nat) /\
  (exists rl' w',
      MatchExporter.optional_summoner_profile py_float lower net fuel platform ident rl w
      = Some (MatchExporter.Done (Returned (JObj JNoField)), rl', w') /\
      http_calls w' = (http_calls w + 6)%nat).
Proof.
  intros Hmb Hpb Hnet Hs Hl Hfuel.
  assert (Hrun : forall url, exists r rl' w',
    Exporter.request_with_backoff py_float (net url) fuel rl w = Some (Returned r, rl', w') /\
    (500 <= status_code r)%Z /\ http_calls w' = (http_calls w + 6)%nat).
  { intro url.
    destruct (attempts_always_5xx py_float (net url) fuel (Hnet url)) with
      (n := 6%nat) (i := 0%nat) (b := 1) (resp := @None Response) (rl := rl) (w := w)
      as (r & rl' & w' & H & Hc & _ & Hcalls & _); try assumption; try lia; try lra.
    exists r, rl', w'. repeat split; assumption. }
  split; [|split].
  - unfold MatchExporter.get_match. rewrite Hmb.
    destruct (Hrun (match_base ++ "/lol/match/v5/matches/" ++ ident)%string)
      as (r & rl' & w' & H & Hc & Hcalls).
    rewrite H.
    assert (E : (status_code r =? 200)%Z = false) by (apply Z.eqb_neq; lia).
    rewrite E. simpl. exists rl', w'. split; [reflexivity|exact Hcalls].
  - unfold MatchExporter.get_timeline. rewrite Hmb.
    destruct (Hrun (match_base ++ "/lol/match/v5/matches/" ++ ident ++ "/timeline")%string)
      as (r & rl' & w' & H & Hc & Hcalls).
    rewrite H.
    assert (E : (status_code r =? 200)%Z = false) by (apply Z.eqb_neq; lia).
    rewrite E. simpl. exists rl', w'. split; [reflexivity|exact Hcalls].
  - unfold MatchExporter.optional_summoner_profile. rewrite Hpb.
    destruct (Hrun (platform_base ++ "/lol/summoner/v4/summoners/by-puuid/" ++ ident)%string)
      as (r & rl' & w' & H & Hc & Hcalls).
    rewrite H.
    assert (E : (status_code r =? 200)%Z = false) by (apply Z.eqb_neq; lia).
    rewrite E. simpl. exists rl', w'. split; [reflexivity|exact Hcalls].
Qed.


End CallerClaims.

(** [str.lower] on a platform name that is already in lower case. *)
Definition already_lower (s : string) : string := s.

Lemma callers_after_six_5xx_witness :
  let net := fun (_ : string) (_ : nat) => Responded error_response in
  (exists rl' w',
      MatchExporter.get_match float_of_digit already_lower net 12 "euw1" "EUW1_1"
        RateLimiter.init world0
      = Some (MatchExporter.Done (Raises RuntimeError), rl', w') /\
      http_calls w' = (http_calls world0 + 6)%nat) /\
  (exists rl' w',
      MatchExporter.get_timeline float_of_digit already_lower net 12 "euw1" "EUW1_1"
        RateLimiter.init world0
      = Some (MatchExporter.Done (Returned JNull), rl', w') /\
      http_calls w' = (http_calls world0 + 6)%nat) /\
  (exists rl' w',
      MatchExporter.optional_summoner_profile float_of_digit already_lower net 12
        "euw1" "EUW1_1" RateLimiter.init world0
      = Some (MatchExporter.Done (Returned (JObj JNoField)), rl', w') /\
      http_calls w' = (http_calls world0 + 6)%nat).
Proof.
  apply (callers_after_six_5xx float_of_digit already_lower
           (fun _ _ => Responded error_response) 12 "euw1" "EUW1_1" RateLimiter.init world0
           "https://europe.api.riotgames.com" "https://euw1.api.riotgames.com").
  - reflexivity.
  - reflexivity.
  - intros url i. exists error_response. split; [reflexivity|simpl; lia].
  - simpl. lia.
  - simpl. lia.
  - simpl. lia.
Defined.


(** ** The routing tables *)

Lemma dict_get_unknown (key : string) (table : list (string * string)) :
  ~ In key (map fst table) -> MatchExporter.dict_get key table = None.
Proof.
  induction table as [|[k v] rest IH]; simpl; intro H; [reflexivity|].
  destruct (String.eqb k key) eqn:E.
  - apply String.eqb_eq in E. tauto.
  - apply IH. tauto.
Qed.

(** The three tables know the same platforms, so a platform that passes
    [platform_base_url] never makes [regional_match_base] or
    [regional_account_base] exit; the account route is the match route,
    except that the platforms routed to SEA for matches are routed to ASIA
    for accounts. *)
Theorem routing_tables_agree (lower : string -> string) (platform : string) :
  (MatchExporter.platform_base_url lower platform = None <->
   MatchExporter.regional_match_base lower platform = None) /\
  (MatchExporter.regional_match_base lower platform = None <->
   MatchExporter.regional_account_base lower platform = None) /\
  (forall base, MatchExporter.regional_match_base lower platform = Some base ->
     MatchExporter.regional_account_base lower platform
     = Some (if String.eqb base "https://sea.api.riotgames.com"
             then "https://asia.api.riotgames.com"%string else base)).
Proof.
  unfold MatchExporter.platform_base_url, MatchExporter.regional_match_base,
    MatchExporter.regional_account_base, MatchExporter.base_or_exit.
  generalize (lower platform). intro key.
  destruct (in_dec string_dec key (map fst MatchExporter.PLATFORMS)) as [Hin|Hout].
  - simpl in Hin.
    repeat (destruct Hin as [<-|Hin];
            [vm_compute;
             split; [split; discriminate|split; [split; discriminate|]];
             intros base H; inversion H; reflexivity|]).
    contradiction.
  - rewrite (dict_get_unknown key MatchExporter.PLATFORMS Hout).
    rewrite (dict_get_unknown key MatchExporter.REGIONAL_MATCH_ROUTING)
      by (intro H; apply Hout; simpl in H |- *; tauto).
    rewrite (dict_get_unknown key MatchExporter.REGIONAL_ACCOUNT_ROUTING)
      by (intro H; apply Hout; simpl in H |- *; tauto).
    split; [tauto|split; [tauto|]]. intros base H. discriminate.
Qed.

(** ** [parse_riot_id] *)

Lemma split_hash_sound (s : string) :
  forall g t, MatchExporter.split_hash s = Some (g, t) ->
    s = (g ++ String "#" t)%string /\ ~ In "#"%char (list_ascii_of_string g).
Proof.
  induction s as [|c s IH]; intros g t H; simpl in H; [discriminate|].
  destruct (Ascii.eqb c "#") eqn:E.
  - apply Ascii.eqb_eq in E. inversion H; subst. simpl. split; [reflexivity|tauto].
  - apply Ascii.eqb_neq in E.
    destruct (MatchExporter.split_hash s) as [[g' t']|]; [|discriminate].
    inversion H; subst. destruct (IH g' t eq_refl) as [Es Hno]. subst s. simpl.
    split; [reflexivity|]. intros [Hc|Hin]; [congruence|tauto].
Qed.

Lemma split_hash_complete (g t : string) :
  ~ In "#"%char (list_ascii_of_string g) ->
  MatchExporter.split_hash (g ++ String "#" t) = Some (g, t).
Proof.
  induction g as [|c g IH]; simpl; intro H; [reflexivity|].
  destruct (Ascii.eqb c "#") eqn:E.
  - apply Ascii.eqb_eq in E. subst. tauto.
  - rewrite IH by tauto. reflexivity.
Qed.

Lemma parse_riot_id_nonempty (riot_id g t : string) :
  MatchExporter.parse_riot_id riot_id = Returned (g, t) ->
  riot_id <> EmptyString /\ g <> EmptyString /\ t <> EmptyString.
Proof.
  unfold MatchExporter.parse_riot_id. intro H.
  destruct riot_id as [|c rest]; [discriminate|]. split; [discriminate|].
  destruct (MatchExporter.split_hash (String c rest)) as [[g' t']|]; [|discriminate].
  destruct g' as [|c1 g']; [discriminate|]. destruct t' as [|c2 t']; [discriminate|].
  inversion H; subst. split; discriminate.
Qed.

(** [parse_riot_id] returns a pair exactly for the strings of the form
    [game_name#tag_line] with both parts non-empty, split at the first
    ["#"]; every other string raises [ValueError]. *)
Theorem parse_riot_id_round_trip (riot_id game_name tag_line : string) :
  (MatchExporter.parse_riot_id riot_id = Returned (game_name, tag_line) <->
   riot_id = (game_name ++ String "#" tag_line)%string /\
   game_name <> EmptyString /\ tag_line <> EmptyString /\
   ~ In "#"%char (list_ascii_of_string game_name)) /\
  (MatchExporter.parse_riot_id riot_id = Raises ValueError \/
   exists g t, MatchExporter.parse_riot_id riot_id = Returned (g, t)).
Proof.
  unfold MatchExporter.parse_riot_id. split; [split|].
  - destruct (MatchExporter.split_hash riot_id) as [[g t]|] eqn:E; [|discriminate].
    destruct (split_hash_sound _ _ _ E) as [Es Hno].
    destruct g as [|c g]; [discriminate|]. destruct t as [|c' t]; [discriminate|].
    intro H. inversion H; subst. repeat split; try discriminate. exact Hno.
  - intros (Es & Hg & Ht & Hno). subst riot_id.
    rewrite split_hash_complete by exact Hno.
    destruct game_name as [|c g]; [congruence|]. destruct tag_line as [|c' t]; [congruence|].
    reflexivity.
  - destruct (MatchExporter.split_hash riot_id) as [[g t]|]; [|left; reflexivity].
    destruct g as [|c g]; [left; reflexivity|]. destruct t as [|c' t]; [left; reflexivity|].
    right. eexists _, _. reflexivity.
Qed.

(** ** [join_items] *)

Lemma item_names_skip_zero (ids : list Z) (id_to_name : Z -> option string) :
  MatchExporter.item_names (filter (fun i => negb (i =? 0)%Z) ids) id_to_name
  = MatchExporter.item_names ids id_to_name.
Proof.
  induction ids as [|i ids IH]; simpl; [reflexivity|].
  destruct (i =? 0)%Z eqn:E; simpl; [exact IH|].
  rewrite E. rewrite IH. reflexivity.
Qed.

(** [join_items] gives one entry per slot that is not empty (id 0), in slot
    order: the name when the map knows the id, the number when not.  Empty
    slots change nothing, and with an empty map the column is the one the
    exporter writes when names are not asked for. *)
Theorem join_items_skips_empty_slots (ids : list Z) (id_to_name : Z -> option string) :
  MatchExporter.item_names ids id_to_name
  = map (fun i => match id_to_name i with
                  | Some name => name
                  | None => MatchExporter.py_str i
                  end)
        (filter (fun i => negb (i =? 0)%Z) ids) /\
  MatchExporter.join_items (filter (fun i => negb (i =? 0)%Z) ids) id_to_name
  = MatchExporter.join_items ids id_to_name /\
  MatchExporter.join_items ids (fun _ => None) = MatchExporter.raw_items ids.
Proof.
  assert (E : forall m, MatchExporter.item_names ids m
              = map (fun i => match m i with
                              | Some name => name
                              | None => MatchExporter.py_str i
                              end)
                    (filter (fun i => negb (i =? 0)%Z) ids)).
  { intro m. induction ids as [|i ids IH]; simpl; [reflexivity|].
    destruct (i =? 0)%Z; simpl; [exact IH|].
    rewrite IH. destruct (m i); reflexivity. }
  unfold MatchExporter.join_items, MatchExporter.raw_items.
  split; [apply E|]. split.
  - rewrite item_names_skip_zero. reflexivity.
  - rewrite E. reflexivity.
Qed.

(** ** [derive_lane] *)

(** Whatever the three raw fields hold, the exported lane is one of six
    labels; a team position that classifies decides alone, and without a
    usable position or lane the role decides between ADC and SUPPORT. *)
Theorem derive_lane_labels (upper : string -> string) (tp lr rr : string) :
  In (MatchExporter.derive_lane upper tp lr rr)
     ["TOP"; "JUNGLE"; "MID"; "SUPPORT"; "ADC"; "UNKNOWN"]%string /\
  (forall lane, MatchExporter.classify_if (upper rr) (upper tp) = Some lane ->
     MatchExporter.derive_lane upper tp lr rr = lane) /\
  (MatchExporter.classify_if (upper rr) (upper tp) = None ->
   MatchExporter.classify_if (upper rr) (upper lr) = None ->
   MatchExporter.derive_lane upper tp lr rr
   = if String.eqb (upper rr) "DUO_CARRY" then "ADC"%string
     else if String.eqb (upper rr) "DUO_SUPPORT" then "SUPPORT"%string
     else "UNKNOWN"%string).
Proof.
  assert (Hc : forall up_rr base lane,
    MatchExporter.classify up_rr base = Some lane ->
    In lane ["TOP"; "JUNGLE"; "MID"; "SUPPORT"; "ADC"]%string).
  { intros up_rr base lane. unfold MatchExporter.classify.
    repeat match goal with
           | |- context [if ?b then _ else _] => destruct b
           end; intro H; inversion H; simpl; tauto. }
  assert (Hci : forall up_rr s lane,
    MatchExporter.classify_if up_rr s = Some lane ->
    In lane ["TOP"; "JUNGLE"; "MID"; "SUPPORT"; "ADC"]%string).
  { intros up_rr s lane. unfold MatchExporter.classify_if.
    destruct s; [discriminate|]. apply Hc. }
  assert (Hne : forall lane, In lane ["TOP"; "JUNGLE"; "MID"; "SUPPORT"; "ADC"]%string ->
                             exists c rest, lane = String c rest).
  { intros lane H. simpl in H.
    repeat (destruct H as [H|H]; [subst; eexists _, _; reflexivity|]). tauto. }
  unfold MatchExporter.derive_lane.
  destruct (MatchExporter.classify_if (upper rr) (upper tp)) as [l1|] eqn:E1.
  - pose proof (Hci _ _ _ E1) as Hin. destruct (Hne _ Hin) as (c & rest & ->). simpl.
    split; [simpl in Hin; tauto|]. split; [intros lane H; congruence|discriminate].
  - simpl.
    destruct (MatchExporter.classify_if (upper rr) (upper lr)) as [l2|] eqn:E2.
    + pose proof (Hci _ _ _ E2) as Hin. destruct (Hne _ Hin) as (c & rest & ->). simpl.
      split; [simpl in Hin; tauto|]. split; [discriminate|discriminate].
    + simpl. split; [|split; [discriminate|intros _ _]];
        destruct (String.eqb (upper rr) "DUO_CARRY");
        try destruct (String.eqb (upper rr) "DUO_SUPPORT"); simpl; tauto.
Qed.

(** ** [RateLimiter.acquire]: when it returns and when it cannot *)

Lemma simple_attempt_blocked (t_now : Q) (s : RateLimiter.t) :
  (RateLimiter.short_max s <= 0)%Z \/ (RateLimiter.long_max s <= 0)%Z ->
  exists s' d, RateLimiter.attempt t_now s = (s', Wait d) /\ same_limits s s'.
Proof.
  intro H. unfold RateLimiter.attempt.
  assert (E : (Z.of_nat (length (purge t_now (RateLimiter.short_window s)
                                   (RateLimiter._short s))) <? RateLimiter.short_max s)%Z
              && (Z.of_nat (length (purge t_now (RateLimiter.long_window s)
                                      (RateLimiter._long s))) <? RateLimiter.long_max s)%Z
              = false).
  { apply andb_false_iff. destruct H as [H|H]; [left|right]; apply Z.ltb_ge; lia. }
  rewrite E. eexists _, _. split; [reflexivity|].
  unfold same_limits. simpl. repeat split; reflexivity.
Qed.

Lemma zero_limit_blocks (fuel : nat) :
  forall (s : RateLimiter.t) (w : World),
    (RateLimiter.short_max s <= 0)%Z \/ (RateLimiter.long_max s <= 0)%Z ->
    RateLimiter.acquire fuel s w = None.
Proof.
  induction fuel as [|fuel IH]; intros s w H; [reflexivity|].
  simpl. destruct (simple_attempt_blocked (now w) s H) as (s' & d & E & L).
  rewrite E. apply IH.
  destruct L as (L1 & _ & L3 & _). rewrite L1, L3. exact H.
Qed.

Lemma simple_acquire_sleeps (fuel : nat) :
  forall (s : RateLimiter.t) (w : World) s' w',
    RateLimiter.acquire fuel s w = Some (s', w') ->
    same_limits s s' /\
    (exists waits, slept w' = slept w ++ waits /\ Forall (fun d => (1 # 1000) <= d) waits) /\
    (exists sh lg, RateLimiter._short s' = sh ++ [now w'] /\
                   RateLimiter._long s' = lg ++ [now w']).
Proof.
  induction fuel as [|fuel IH]; intros s w s' w' H; simpl in H; [discriminate|].
  unfold RateLimiter.attempt in H.
  destruct ((Z.of_nat (length (purge (now w) (RateLimiter.short_window s)
                                 (RateLimiter._short s))) <? RateLimiter.short_max s)%Z
            && (Z.of_nat (length (purge (now w) (RateLimiter.long_window s)
                                    (RateLimiter._long s))) <? RateLimiter.long_max s)%Z).
  - inversion H; subst; clear H. simpl.
    split; [unfold same_limits; simpl; tauto|]. split.
    + exists []. rewrite app_nil_r. split; [reflexivity|constructor].
    + eexists _, _. split; reflexivity.
  - apply IH in H. destruct H as ((L1 & L2 & L3 & L4) & (waits & Sl & Fw) & St).
    simpl in L1, L2, L3, L4, Sl.
    split; [unfold same_limits; tauto|]. split; [|exact St].
    eexists (_ :: waits). rewrite Sl, <- app_assoc. split; [reflexivity|].
    constructor; [|exact Fw]. apply py_max3_bounds.
Qed.

(** [RateLimiter.acquire] returns exactly when both limits are 1 or more;
    with a limit of 0 or less it sleeps and checks again for ever.  When it
    returns, the limits are unchanged, nothing was printed or requested,
    every sleep lasted at least a millisecond, and the permit is stamped in
    both windows with the clock at the return; with room in both windows it
    returns at once, the clock untouched. *)
Theorem exporter_acquire_returns (s : RateLimiter.t) (w : World) :
  ((exists fuel s' w', RateLimiter.acquire fuel s w = Some (s', w')) <->
   (1 <= RateLimiter.short_max s)%Z /\ (1 <= RateLimiter.long_max s)%Z) /\
  (forall fuel s' w',
      RateLimiter.acquire fuel s w = Some (s', w') ->
      same_limits s s' /\ printed w' = printed w /\ http_calls w' = http_calls w /\
      (exists waits, slept w' = slept w ++ waits /\
                     Forall (fun d => (1 # 1000) <= d) waits) /\
      (exists sh lg, RateLimiter._short s' = sh ++ [now w'] /\
                     RateLimiter._long s' = lg ++ [now w'])) /\
  ((Z.of_nat (length (RateLimiter._short s)) < RateLimiter.short_max s)%Z ->
   (Z.of_nat (length (RateLimiter._long s)) < RateLimiter.long_max s)%Z ->
   forall fuel, exists s', RateLimiter.acquire (S fuel) s w = Some (s', w)).
Proof.
  split; [split|split].
  - intros (fuel & s' & w' & H).
    destruct (Z_le_gt_dec (RateLimiter.short_max s) 0) as [Hs|Hs].
    { rewrite (zero_limit_blocks fuel s w (or_introl Hs)) in H. discriminate. }
    destruct (Z_le_gt_dec (RateLimiter.long_max s) 0) as [Hl|Hl].
    { rewrite (zero_limit_blocks fuel s w (or_intror Hl)) in H. discriminate. }
    lia.
  - intros [Hs Hl].
    destruct (simple_acquire_returns (S (simple_pending (now w) s)) s w Hs Hl)
      as (s' & w' & H & _); [lia|].
    eexists _, s', w'. exact H.
  - intros fuel s' w' H.
    destruct (simple_acquire_sleeps fuel s w s' w' H) as (L & Sl & St).
    destruct (simple_acquire_frame fuel s w s' w' H) as [Hc Hp].
    split; [exact L|]. split; [exact Hp|]. split; [exact Hc|]. split; [exact Sl|exact St].
  - intros Rs Rl fuel.
    destruct (simple_acquire_at_once fuel s w Rs Rl) as (s' & H & _).
    exists s'. exact H.
Qed.

(** ** [get_match_ids]: paging *)

(** Full pages still needed for [remaining] ids. *)
Definition pages_needed (remaining : Z) : Z := ((Z.max 0 remaining + 99) / 100)%Z.

Lemma pages_needed_nonneg (r : Z) : (0 <= pages_needed r)%Z.
Proof. unfold pages_needed. apply Z.div_pos; lia. Qed.

Lemma pages_needed_step (r n : Z) :
  (0 < r)%Z -> (Z.min r 100 <= n)%Z -> (pages_needed (r - n) + 1 <= pages_needed r)%Z.
Proof.
  intros Hr Hn. unfold pages_needed.
  Z.to_euclidean_division_equations. lia.
Qed.

Lemma pages_needed_mono (r r' : Z) : (r' <= r)%Z -> (pages_needed r' <= pages_needed r)%Z.
Proof. intro H. unfold pages_needed. apply Z.div_le_mono; lia. Qed.

Lemma pages_needed_pos (r : Z) : (0 < r)%Z -> (1 <= pages_needed r)%Z.
Proof.
  intro H. unfold pages_needed.
  assert (H1 : (100 <= Z.max 0 r + 99)%Z) by lia.
  apply (Z.div_le_mono _ _ 100) in H1; [|lia]. rewrite Z.div_same in H1 by lia. exact H1.
Qed.

Lemma existsb_eqb_In (m : string) (seen : list string) :
  existsb (String.eqb m) seen = true <-> In m seen.
Proof.
  rewrite existsb_exists. split.
  - intros (x & Hin & E). apply String.eqb_eq in E. subst. exact Hin.
  - intro H. exists m. split; [exact H|apply String.eqb_refl].
Qed.

Lemma fromkeys_In (l : list string) :
  forall seen x, In x (MatchExporter.fromkeys seen l) <-> In x l /\ ~ In x seen.
Proof.
  induction l as [|m l IH]; intros seen x; simpl; [tauto|].
  destruct (existsb (String.eqb m) seen) eqn:E.
  - apply existsb_eqb_In in E. rewrite IH. split.
    + intros [H1 H2]. tauto.
    + intros [[H1|H1] H2]; [subst; tauto|tauto].
  - assert (Hn : ~ In m seen) by (rewrite <- existsb_eqb_In, E; discriminate).
    simpl. rewrite IH. simpl. split.
    + intros [H|[H1 H2]]; [subst; tauto|tauto].
    + intros [[H1|H1] H2]; [tauto|].
      destruct (string_dec m x) as [->|Hne]; [tauto|]. right. split; [exact H1|tauto].
Qed.

Lemma fromkeys_NoDup (l : list string) : forall seen, NoDup (MatchExporter.fromkeys seen l).
Proof.
  induction l as [|m l IH]; intro seen; simpl; [constructor|].
  destruct (existsb (String.eqb m) seen); [apply IH|].
  constructor; [|apply IH]. rewrite fromkeys_In. simpl. tauto.
Qed.

Lemma fromkeys_id (l : list string) :
  forall seen, NoDup l -> (forall x, In x l -> ~ In x seen) -> MatchExporter.fromkeys seen l = l.
Proof.
  induction l as [|m l IH]; intros seen Hnd Hdis; simpl; [reflexivity|].
  inversion Hnd as [|? ? Hm Hl]; subst.
  destruct (existsb (String.eqb m) seen) eqn:E.
  - apply existsb_eqb_In in E. exfalso. apply (Hdis m); [left; reflexivity|exact E].
  - f_equal. apply IH; [exact Hl|].
    intros x Hx [Hs|Hs]; [subst; tauto|]. apply (Hdis x); [right; exact Hx|exact Hs].
Qed.

Lemma firstn_keeps_NoDup {A : Type} (n : nat) (l : list A) : NoDup l -> NoDup (firstn n l).
Proof.
  intro H. rewrite <- (firstn_skipn n l) in H. apply NoDup_app_remove_r in H. exact H.
Qed.

Lemma firstn_In {A : Type} (n : nat) (l : list A) (x : A) : In x (firstn n l) -> In x l.
Proof.
  intro H. rewrite <- (firstn_skipn n l). apply in_or_app. left. exact H.
Qed.

Lemma slice_to_is_prefix (count : Z) (l : list string) :
  exists n, MatchExporter.slice_to count l = firstn n l.
Proof.
  unfold MatchExporter.slice_to. destruct (0 <=? count)%Z; eexists; reflexivity.
Qed.

Lemma slice_to_nil (count : Z) : MatchExporter.slice_to count [] = [].
Proof. unfold MatchExporter.slice_to. destruct (0 <=? count)%Z; apply firstn_nil. Qed.

Lemma slice_to_length (count : Z) (l : list string) :
  (0 <= count)%Z -> (Z.of_nat (length (MatchExporter.slice_to count l)) <= count)%Z.
Proof.
  intro H. unfold MatchExporter.slice_to.
  destruct (0 <=? count)%Z eqn:E; [|apply Z.leb_gt in E; lia].
  rewrite length_firstn. lia.
Qed.

Lemma firstn_then_more {A : Type} (a c : nat) (l : list A) :
  firstn a l ++ firstn c (skipn a l) = firstn (a + c) l.
Proof.
  revert l. induction a as [|a IH]; intro l; simpl; [reflexivity|].
  destruct l as [|x l]; simpl; [rewrite firstn_nil; reflexivity|].
  rewrite IH. reflexivity.
Qed.

Section MatchIdsFacts.

Variable lower : string -> string.
Variable fetch_batch : nat -> MatchExporter.BatchParams -> Outcome (list string).

(** A call that asks for between 1 and 100 ids, from a start that is not
    negative. *)
Definition asked_well (p : MatchExporter.BatchParams) : Prop :=
  (1 <= MatchExporter.p_count p <= 100)%Z /\ (0 <= MatchExporter.p_start p)%Z.

(** An id that some call of [fetch_batch] handed out. *)
Definition fetched (m : string) : Prop :=
  exists n p batch, fetch_batch n p = Returned batch /\ In m batch.

Lemma fetched_batch (n : nat) (p : MatchExporter.BatchParams) (batch : list string) :
  fetch_batch n p = Returned batch -> Forall fetched batch.
Proof.
  intro H. apply Forall_forall. intros m Hm. exists n, p, batch. tauto.
Qed.

Lemma page_loop_bounded (fuel : nat) :
  forall params start_idx remaining match_ids requests,
    (Z.to_nat remaining < fuel)%nat -> (0 <= start_idx)%Z ->
    Forall asked_well requests -> Forall fetched match_ids ->
    exists out requests',
      MatchExporter.page_loop fetch_batch fuel params start_idx remaining match_ids requests
      = Some (out, requests') /\
      Forall asked_well requests' /\
      (length requests' <= length requests + Z.to_nat (pages_needed remaining))%nat /\
      ((remaining <= 0)%Z -> out = Returned match_ids /\ requests' = requests) /\
      (forall ids, out = Returned ids -> Forall fetched ids).
Proof.
  induction fuel as [|fuel IH]; intros params start_idx remaining match_ids requests
    Hfuel Hstart Hreq Hids; [lia|].
  simpl. destruct (0 <? remaining)%Z eqn:Er; simpl.
  2:{ exists (Returned match_ids), requests. split; [reflexivity|].
      split; [exact Hreq|]. split; [lia|]. split; [tauto|].
      intros ids E. inversion E; subst. exact Hids. }
  apply Z.ltb_lt in Er.
  pose proof (pages_needed_pos remaining Er) as Hp.
  set (p := MatchExporter.with_start_count start_idx (Z.min remaining 100) params).
  assert (Hp_ok : asked_well p) by (unfold asked_well, p; simpl; lia).
  assert (Hreq' : Forall asked_well (requests ++ [p]))
    by (apply Forall_app; split; [exact Hreq|constructor; [exact Hp_ok|constructor]]).
  assert (Hlen : length (requests ++ [p]) = S (length requests))
    by (rewrite length_app; simpl; lia).
  destruct (fetch_batch (length requests) p) as [batch|e] eqn:F.
  2:{ exists (Raises e), (requests ++ [p]). split; [reflexivity|].
      split; [exact Hreq'|]. split; [lia|]. split; [lia|]. intros ids E. discriminate. }
  pose proof (fetched_batch _ _ _ F) as Hb.
  destruct batch as [|m batch].
  { exists (Returned match_ids), (requests ++ [p]). split; [reflexivity|].
    split; [exact Hreq'|]. split; [lia|]. split; [lia|].
    intros ids E. inversion E; subst. exact Hids. }
  set (b := m :: batch) in *.
  assert (Hn : (1 <= Z.of_nat (length b))%Z) by (unfold b; simpl; lia).
  destruct (Z.of_nat (length b) <? Z.min remaining 100)%Z eqn:Es.
  { exists (Returned (match_ids ++ b)), (requests ++ [p]). split; [reflexivity|].
    split; [exact Hreq'|]. split; [lia|]. split; [lia|].
    intros ids E. inversion E; subst. apply Forall_app. tauto. }
  apply Z.ltb_ge in Es.
  destruct (IH p (start_idx + Z.of_nat (length b))%Z (remaining - Z.of_nat (length b))%Z
              (match_ids ++ b) (requests ++ [p]))
    as (out & requests' & H & A & B & _ & D); try lia; try assumption.
  { apply Forall_app. tauto. }
  exists out, requests'. split; [exact H|]. split; [exact A|].
  pose proof (pages_needed_step remaining (Z.of_nat (length b)) Er Es).
  pose proof (pages_needed_nonneg (remaining - Z.of_nat (length b))).
  split; [lia|]. split; [lia|exact D].
Qed.

Lemma queue_loop_bounded (fuel : nat) :
  forall local_params remaining match_ids requests,
    (Z.to_nat remaining < fuel)%nat -> (0 <= MatchExporter.p_start local_params)%Z ->
    Forall asked_well requests -> Forall fetched match_ids ->
    exists out requests',
      MatchExporter.queue_loop fetch_batch fuel local_params remaining match_ids requests
      = Some (out, requests') /\
      Forall asked_well requests' /\
      (length requests' <= length requests + Z.to_nat (pages_needed remaining) + 1)%nat /\
      ((remaining <= 0)%Z -> out = Returned (match_ids, remaining) /\ requests' = requests) /\
      (forall ids remaining', out = Returned (ids, remaining') ->
         Forall fetched ids /\ (remaining' <= remaining)%Z /\
         (length requests' + Z.to_nat (pages_needed remaining')
          <= length requests + Z.to_nat (pages_needed remaining) + 1)%nat).
Proof.
  induction fuel as [|fuel IH]; intros local_params remaining match_ids requests
    Hfuel Hstart Hreq Hids; [lia|].
  simpl. destruct (Z.min remaining 100 <=? 0)%Z eqn:Er.
  { apply Z.leb_le in Er.
    exists (Returned (match_ids, remaining)), requests. split; [reflexivity|].
    split; [exact Hreq|]. split; [lia|]. split; [tauto|].
    intros ids remaining' E. inversion E; subst. split; [exact Hids|]. lia. }
  apply Z.leb_gt in Er. assert (Hr : (0 < remaining)%Z) by lia.
  pose proof (pages_needed_pos remaining Hr) as Hp.
  set (p := MatchExporter.with_start_count (MatchExporter.p_start local_params)
              (Z.min remaining 100) local_params).
  assert (Hp_ok : asked_well p) by (unfold asked_well, p; simpl; lia).
  assert (Hreq' : Forall asked_well (requests ++ [p]))
    by (apply Forall_app; split; [exact Hreq|constructor; [exact Hp_ok|constructor]]).
  assert (Hlen : length (requests ++ [p]) = S (length requests))
    by (rewrite length_app; simpl; lia).
  destruct (fetch_batch (length requests) p) as [batch|e] eqn:F.
  2:{ exists (Raises e), (requests ++ [p]). split; [reflexivity|].
      split; [exact Hreq'|]. split; [lia|]. split; [lia|].
      intros ids remaining' E. discriminate. }
  pose proof (fetched_batch _ _ _ F) as Hb.
  destruct batch as [|m batch].
  { exists (Returned (match_ids, remaining)), (requests ++ [p]). split; [reflexivity|].
    split; [exact Hreq'|]. split; [lia|]. split; [lia|].
    intros ids remaining' E. inversion E; subst. split; [exact Hids|]. lia. }
  set (b := m :: batch) in *.
  assert (Hn : (1 <= Z.of_nat (length b))%Z) by (unfold b; simpl; lia).
  destruct (Z.of_nat (length b) <? Z.min remaining 100)%Z eqn:Es.
  { exists (Returned (match_ids ++ b, (remaining - Z.of_nat (length b))%Z)), (requests ++ [p]).
    split; [reflexivity|]. split; [exact Hreq'|]. split; [lia|]. split; [lia|].
    intros ids remaining' E.
    assert (E1 : ids = match_ids ++ b) by congruence.
    assert (E2 : remaining' = (remaining - Z.of_nat (length b))%Z) by congruence.
    subst ids remaining'.
    split; [apply Forall_app; tauto|].
    pose proof (pages_needed_mono remaining (remaining - Z.of_nat (length b)) ltac:(lia)).
    pose proof (pages_needed_nonneg (remaining - Z.of_nat (length b))).
    lia. }
  apply Z.ltb_ge in Es.
  pose proof (pages_needed_step remaining (Z.of_nat (length b)) Hr Es) as Hstep.
  pose proof (pages_needed_nonneg (remaining - Z.of_nat (length b))) as Hnn.
  destruct (IH (MatchExporter.with_start_count
                  (MatchExporter.p_start p + Z.of_nat (length b))
                  (MatchExporter.p_count p) p)
               (remaining - Z.of_nat (length b))%Z (match_ids ++ b) (requests ++ [p]))
    as (out & requests' & H & A & B & _ & D); try lia; try assumption.
  { simpl. lia. }
  { apply Forall_app. tauto. }
  exists out, requests'. split; [exact H|]. split; [exact A|].
  split; [lia|]. split; [lia|].
  intros ids remaining' E. destruct (D ids remaining' E) as (D1 & D2 & D3).
  split; [exact D1|]. lia.
Qed.

Lemma queues_loop_bounded (queues : list Z) :
  forall fuel params remaining match_ids requests,
    (Z.to_nat remaining < fuel)%nat ->
    Forall asked_well requests -> Forall fetched match_ids ->
    exists out requests',
      MatchExporter.queues_loop fetch_batch fuel params queues remaining match_ids requests
      = Some (out, requests') /\
      Forall asked_well requests' /\
      (length requests'
       <= length requests + Z.to_nat (pages_needed remaining) + length queues)%nat /\
      ((remaining <= 0)%Z -> out = Returned match_ids /\ requests' = requests) /\
      (forall ids, out = Returned ids -> Forall fetched ids).
Proof.
  induction queues as [|q queues IH]; intros fuel params remaining match_ids requests
    Hfuel Hreq Hids; simpl.
  { exists (Returned match_ids), requests. split; [reflexivity|].
    split; [exact Hreq|]. split; [lia|]. split; [tauto|].
    intros ids E. inversion E; subst. exact Hids. }
  destruct (queue_loop_bounded fuel
              (MatchExporter.with_start_count 0 (MatchExporter.p_count params)
                 (MatchExporter.with_queue q params))
              remaining match_ids requests Hfuel)
    as (out & requests1 & H & A & B & C & D); try assumption; [simpl; lia|].
  rewrite H. destruct out as [[ids1 remaining1]|e].
  2:{ exists (Raises e), requests1. split; [reflexivity|]. split; [exact A|].
      split; [lia|]. split; [|intros ids E; discriminate].
      intro Hr. destruct (C Hr) as [E _]. discriminate. }
  destruct (D ids1 remaining1 eq_refl) as (D1 & D2 & D3).
  destruct (remaining1 <=? 0)%Z eqn:Er.
  { exists (Returned ids1), requests1. split; [reflexivity|]. split; [exact A|].
    split; [lia|]. split.
    - intro Hr. destruct (C Hr) as [E ->]. inversion E; subst. tauto.
    - intros ids E. inversion E; subst. exact D1. }
  apply Z.leb_gt in Er.
  destruct (IH fuel params remaining1 ids1 requests1) as (out & requests' & H' & A' & B' & _ & D');
    try assumption; [lia|].
  exists out, requests'. split; [exact H'|]. split; [exact A'|].
  split; [lia|]. split; [lia|exact D'].
Qed.

(** For a known platform, [get_match_ids] comes back (one turn of a loop
    per id asked for is enough), having asked the server at most
    [ceil(count / 100)] times, plus once per queue when there are several
    queues, each time for between 1 and 100 ids; what it returns has no
    duplicate, at most [count] entries, and only ids the server handed
    out.  With [count] at 0 or below it returns the empty list without
    asking. *)
Theorem match_ids_are_bounded
    (fuel : nat) (platform : string) (count : Z) (queues : option (list Z))
    (start_time end_time : option Z) (base : string) :
  MatchExporter.regional_match_base lower platform = Some base ->
  (Z.to_nat count < fuel)%nat ->
  exists out requests,
    MatchExporter.get_match_ids lower fetch_batch fuel platform count queues
      start_time end_time = Some (MatchExporter.Done out, requests) /\
    Forall asked_well requests /\
    (length requests
     <= Z.to_nat (pages_needed count)
        + match queues with
          | Some (q1 :: q2 :: rest) => length (q1 :: q2 :: rest)
          | _ => 0
          end)%nat /\
    ((count <= 0)%Z -> out = Returned [] /\ requests = []) /\
    (forall ids, out = Returned ids ->
       NoDup ids /\ (Z.of_nat (length ids) <= Z.max 0 count)%Z /\ Forall fetched ids).
Proof.
  intros Hbase Hfuel. unfold MatchExporter.get_match_ids. rewrite Hbase.
  set (params := {| MatchExporter.p_start := 0;
                    MatchExporter.p_count := Z.min count 100;
                    MatchExporter.p_queue := None;
                    MatchExporter.p_startTime := MatchExporter.if_truthy start_time;
                    MatchExporter.p_endTime := MatchExporter.if_truthy end_time |}).
  assert (Hpaged : exists out requests,
    match queues with
    | Some (q1 :: q2 :: rest) =>
        MatchExporter.queues_loop fetch_batch fuel params (q1 :: q2 :: rest) count [] []
    | Some [q] =>
        MatchExporter.page_loop fetch_batch fuel (MatchExporter.with_queue q params) 0 count [] []
    | _ => MatchExporter.page_loop fetch_batch fuel params 0 count [] []
    end = Some (out, requests) /\
    Forall asked_well requests /\
    (length requests
     <= Z.to_nat (pages_needed count)
        + match queues with
          | Some (q1 :: q2 :: rest) => length (q1 :: q2 :: rest)
          | _ => 0
          end)%nat /\
    ((count <= 0)%Z -> out = Returned [] /\ requests = []) /\
    (forall ids, out = Returned ids -> Forall fetched ids)).
  { destruct queues as [[|q1 [|q2 rest]]|].
    - destruct (page_loop_bounded fuel params 0 count [] []) as (out & rq & H & A & B & C & D);
        try lia; try constructor.
      exists out, rq. simpl in B. repeat split; try assumption; try lia; apply C; assumption.
    - destruct (page_loop_bounded fuel (MatchExporter.with_queue q1 params) 0 count [] [])
        as (out & rq & H & A & B & C & D); try lia; try constructor.
      exists out, rq. simpl in B. repeat split; try assumption; try lia; apply C; assumption.
    - destruct (queues_loop_bounded (q1 :: q2 :: rest) fuel params count [] [])
        as (out & rq & H & A & B & C & D); try lia; try constructor.
      exists out, rq. simpl in B. repeat split; try assumption; try (simpl; lia);
        apply C; assumption.
    - destruct (page_loop_bounded fuel params 0 count [] []) as (out & rq & H & A & B & C & D);
        try lia; try constructor.
      exists out, rq. simpl in B. repeat split; try assumption; try lia; apply C; assumption. }
  destruct Hpaged as (out & requests & H & A & B & C & D).
  rewrite H. destruct out as [match_ids|e].
  - exists (Returned (MatchExporter.slice_to count (MatchExporter.fromkeys [] match_ids))),
      requests.
    split; [reflexivity|]. split; [exact A|]. split; [exact B|]. split.
    + intro Hc. destruct (C Hc) as [E ->]. inversion E; subst. split; [|reflexivity].
      simpl. rewrite slice_to_nil. reflexivity.
    + intros ids E. inversion E; subst. clear E.
      destruct (slice_to_is_prefix count (MatchExporter.fromkeys [] match_ids)) as [n En].
      split; [rewrite En; apply firstn_keeps_NoDup, fromkeys_NoDup|]. split.
      * destruct (Z_le_gt_dec count 0) as [Hc|Hc].
        -- destruct (C Hc) as [E _]. inversion E; subst. simpl.
           rewrite slice_to_nil. simpl. lia.
        -- pose proof (slice_to_length count (MatchExporter.fromkeys [] match_ids)). lia.
      * rewrite En. apply Forall_forall. intros m Hm. apply firstn_In in Hm.
        apply fromkeys_In in Hm. destruct Hm as [Hm _].
        pose proof (D match_ids eq_refl) as Hf. rewrite Forall_forall in Hf. apply Hf, Hm.
  - exists (Raises e), requests. split; [reflexivity|]. split; [exact A|].
    split; [exact B|]. split.
    + intro Hc. destruct (C Hc) as [E _]. discriminate.
    + intros ids E. discriminate.
Qed.

End MatchIdsFacts.

Lemma match_ids_are_bounded_witness :
  let fetch_batch := fun (_ : nat) (_ : MatchExporter.BatchParams) =>
                       Returned ["EUW1_1"; "EUW1_2"; "EUW1_1"]%string in
  exists out requests,
    MatchExporter.get_match_ids already_lower fetch_batch 3 "euw1" 2 None None None
    = Some (MatchExporter.Done out, requests) /\
    Forall asked_well requests /\
    (length requests <= Z.to_nat (pages_needed 2) + 0)%nat /\
    ((2 <= 0)%Z -> out = Returned [] /\ requests = []) /\
    (forall ids, out = Returned ids ->
       NoDup ids /\ (Z.of_nat (length ids) <= Z.max 0 2)%Z /\
       Forall (fetched fetch_batch) ids).
Proof.
  apply (match_ids_are_bounded already_lower
           (fun _ _ => Returned ["EUW1_1"; "EUW1_2"; "EUW1_1"]%string)
           3 "euw1" 2 None None None "https://europe.api.riotgames.com").
  - reflexivity.
  - simpl. lia.
Defined.

(** A server that holds, for each queue filter, a fixed list of match ids
    and answers a call with the page it is asked for. *)
Definition paged_server (held : option Z -> list string)
    (n : nat) (p : MatchExporter.BatchParams) : Outcome (list string) :=
  Returned (firstn (Z.to_nat (MatchExporter.p_count p))
              (skipn (Z.to_nat (MatchExporter.p_start p)) (held (MatchExporter.p_queue p)))).

Lemma page_loop_exact (held : option Z -> list string) (fuel : nat) :
  forall params remaining requests (a : nat),
    (Z.to_nat remaining < fuel)%nat ->
    (a <= length (held (MatchExporter.p_queue params)))%nat ->
    exists requests',
      MatchExporter.page_loop (paged_server held) fuel params (Z.of_nat a) remaining
        (firstn a (held (MatchExporter.p_queue params))) requests
      = Some (Returned (firstn (a + Z.to_nat remaining)
                          (held (MatchExporter.p_queue params))), requests').
Proof.
  induction fuel as [|fuel IH]; intros params remaining requests a Hfuel Ha; [lia|].
  set (Lq := held (MatchExporter.p_queue params)) in *.
  simpl. destruct (0 <? remaining)%Z eqn:Er; simpl.
  { apply Z.ltb_lt in Er.
    unfold paged_server at 1. simpl. fold Lq. rewrite Nat2Z.id.
    set (c := Z.to_nat (Z.min remaining 100)).
    assert (Hc : (1 <= c <= Z.to_nat remaining)%nat) by (unfold c; lia).
    assert (Hlen : length (firstn c (skipn a Lq)) = Nat.min c (length Lq - a))
      by (rewrite length_firstn, length_skipn; reflexivity).
    destruct (firstn c (skipn a Lq)) as [|m batch] eqn:Eb.
    - exists (requests ++ [MatchExporter.with_start_count (Z.of_nat a)
                            (Z.min remaining 100) params]).
      simpl in Hlen. assert (length Lq = a) by lia.
      rewrite !firstn_all2 by lia. reflexivity.
    - rewrite <- Eb in Hlen. rewrite <- Eb. rewrite Hlen.
      fold (paged_server held).
      destruct (Z.of_nat (Nat.min c (length Lq - a)) <? Z.min remaining 100)%Z eqn:Es.
      + apply Z.ltb_lt in Es.
        exists (requests ++ [MatchExporter.with_start_count (Z.of_nat a)
                              (Z.min remaining 100) params]).
        rewrite (firstn_all2 (n := c) (skipn a Lq)) by (rewrite length_skipn; lia).
        rewrite firstn_skipn. rewrite firstn_all2 by lia. reflexivity.
      + apply Z.ltb_ge in Es.
        assert (Hmin : Nat.min c (length Lq - a) = c) by lia.
        rewrite Hmin. rewrite firstn_then_more.
        replace (Z.of_nat a + Z.of_nat c)%Z with (Z.of_nat (a + c)) by lia.
        destruct (IH (MatchExporter.with_start_count (Z.of_nat a) (Z.min remaining 100) params)
                    (remaining - Z.of_nat c)%Z
                    (requests ++ [MatchExporter.with_start_count (Z.of_nat a)
                                    (Z.min remaining 100) params])
                    (a + c)%nat) as [requests' H].
        * lia.
        * simpl. fold Lq. lia.
        * simpl in H. fold Lq in H. exists requests'. rewrite H.
          replace (a + c + Z.to_nat (remaining - Z.of_nat c))%nat
            with (a + Z.to_nat remaining)%nat by lia.
          reflexivity. }
  apply Z.ltb_ge in Er. exists requests.
  replace (Z.to_nat remaining) with 0%nat by lia. rewrite Nat.add_0_r. reflexivity.
Qed.

(** Against a server that pages one fixed list without duplicates, the
    branch of [get_match_ids] for no queue or a single queue returns
    exactly the first [count] ids of the list held for that queue, in the
    server's order. *)
Theorem single_queue_paging_is_exact
    (lower : string -> string) (held : option Z -> list string)
    (fuel : nat) (platform : string) (count : Z) (queues : option (list Z))
    (start_time end_time : option Z) (base : string) :
  let selected := match queues with
                  | Some (q :: _) => Some q
                  | _ => None
                  end in
  MatchExporter.regional_match_base lower platform = Some base ->
  (Z.to_nat count < fuel)%nat ->
  (length (match queues with Some qs => qs | None => [] end) <= 1)%nat ->
  NoDup (held selected) ->
  exists requests,
    MatchExporter.get_match_ids lower (paged_server held) fuel platform count queues
      start_time end_time
    = Some (MatchExporter.Done (Returned (firstn (Z.to_nat count) (held selected))), requests).
Proof.
  intros selected Hbase Hfuel Hq Hnd.
  unfold MatchExporter.get_match_ids. rewrite Hbase.
  set (params := {| MatchExporter.p_start := 0;
                    MatchExporter.p_count := Z.min count 100;
                    MatchExporter.p_queue := None;
                    MatchExporter.p_startTime := MatchExporter.if_truthy start_time;
                    MatchExporter.p_endTime := MatchExporter.if_truthy end_time |}).
  assert (Hpaged : exists requests,
    match queues with
    | Some (q1 :: q2 :: rest) =>
        MatchExporter.queues_loop (paged_server held) fuel params (q1 :: q2 :: rest) count [] []
    | Some [q] =>
        MatchExporter.page_loop (paged_server held) fuel (MatchExporter.with_queue q params)
          0 count [] []
    | _ => MatchExporter.page_loop (paged_server held) fuel params 0 count [] []
    end = Some (Returned (firstn (Z.to_nat count) (held selected)), requests)).
  { destruct queues as [[|q1 [|q2 rest]]|]; simpl in Hq; try lia.
    - destruct (page_loop_exact held fuel params count [] 0%nat) as [rq H]; [lia|simpl; lia|].
      exists rq. exact H.
    - destruct (page_loop_exact held fuel (MatchExporter.with_queue q1 params) count [] 0%nat)
        as [rq H]; [lia|simpl; lia|].
      exists rq. exact H.
    - destruct (page_loop_exact held fuel params count [] 0%nat) as [rq H]; [lia|simpl; lia|].
      exists rq. exact H. }
  destruct Hpaged as [requests H]. rewrite H. exists requests.
  assert (Hnd' : NoDup (firstn (Z.to_nat count) (held selected)))
    by (apply firstn_keeps_NoDup; exact Hnd).
  rewrite (fromkeys_id _ [] Hnd') by (intros x _ []).
  unfold MatchExporter.slice_to. destruct (0 <=? count)%Z eqn:Ec.
  - rewrite firstn_firstn, Nat.min_id. reflexivity.
  - apply Z.leb_gt in Ec. replace (Z.to_nat count) with 0%nat by lia. reflexivity.
Qed.

Lemma single_queue_paging_is_exact_witness :
  let held := fun q : option Z =>
                match q with
                | Some 420%Z => ["EUW1_7"; "EUW1_5"; "EUW1_2"]%string
                | _ => ["EUW1_7"; "EUW1_6"; "EUW1_5"; "EUW1_2"]%string
                end in
  exists requests,
    MatchExporter.get_match_ids already_lower (paged_server held) 3 "euw1" 2 (Some [420%Z])
      None None
    = Some (MatchExporter.Done (Returned (firstn (Z.to_nat 2) (held (Some 420%Z)))), requests).
Proof.
  apply (single_queue_paging_is_exact already_lower
           (fun q : option Z =>
              match q with
              | Some 420%Z => ["EUW1_7"; "EUW1_5"; "EUW1_2"]%string
              | _ => ["EUW1_7"; "EUW1_6"; "EUW1_5"; "EUW1_2"]%string
              end)
           3 "euw1" 2 (Some [420%Z]) None None "https://europe.api.riotgames.com").
  - reflexivity.
  - simpl. lia.
  - simpl. lia.
  - simpl. repeat constructor; simpl; intuition discriminate.
Defined.

(** ** [get_puuid_from_riotid]: what is checked before the network is used *)

(** A Riot ID that does not parse raises [ValueError], and missing names
    raise [RuntimeError], before the platform is looked up and before any
    request: the limiter and the world are untouched, even for an unknown
    platform.  A Riot ID that parses replaces the two names given beside
    it, and an unknown platform then exits without a request. *)
Theorem puuid_checks_come_first
    (py_float : string -> option Q) (lower : string -> string)
    (net : string -> nat -> HttpOutcome) (quote : string -> string)
    (fuel : nat) (platform : string) (game_name tag_line : option string)
    (rl : RateLimiter.t) (w : World) :
  (forall riot_id,
      riot_id <> EmptyString ->
      MatchExporter.parse_riot_id riot_id = Raises ValueError ->
      MatchExporter.get_puuid_from_riotid py_float lower net quote fuel platform
        (Some riot_id) game_name tag_line rl w
      = Some (MatchExporter.PuuidRaises ValueError, rl, w)) /\
  (forall riot_id,
      MatchExporter.truthy_str riot_id = false ->
      MatchExporter.truthy_str game_name && MatchExporter.truthy_str tag_line = false ->
      MatchExporter.get_puuid_from_riotid py_float lower net quote fuel platform
        riot_id game_name tag_line rl w
      = Some (MatchExporter.PuuidRaises RuntimeError, rl, w)) /\
  (forall riot_id g t,
      MatchExporter.parse_riot_id riot_id = Returned (g, t) ->
      MatchExporter.get_puuid_from_riotid py_float lower net quote fuel platform
        (Some riot_id) game_name tag_line rl w
      = MatchExporter.get_puuid_from_riotid py_float lower net quote fuel platform
          None (Some g) (Some t) rl w) /\
  (forall riot_id g t,
      MatchExporter.parse_riot_id riot_id = Returned (g, t) ->
      MatchExporter.regional_account_base lower platform = None ->
      MatchExporter.get_puuid_from_riotid py_float lower net quote fuel platform
        (Some riot_id) game_name tag_line rl w
      = Some (MatchExporter.PuuidExits 1, rl, w)).
Proof.
  pose proof parse_riot_id_nonempty as Hparsed.
  unfold MatchExporter.get_puuid_from_riotid, MatchExporter.names_to_look_up.
  split; [|split; [|split]].
  - intros riot_id Hne H. destruct riot_id as [|c rest]; [congruence|].
    rewrite H. reflexivity.
  - intros riot_id Hr Hn.
    assert (E : match riot_id with
                | Some (String c rest) =>
                    match MatchExporter.parse_riot_id (String c rest) with
                    | Returned (g, t) => Returned (Some g, Some t)
                    | Raises e => Raises e
                    end
                | _ => Returned (game_name, tag_line)
                end = Returned (game_name, tag_line)).
    { destruct riot_id as [[|c rest]|]; try reflexivity. discriminate. }
    rewrite E.
    destruct game_name as [[|c1 g]|]; try reflexivity.
    destruct tag_line as [[|c2 t]|]; try reflexivity. discriminate.
  - intros riot_id g t H. destruct (Hparsed _ _ _ H) as (Hr & Hg & Ht).
    destruct riot_id as [|c rest]; [congruence|]. rewrite H. reflexivity.
  - intros riot_id g t H Hbase. destruct (Hparsed _ _ _ H) as (Hr & Hg & Ht).
    destruct riot_id as [|c rest]; [congruence|]. rewrite H.
    destruct g as [|c1 g]; [congruence|]. destruct t as [|c2 t]; [congruence|].
    rewrite Hbase. reflexivity.
Qed.

(** ** [load_queue_map]: the base names win, and the map is built once *)

Lemma qm_get_set_same (qid : Z) (desc : Json) (mapping : MatchExporter.QueueMap) :
  MatchExporter.qm_get qid (MatchExporter.qm_set qid desc mapping) = Some desc.
Proof.
  induction mapping as [|[k v] rest IH]; simpl.
  - rewrite Z.eqb_refl. reflexivity.
  - destruct (k =? qid)%Z eqn:E; simpl; rewrite E; [reflexivity|exact IH].
Qed.

Lemma qm_get_set_other (qid k : Z) (desc : Json) (mapping : MatchExporter.QueueMap) :
  k <> qid ->
  MatchExporter.qm_get qid (MatchExporter.qm_set k desc mapping)
  = MatchExporter.qm_get qid mapping.
Proof.
  intro Hne. induction mapping as [|[k' v] rest IH]; simpl.
  - destruct (k =? qid)%Z eqn:E; [apply Z.eqb_eq in E; congruence|reflexivity].
  - destruct (k' =? k)%Z eqn:E; simpl.
    + apply Z.eqb_eq in E. subst k'.
      destruct (k =? qid)%Z eqn:E'; [apply Z.eqb_eq in E'; congruence|reflexivity].
    + destruct (k' =? qid)%Z; [reflexivity|exact IH].
Qed.

Lemma qm_get_absent (qid : Z) (mapping : MatchExporter.QueueMap) :
  ~ In qid (map fst mapping) -> MatchExporter.qm_get qid mapping = None.
Proof.
  induction mapping as [|[k v] rest IH]; simpl; intro H; [reflexivity|].
  destruct (k =? qid)%Z eqn:E; [apply Z.eqb_eq in E; tauto|apply IH; tauto].
Qed.

Lemma qm_get_update (other : MatchExporter.QueueMap) :
  NoDup (map fst other) ->
  forall (mapping : MatchExporter.QueueMap) (qid : Z),
    MatchExporter.qm_get qid (MatchExporter.qm_update mapping other)
    = match MatchExporter.qm_get qid other with
      | Some name => Some name
      | None => MatchExporter.qm_get qid mapping
      end.
Proof.
  unfold MatchExporter.qm_update.
  induction other as [|[k v] rest IH]; intros Hnd mapping qid; simpl; [reflexivity|].
  inversion Hnd as [|? ? Hk Hrest]; subst.
  rewrite (IH Hrest). destruct (k =? qid)%Z eqn:E.
  - apply Z.eqb_eq in E. subst k.
    rewrite (qm_get_absent qid rest Hk). apply qm_get_set_same.
  - apply Z.eqb_neq in E. rewrite (qm_get_set_other qid k v mapping E). reflexivity.
Qed.

Lemma QUEUE_MAP_BASE_keys : NoDup (map fst MatchExporter.QUEUE_MAP_BASE).
Proof. simpl. repeat constructor; simpl; intuition discriminate. Qed.

(** Whatever the download gives, the first call of [load_queue_map] asks
    once and returns a map in which the seven base queues have their base
    names; a download that fails or does not have the expected shape gives
    the base map itself; in a map built from a list of entries every other
    id has the name the entries gave it.  The map is stored, and any later
    call returns it without a request. *)
Theorem queue_map_keeps_base_names
    (download later_download : Outcome Json) (w later : World) :
  let first := MatchExporter.load_queue_map download None w in
  let mapping := fst (fst first) in
  (forall qid,
      MatchExporter.qm_get qid mapping
      = match MatchExporter.qm_get qid MatchExporter.QUEUE_MAP_BASE with
        | Some name => Some name
        | None =>
            match download with
            | Returned (JArr items) =>
                match MatchExporter.add_entries items [] with
                | Some entries => MatchExporter.qm_get qid entries
                | None => None
                end
            | _ => None
            end
        end) /\
  ((forall qdata, download = Returned qdata -> MatchExporter.queue_map_of qdata = None) ->
   mapping = MatchExporter.QUEUE_MAP_BASE) /\
  snd (fst first) = Some mapping /\
  http_calls (snd first) = S (http_calls w) /\
  MatchExporter.load_queue_map later_download (snd (fst first)) later
  = (mapping, Some mapping, later).
Proof.
  intros first mapping. unfold first in mapping. unfold mapping, first.
  assert (Hbase : forall qid,
    MatchExporter.qm_get qid (MatchExporter.qm_update [] MatchExporter.QUEUE_MAP_BASE)
    = match MatchExporter.qm_get qid MatchExporter.QUEUE_MAP_BASE with
      | Some name => Some name
      | None => None
      end).
  { intro qid. rewrite (qm_get_update _ QUEUE_MAP_BASE_keys). reflexivity. }
  assert (Hself : forall qid,
    MatchExporter.qm_get qid MatchExporter.QUEUE_MAP_BASE
    = match MatchExporter.qm_get qid MatchExporter.QUEUE_MAP_BASE with
      | Some name => Some name
      | None => None
      end).
  { intro qid. destruct (MatchExporter.qm_get qid MatchExporter.QUEUE_MAP_BASE); reflexivity. }
  split; [|split; [|split; [reflexivity|split; reflexivity]]].
  - intro qid. simpl. destruct download as [qdata|e]; [|apply Hself].
    destruct qdata as [| | |s|items|fields]; simpl; try apply Hself.
    + destruct s; simpl; [apply Hbase|apply Hself].
    + destruct (MatchExporter.add_entries items []) as [entries|]; [|apply Hself].
      apply (qm_get_update _ QUEUE_MAP_BASE_keys).
    + destruct fields; simpl; [apply Hbase|apply Hself].
  - intro H. simpl. destruct download as [qdata|e]; [|reflexivity].
    rewrite (H qdata eq_refl). reflexivity.
Qed.

(** ** [_make_request]: what every call preserves *)

Lemma adaptive_acquire_clock (fuel : nat) :
  forall (p : Priority) (s : AdaptiveRateLimiter.t) (w : World) r s' w',
    AdaptiveRateLimiter.acquire fuel p s w = Some (r, s', w') -> now w <= now w'.
Proof.
  induction fuel as [|fuel IH]; intros p s w r s' w' H; simpl in H; [discriminate|].
  destruct (AdaptiveRateLimiter.attempt (now w) p s) as [s1 [|d]].
  - inversion H; subst. apply Qle_refl.
  - apply IH in H. destruct (Qlt_bool 0 d) eqn:E; [|exact H].
    apply Qlt_bool_iff in E. simpl in H. lra.
Qed.

Section MakeRequestInvariants.

Import EnhancedRiotAPI.

Variable py_float : string -> option Q.
Variable _get_cache_key : string -> list (string * Json) -> string.

Lemma on_response_invariants (r : Response) (request : ApiRequest) (key : string)
    (api api' : t) (w w' : World) (res : Json) :
  NoDup (LRUCache.keys (LRUCache.cache (cache api))) ->
  (LRUCache.size (cache api) <= LRUCache.max_size (cache api))%Z ->
  on_response py_float r request key api w = (res, api', w') ->
  NoDup (LRUCache.keys (LRUCache.cache (cache api'))) /\
  (LRUCache.size (cache api') <= LRUCache.max_size (cache api'))%Z /\
  LRUCache.max_size (cache api') = LRUCache.max_size (cache api) /\
  total_requests api' = (total_requests api + 1)%Z /\
  (failed_requests api <= failed_requests api' <= failed_requests api + 1)%Z /\
  http_calls w' = http_calls w /\
  now w <= now w' /\
  (res <> JNull ->
   failed_requests api' = failed_requests api /\ request_queue api' = request_queue api).
Proof.
  intros Hnd Hsz H.
  unfold on_response, on_exception, requeue_high, requeue_same, retry_after_seconds,
    time_sleep in H.
  repeat match type of H with
         | context [if ?b then _ else _] => destruct b eqn:?
         | context [match ?x with _ => _ end] => destruct x eqn:?
         end;
    try (exfalso;
         match goal with
         | E : Qlt_bool (Qpower 2 ?z) 0 = true |- _ =>
             apply Qlt_bool_iff in E;
             pose proof (Qpower_0_le 2 z ltac:(lra)); lra
         end);
    inversion H; subst; clear H; simpl; unfold incr;
    repeat match goal with
           | E : Qlt_bool _ 0 = false |- _ => apply Qlt_bool_false_iff in E
           | E : LRUCache.set _ _ _ _ _ = Some _ |- _ =>
               pose proof (set_NoDup _ _ _ _ _ _ Hnd E);
               pose proof (set_size_bound _ _ _ _ _ _ Hsz E);
               destruct (set_cache _ _ _ _ _ _ E) as (? & _);
               clear E
           end;
    (split; [|split; [|split; [|split; [|split; [|split; [|split]]]]]]);
    try assumption; try lia; try apply Qle_refl; try lra;
    try (intro Hres; exfalso; apply Hres; reflexivity);
    try (intros _; split; reflexivity).
Qed.

(** Whatever the network does, a call of [_make_request] that returns
    leaves the cache without duplicate keys and within its capacity, adds
    at most one to [total_requests] and at most one to [failed_requests],
    issues at most one request and never turns the clock back; and a
    result that is not [None] comes with no failure counted and nothing
    queued. *)
Theorem make_request_keeps_invariants
    (fuel : nat) (http : HttpOutcome) (request : ApiRequest) (api api' : t)
    (w w' : World) (res : Json) :
  NoDup (LRUCache.keys (LRUCache.cache (cache api))) ->
  (LRUCache.size (cache api) <= LRUCache.max_size (cache api))%Z ->
  _make_request py_float _get_cache_key fuel http request api w = Some (res, api', w') ->
  NoDup (LRUCache.keys (LRUCache.cache (cache api'))) /\
  (LRUCache.size (cache api') <= LRUCache.max_size (cache api'))%Z /\
  LRUCache.max_size (cache api') = LRUCache.max_size (cache api) /\
  (total_requests api <= total_requests api' <= total_requests api + 1)%Z /\
  (failed_requests api <= failed_requests api' <= failed_requests api + 1)%Z /\
  (http_calls w <= http_calls w' <= http_calls w + 1)%nat /\
  now w <= now w' /\
  (res <> JNull ->
   failed_requests api' = failed_requests api /\ request_queue api' = request_queue api).
Proof.
  intros Hnd Hsz H. unfold _make_request in H.
  pose proof (get_NoDup (now w) (_get_cache_key (url request) (params request)) (cache api) Hnd)
    as Gnd.
  pose proof (get_size_bound (now w) (_get_cache_key (url request) (params request))
                (cache api) Hsz) as Gsz.
  destruct (get_counts (now w) (_get_cache_key (url request) (params request)) (cache api))
    as (_ & _ & _ & Gmax).
  destruct (LRUCache.get (now w) (_get_cache_key (url request) (params request)) (cache api))
    as [cached c]. simpl in Gnd, Gsz, Gmax.
  destruct (negb (is_None cached)) eqn:Ec.
  - inversion H; subst. simpl.
    split; [exact Gnd|]. split; [exact Gsz|]. split; [exact Gmax|].
    split; [lia|]. split; [lia|]. split; [lia|]. split; [apply Qle_refl|].
    intros _. split; reflexivity.
  - simpl in H.
    destruct (AdaptiveRateLimiter.acquire fuel (priority request) (rate_limiter api) w)
      as [[[wt rl] w1]|] eqn:Ea; [|discriminate].
    pose proof (adaptive_acquire_clock _ _ _ _ _ _ _ Ea) as Hclock.
    destruct (adaptive_acquire_zero _ _ _ _ _ _ _ Ea) as (_ & _ & Hcalls & _).
    remember (if Qlt_bool 0 wt then print (MsgRateLimitingWaiting wt) w1 else w1)
      as wp eqn:Ewp.
    assert (Hwp : http_calls wp = http_calls w /\ now wp == now w1)
      by (subst wp; destruct (Qlt_bool 0 wt); simpl; split; try lia; reflexivity).
    clear Ewp. destruct Hwp as [Hc2 Hn2].
    destruct http as [|r].
    + inversion H; subst; clear H. simpl. unfold incr.
      split; [exact Gnd|]. split; [exact Gsz|]. split; [exact Gmax|].
      split; [lia|]. split; [lia|]. split; [lia|]. split; [lra|].
      intro Hres. exfalso. apply Hres. reflexivity.
    + inversion H as [H']. clear H.
      destruct (on_response_invariants r request _
                  (with_rate_limiter rl (with_cache c api)) api' (issue_request wp) w' res
                  Gnd Gsz H')
        as (A & B & C & D & E & F & G & I).
      simpl in C, D, E, F, G, I.
      split; [exact A|]. split; [exact B|]. split; [congruence|].
      split; [lia|]. split; [lia|]. split; [lia|]. split; [lra|].
      exact I.
Qed.

End MakeRequestInvariants.

Lemma make_request_keeps_invariants_witness :
  match EnhancedRiotAPI._make_request float_of_digit plain_cache_key 1
          (Responded error_response) (request_at 0) api0 world0 with
  | Some (res, api', w') =>
      NoDup (LRUCache.keys (LRUCache.cache (EnhancedRiotAPI.cache api'))) /\
      (LRUCache.size (EnhancedRiotAPI.cache api')
       <= LRUCache.max_size (EnhancedRiotAPI.cache api'))%Z /\
      LRUCache.max_size (EnhancedRiotAPI.cache api')
      = LRUCache.max_size (EnhancedRiotAPI.cache api0) /\
      (EnhancedRiotAPI.total_requests api0 <= EnhancedRiotAPI.total_requests api'
       <= EnhancedRiotAPI.total_requests api0 + 1)%Z /\
      (EnhancedRiotAPI.failed_requests api0 <= EnhancedRiotAPI.failed_requests api'
       <= EnhancedRiotAPI.failed_requests api0 + 1)%Z /\
      (http_calls world0 <= http_calls w' <= http_calls world0 + 1)%nat /\
      now world0 <= now w' /\
      (res <> JNull ->
       EnhancedRiotAPI.failed_requests api' = EnhancedRiotAPI.failed_requests api0 /\
       EnhancedRiotAPI.request_queue api' = EnhancedRiotAPI.request_queue api0)
  | None => False
  end.
Proof.
  pose proof (make_request_keeps_invariants float_of_digit plain_cache_key 1
                (Responded error_response) (request_at 0) api0) as H.
  destruct (EnhancedRiotAPI._make_request float_of_digit plain_cache_key 1
              (Responded error_response) (request_at 0) api0 world0)
    as [[[res api'] w']|] eqn:E.
  - apply (H api' world0 w' res).
    + simpl. constructor.
    + vm_compute. discriminate.
    + exact E.
  - vm_compute in E. discriminate.
Defined.
